(** * Permutation flowshop: the insertion-evaluation kernels of calculations.pyx

    A shallow embedding of the four Cython routines
    [taillard_acceleration], [tie_breaking], [calculate_completion_times]
    and [calculate_idle_times], followed by the properties established
    for them.

    Modelling conventions.
    - A C [int] is a [Z] kept in the signed 32-bit range by [wrap]: an
      addition or subtraction on table entries that overflows wraps
      around, as it does in the code compiled for an extension module
      ([-fwrapv]); they go through [add32] and [sub32].  Loop counters and
      index expressions are left unwrapped: an index that could wrap is
      far outside every buffer and is reported as an out-of-bounds access
      long before.
    - The routines are compiled with [boundscheck(False)] and
      [wraparound(False)], so an index outside a buffer is not a Python
      exception but an access outside the storage.  The embedding reports
      it as the outcome [OutOfBounds], naming the buffer and the index.
      For the static C arrays the bounds are the declared ones, dimension
      by dimension: [q[i][61]] is reported although it still lies inside
      the storage of [q].
    - The static C arrays [e], [q], [f], [ms] and [fl] are not initialised
      by the code.  Their initial contents are an explicit argument
      ([scratch]) of the model. *)

From Stdlib Require Import ZArith List Lia Bool.
Import ListNotations.
Local Open Scope Z_scope.

(** ** Machine integers *)

Definition wrap (z : Z) : Z := (z + 2147483648) mod 4294967296 - 2147483648.
Definition add32 (a b : Z) : Z := wrap (a + b).
Definition sub32 (a b : Z) : Z := wrap (a - b).
Definition INT_MAX : Z := 2147483647.

(** ** Outcomes, buffers and the state monad of one call *)

Inductive buffer : Type :=
| Bsequence | Bprocessing_times | Be | Bq | Bf | Bms | Bfl | Bidle_time.

Inductive exception : Type := ValueError | TypeError.

Inductive outcome (A : Type) : Type :=
| Ok (a : A)
| OutOfBounds (b : buffer) (row col : Z)
| Raises (x : exception).
Arguments Ok {A} a.
Arguments OutOfBounds {A} b row col.
Arguments Raises {A} x.

Definition M (S A : Type) : Type := S -> outcome (A * S).

Definition ret {S A} (a : A) : M S A := fun s => Ok (a, s).

Definition bind {S A B} (c : M S A) (k : A -> M S B) : M S B :=
  fun s => match c s with
           | Ok (a, s') => k a s'
           | OutOfBounds b i j => OutOfBounds b i j
           | Raises x => Raises x
           end.

Definition lift {S A} (o : outcome A) : M S A :=
  fun s => match o with
           | Ok a => Ok (a, s)
           | OutOfBounds b i j => OutOfBounds b i j
           | Raises x => Raises x
           end.

Definition gets {S A} (g : S -> A) : M S A := fun s => Ok (g s, s).
Definition modify {S} (u : S -> S) : M S unit := fun s => Ok (tt, u s).

Definition eval {S A} (c : M S A) (s : S) : outcome A :=
  match c s with
  | Ok (a, _) => Ok a
  | OutOfBounds b i j => OutOfBounds b i j
  | Raises x => Raises x
  end.

Declare Scope prog_scope.
Delimit Scope prog_scope with prog.
Notation "x <- c ;; k" := (bind c (fun x => k))
  (at level 61, c at next level, right associativity) : prog_scope.
Notation "c ;; k" := (bind c (fun _ => k))
  (at level 61, right associativity) : prog_scope.
Local Open Scope prog_scope.

Definition when {S} (b : bool) (c : M S unit) : M S unit :=
  if b then c else ret tt.

(** [for i in range(lo, hi)]: the body runs for [lo], [lo+1], ..., [hi-1]. *)
Fixpoint for_loop {S} (count : nat) (i : Z) (body : Z -> M S unit) : M S unit :=
  match count with
  | O => ret tt
  | S count' => body i ;; for_loop count' (i + 1) body
  end.

Definition for_range {S} (lo hi : Z) (body : Z -> M S unit) : M S unit :=
  for_loop (Z.to_nat (hi - lo)) lo body.

(** ** Buffers *)

Definition table : Type := Z -> Z -> Z.
Definition vector : Type := Z -> Z.

Definition upd2 (t : table) (i j v : Z) : table :=
  fun i' j' => if (i' =? i) && (j' =? j) then v else t i' j'.
Definition upd1 (t : vector) (i v : Z) : vector :=
  fun i' => if i' =? i then v else t i'.

Definition within (lo hi x : Z) : bool := (lo <=? x) && (x <? hi).

(** The memoryview arguments: a one-dimensional [int[:]] and a
    two-dimensional [int[:,:]], read without bounds checks. *)
Definition len {A} (l : list A) : Z := Z.of_nat (length l).

Definition seq_at (sequence : list Z) (i : Z) : outcome Z :=
  if within 0 (len sequence) i
  then Ok (nth (Z.to_nat i) sequence 0)
  else OutOfBounds Bsequence i 0.

Definition pt_at (processing_times : list (list Z)) (r c : Z) : outcome Z :=
  if within 0 (len processing_times) r
  then let row := nth (Z.to_nat r) processing_times [] in
       if within 0 (len row) c
       then Ok (nth (Z.to_nat c) row 0)
       else OutOfBounds Bprocessing_times r c
  else OutOfBounds Bprocessing_times r c.

(** A numpy [int32] array of two dimensions, with its shape. *)
Record ndarray : Type := mk_ndarray { nrows : Z; ncols : Z; data : table }.

(** [numpy.zeros((r, c))]; a negative dimension is a [ValueError]. *)
Definition zeros2 (r c : Z) : outcome ndarray :=
  if (r <? 0) || (c <? 0) then Raises ValueError
  else Ok (mk_ndarray r c (fun _ _ => 0)).

Definition getitem (b : buffer) (i j : Z) : M ndarray Z :=
  fun a => if within 0 (nrows a) i && within 0 (ncols a) j
           then Ok (data a i j, a)
           else OutOfBounds b i j.

Definition setitem (b : buffer) (i j v : Z) : M ndarray unit :=
  fun a => if within 0 (nrows a) i && within 0 (ncols a) j
           then Ok (tt, mk_ndarray (nrows a) (ncols a) (upd2 (data a) i j v))
           else OutOfBounds b i j.

(** ** calculate_completion_times *)

Inductive completion_result : Type :=
| Table (e : ndarray)
| Scalar (makespan : Z).

Definition completion_cell (sequence : list Z) (processing_times : list (list Z))
    (i j : Z) : M ndarray unit :=
  when (i =? 1) (setitem Be 0 j 0) ;;
  up <- getitem Be (i - 1) j ;;
  left <- getitem Be i (j - 1) ;;
  job <- lift (seq_at sequence (i - 1)) ;;
  p <- lift (pt_at processing_times (job - 1) (j - 1)) ;;
  if up >? left
  then setitem Be i j (add32 up p)
  else setitem Be i j (add32 left p).

Definition completion_row (sequence : list Z) (processing_times : list (list Z))
    (num_machines i : Z) : M ndarray unit :=
  setitem Be i 0 0 ;;
  for_range 1 (num_machines + 1) (completion_cell sequence processing_times i).

Definition completion_return (sequence_length num_machines return_array : Z)
  : M ndarray completion_result :=
  if return_array >? 0
  then gets Table
  else v <- getitem Be sequence_length num_machines ;; ret (Scalar v).

Definition calculate_completion_times (sequence : list Z)
    (processing_times : list (list Z)) (num_machines return_array : Z)
  : outcome completion_result :=
  let sequence_length := len sequence in
  match zeros2 (sequence_length + 1) (num_machines + 1) with
  | Ok e =>
      eval (for_range 1 (sequence_length + 1)
              (completion_row sequence processing_times num_machines) ;;
            completion_return sequence_length num_machines return_array) e
  | OutOfBounds b i j => OutOfBounds b i j
  | Raises x => Raises x
  end.

(** ** calculate_idle_times *)

(** A numpy [int32] array of one dimension, with its length. *)
Record ndvector : Type := mk_ndvector { size : Z; items : vector }.

Definition zeros1 (n : Z) : outcome ndvector :=
  if n <? 0 then Raises ValueError else Ok (mk_ndvector n (fun _ => 0)).

Definition getitem1 (b : buffer) (i : Z) : M ndvector Z :=
  fun a => if within 0 (size a) i then Ok (items a i, a) else OutOfBounds b i 0.

Definition setitem1 (b : buffer) (i v : Z) : M ndvector unit :=
  fun a => if within 0 (size a) i
           then Ok (tt, mk_ndvector (size a) (upd1 (items a) i v))
           else OutOfBounds b i 0.

(** Reading the completion table through its memoryview. *)
Definition peek (e : ndarray) (i j : Z) : outcome Z := eval (getitem Be i j) e.

Definition idle_cell (sequence : list Z) (processing_times : list (list Z))
    (e : ndarray) (i j : Z) : M ndvector unit :=
  job <- lift (seq_at sequence i) ;;
  old <- getitem1 Bidle_time (job - 1) ;;
  after <- lift (peek e (i + 1) j) ;;
  p <- lift (pt_at processing_times (job - 1) (j - 1)) ;;
  before <- lift (peek e i j) ;;
  setitem1 Bidle_time (job - 1) (add32 old (sub32 (sub32 after p) before)).

Definition idle_row (sequence : list Z) (processing_times : list (list Z))
    (num_machines : Z) (e : ndarray) (i : Z) : M ndvector unit :=
  job <- lift (seq_at sequence i) ;;
  setitem1 Bidle_time (job - 1) 0 ;;
  for_range 1 (num_machines + 1) (idle_cell sequence processing_times e i).

Definition calculate_idle_times (sequence : list Z)
    (processing_times : list (list Z)) (num_machines : Z) : outcome ndvector :=
  let sequence_length := len sequence in
  match zeros1 sequence_length with
  | Ok idle_time =>
      match calculate_completion_times sequence processing_times num_machines 1 with
      | Ok (Table e) =>
          eval (for_range 0 sequence_length
                  (idle_row sequence processing_times num_machines e) ;;
                gets (fun a => a)) idle_time
      | Ok (Scalar _) => Raises TypeError
      | OutOfBounds b i j => OutOfBounds b i j
      | Raises x => Raises x
      end
  | OutOfBounds b i j => OutOfBounds b i j
  | Raises x => Raises x
  end.

(** ** taillard_acceleration *)

(** The static arrays [int e[801][61]], [q], [f], [fl] and [int ms[801]]. *)
Definition in_array (i j : Z) : bool := within 0 801 i && within 0 61 j.

(** What the stack holds where the arrays are placed, before the call. *)
Record scratch : Type := mk_scratch
  { e0 : table; q0 : table; f0 : table; ms0 : vector; fl0 : table }.

Module Frame.
(** The locals of [taillard_acceleration]. *)
Record t : Type := mk
  { e : table; q : table; f : table; ms : vector;
    iq : Z; jq : Z; best_makespan : Z; best_position : Z }.

Definition set_e (s : t) (x : table) : t :=
  mk x (q s) (f s) (ms s) (iq s) (jq s) (best_makespan s) (best_position s).
Definition set_q (s : t) (x : table) : t :=
  mk (e s) x (f s) (ms s) (iq s) (jq s) (best_makespan s) (best_position s).
Definition set_f (s : t) (x : table) : t :=
  mk (e s) (q s) x (ms s) (iq s) (jq s) (best_makespan s) (best_position s).
Definition set_ms (s : t) (x : vector) : t :=
  mk (e s) (q s) (f s) x (iq s) (jq s) (best_makespan s) (best_position s).
Definition set_iq (x : Z) (s : t) : t :=
  mk (e s) (q s) (f s) (ms s) x (jq s) (best_makespan s) (best_position s).
Definition set_jq (x : Z) (s : t) : t :=
  mk (e s) (q s) (f s) (ms s) (iq s) x (best_makespan s) (best_position s).
Definition set_best (makespan position : Z) (s : t) : t :=
  mk (e s) (q s) (f s) (ms s) (iq s) (jq s) makespan position.

Definition enter (junk : scratch) : t :=
  mk (e0 junk) (q0 junk) (f0 junk) (ms0 junk) 0 0 0 0.
End Frame.

Definition rd_e (i j : Z) : M Frame.t Z :=
  fun s => if in_array i j then Ok (Frame.e s i j, s) else OutOfBounds Be i j.
Definition rd_q (i j : Z) : M Frame.t Z :=
  fun s => if in_array i j then Ok (Frame.q s i j, s) else OutOfBounds Bq i j.
Definition rd_f (i j : Z) : M Frame.t Z :=
  fun s => if in_array i j then Ok (Frame.f s i j, s) else OutOfBounds Bf i j.
Definition rd_ms (i : Z) : M Frame.t Z :=
  fun s => if within 0 801 i then Ok (Frame.ms s i, s) else OutOfBounds Bms i 0.

Definition wr_e (i j v : Z) : M Frame.t unit :=
  fun s => if in_array i j
           then Ok (tt, Frame.set_e s (upd2 (Frame.e s) i j v))
           else OutOfBounds Be i j.
Definition wr_q (i j v : Z) : M Frame.t unit :=
  fun s => if in_array i j
           then Ok (tt, Frame.set_q s (upd2 (Frame.q s) i j v))
           else OutOfBounds Bq i j.
Definition wr_f (i j v : Z) : M Frame.t unit :=
  fun s => if in_array i j
           then Ok (tt, Frame.set_f s (upd2 (Frame.f s) i j v))
           else OutOfBounds Bf i j.
Definition wr_ms (i v : Z) : M Frame.t unit :=
  fun s => if within 0 801 i
           then Ok (tt, Frame.set_ms s (upd1 (Frame.ms s) i v))
           else OutOfBounds Bms i 0.

Section Taillard.
Variable sequence : list Z.
Variable processing_times : list (list Z).
Variable inserting_job num_machines : Z.

Let sequence_length : Z := len sequence.

(** Lines 62-73: one entry of [e] and, counting down, one entry of [q]. *)
Definition head_tail_cell (i j : Z) : M Frame.t unit :=
  modify (fun s => Frame.set_jq (Frame.jq s - 1) s) ;;
  iq <- gets Frame.iq ;;
  jq <- gets Frame.jq ;;
  left <- rd_e i (j - 1) ;;
  up <- rd_e (i - 1) j ;;
  job <- lift (seq_at sequence (i - 1)) ;;
  p <- lift (pt_at processing_times (job - 1) (j - 1)) ;;
  (if left >? up then wr_e i j (add32 left p) else wr_e i j (add32 up p)) ;;
  right <- rd_q iq (jq + 1) ;;
  down <- rd_q (iq + 1) jq ;;
  jobq <- lift (seq_at sequence (iq - 1)) ;;
  pq <- lift (pt_at processing_times (jobq - 1) (jq - 1)) ;;
  if right >? down then wr_q iq jq (add32 right pq) else wr_q iq jq (add32 down pq).

(** Lines 75-79: one entry of [f]. *)
Definition insert_cell (i j : Z) : M Frame.t unit :=
  left <- rd_f i (j - 1) ;;
  up <- rd_e (i - 1) j ;;
  p <- lift (pt_at processing_times (inserting_job - 1) (j - 1)) ;;
  if left >? up then wr_f i j (add32 left p) else wr_f i j (add32 up p).

(** Lines 57-79: the body of the loop on [j]. *)
Definition main_cell (i j : Z) : M Frame.t unit :=
  when (i =? 1)
    (wr_e 0 j 0 ;; wr_q (sequence_length + 1) (num_machines + 1 - j) 0) ;;
  when (i <? sequence_length + 1) (head_tail_cell i j) ;;
  insert_cell i j.

(** Lines 46-79: the body of the main loop on [i]. *)
Definition main_row (i : Z) : M Frame.t unit :=
  when (i <? sequence_length + 1)
    (wr_e i 0 0 ;;
     modify (fun s => Frame.set_iq (Frame.iq s - 1) s) ;;
     iq <- gets Frame.iq ;;
     wr_q iq (num_machines + 1) 0) ;;
  wr_f i 0 0 ;;
  modify (Frame.set_jq (num_machines + 1)) ;;
  for_range 1 (num_machines + 1) (main_cell i).

(** Lines 87-90. *)
Definition makespan_cell (i j : Z) : M Frame.t unit :=
  a <- rd_f i j ;;
  b <- rd_q i j ;;
  let tmp := add32 a b in
  cur <- rd_ms i ;;
  when (tmp >? cur) (wr_ms i tmp).

(** Lines 85-94. *)
Definition makespan_row (i : Z) : M Frame.t unit :=
  wr_ms i 0 ;;
  for_range 1 (num_machines + 1) (makespan_cell i) ;;
  cur <- rd_ms i ;;
  best <- gets Frame.best_makespan ;;
  when ((cur <? best) || (best =? 0)) (modify (Frame.set_best cur i)).

(** Lines 42-94. *)
Definition taillard_tables : M Frame.t unit :=
  modify (Frame.set_iq (sequence_length + 1)) ;;
  for_range 1 (sequence_length + 2) main_row ;;
  modify (Frame.set_best 0 0) ;;
  for_range 1 (sequence_length + 2) makespan_row.
End Taillard.

Module Tie.
(** The locals of [tie_breaking]. *)
Record t : Type := mk
  { fl : table; it : Z; itbp : Z; num_ties : Z; best_position : Z }.

Definition set_fl (s : t) (x : table) : t :=
  mk x (it s) (itbp s) (num_ties s) (best_position s).
Definition set_it (x : Z) (s : t) : t :=
  mk (fl s) x (itbp s) (num_ties s) (best_position s).
Definition set_num_ties (x : Z) (s : t) : t :=
  mk (fl s) (it s) (itbp s) x (best_position s).
Definition choose (position : Z) (s : t) : t :=
  mk (fl s) (it s) (it s) (num_ties s) position.

Definition enter (junk : scratch) (best_position : Z) : t :=
  mk (fl0 junk) 0 2000000 0 best_position.
End Tie.

Definition rd_fl (i j : Z) : M Tie.t Z :=
  fun s => if in_array i j then Ok (Tie.fl s i j, s) else OutOfBounds Bfl i j.
Definition wr_fl (i j v : Z) : M Tie.t unit :=
  fun s => if in_array i j
           then Ok (tt, Tie.set_fl s (upd2 (Tie.fl s) i j v))
           else OutOfBounds Bfl i j.

(** Reading one of the caller's arrays through the memoryview argument. *)
Definition view2 (b : buffer) (a : table) (i j : Z) : outcome Z :=
  if in_array i j then Ok (a i j) else OutOfBounds b i j.
Definition view1 (b : buffer) (a : vector) (i : Z) : outcome Z :=
  if within 0 801 i then Ok (a i) else OutOfBounds b i 0.

Section TieBreaking.
Variable processing_times : list (list Z).
Variable e f : table.
Variable ms : vector.
Variable inserting_job sequence_length num_machines : Z.

Definition add_it (d : Z) : M Tie.t unit :=
  modify (fun s => Tie.set_it (add32 (Tie.it s) d) s).

(** Line 144. *)
Definition tie_last_cell (j : Z) : M Tie.t unit :=
  a <- lift (view2 Bf f sequence_length j) ;;
  b <- lift (view2 Be e (sequence_length - 1) j) ;;
  p <- lift (pt_at processing_times (inserting_job - 1) (j - 1)) ;;
  add_it (sub32 (sub32 a b) p).

(** Lines 150-157. *)
Definition tie_inner_cell (i j : Z) : M Tie.t unit :=
  a <- lift (view2 Bf f i j) ;;
  b <- lift (view2 Be e i j) ;;
  p <- lift (pt_at processing_times (i - 1) (j - 1)) ;;
  pk <- lift (pt_at processing_times (inserting_job - 1) (j - 1)) ;;
  add_it (sub32 (add32 (sub32 a b) p) pk) ;;
  prev <- rd_fl i (j - 1) ;;
  when (sub32 prev a >? 0) (add_it (sub32 prev a)) ;;
  if prev >? a
  then wr_fl i j (add32 prev p)
  else (cur <- rd_fl i j ;; wr_fl i j (add32 cur p)).

(** Lines 135-161: the body of the loop on [i]. *)
Definition tie_row (best_makespan i : Z) : M Tie.t unit :=
  cur <- lift (view1 Bms ms i) ;;
  when (cur =? best_makespan)
    (modify (Tie.set_it 0) ;;
     modify (fun s => Tie.set_num_ties (add32 (Tie.num_ties s) 1) s) ;;
     (if i =? sequence_length
      then for_range 1 (num_machines + 1) tie_last_cell
      else (a <- lift (view2 Bf f i 1) ;;
            p <- lift (pt_at processing_times (i - 1) 0) ;;
            wr_fl i 1 (add32 a p) ;;
            for_range 2 (num_machines + 1) (tie_inner_cell i))) ;;
     it <- gets Tie.it ;;
     itbp <- gets Tie.itbp ;;
     when (it <? itbp) (modify (Tie.choose i))).

Definition tie_breaking (junk : scratch) (best_position : Z) : outcome Z :=
  eval (best_makespan <- lift (view1 Bms ms best_position) ;;
        for_range 1 (sequence_length + 2) (tie_row best_makespan) ;;
        gets Tie.best_position)
       (Tie.enter junk best_position).
End TieBreaking.

Definition taillard_acceleration (junk : scratch) (sequence : list Z)
    (processing_times : list (list Z))
    (inserting_job num_machines use_tie_breaking : Z) : outcome (Z * Z) :=
  match taillard_tables sequence processing_times inserting_job num_machines
          (Frame.enter junk) with
  | Ok (_, s) =>
      if use_tie_breaking >? 0
      then match tie_breaking processing_times (Frame.e s) (Frame.f s) (Frame.ms s)
                   inserting_job (len sequence) num_machines junk
                   (Frame.best_position s) with
           | Ok position => Ok (position, Frame.best_makespan s)
           | OutOfBounds b i j => OutOfBounds b i j
           | Raises x => Raises x
           end
      else Ok (Frame.best_position s, Frame.best_makespan s)
  | OutOfBounds b i j => OutOfBounds b i j
  | Raises x => Raises x
  end.

(** Stack contents used in examples: all zero, and all zero but for one
    entry of the region of [e]. *)
Definition junk_zero : scratch :=
  mk_scratch (fun _ _ => 0) (fun _ _ => 0) (fun _ _ => 0) (fun _ => 0) (fun _ _ => 0).
Definition junk_e (i j v : Z) : scratch :=
  mk_scratch (upd2 (fun _ _ => 0) i j v) (fun _ _ => 0) (fun _ _ => 0)
             (fun _ => 0) (fun _ _ => 0).

(** All zero but for the region of [fl], which holds [v] everywhere. *)
Definition junk_fl (v : Z) : scratch :=
  mk_scratch (fun _ _ => 0) (fun _ _ => 0) (fun _ _ => 0) (fun _ => 0) (fun _ _ => v).

(** Three jobs of one time unit on each of three machines. *)
Definition p_ones : list (list Z) := [[1; 1; 1]; [1; 1; 1]; [1; 1; 1]].

(** Scenarios of the specification: two machines, two and three jobs. *)
Definition p_two : list (list Z) := [[3; 2]; [2; 4]].
Definition p_three : list (list Z) := [[3; 2]; [2; 4]; [1; 1]].

(** ** The recurrences, row by row

    The loops above fill their tables entry by entry.  The functions below
    compute the same rows as lists over machines 1..m; they are what the
    tables are shown to contain. *)

(** The recurrences are stated for any addition [add]: with [add32] they
    are what the code computes; with [Z.add] they are the completion times
    themselves. *)
Section RowsBy.
Variable add : Z -> Z -> Z.

(** [c_j = max(c_(j-1), above_j) + p_j], from the first machine on;
    [prev] stands for [c_0]. *)
Fixpoint advance_by (prev : Z) (above ps : list Z) : list Z :=
  match above, ps with
  | a :: above', p :: ps' =>
      let c := add (Z.max prev a) p in c :: advance_by c above' ps'
  | _, _ => []
  end.

(** [t_j = max(t_(j+1), below_j) + p_j], from the last machine back. *)
Fixpoint retreat_by (below ps : list Z) : list Z :=
  match below, ps with
  | b :: below', p :: ps' =>
      let rest := retreat_by below' ps' in add (Z.max (hd 0 rest) b) p :: rest
  | _, _ => []
  end.

(** Completion times of the last of [jobs], started on top of [above]. *)
Definition finish_by (above : list Z) (jobs : list (list Z)) : list Z :=
  fold_left (advance_by 0) jobs above.

(** Time from the start of the first of [jobs] on each machine to the end. *)
Definition tail_row_by (m : nat) (jobs : list (list Z)) : list Z :=
  fold_right (fun ps below => retreat_by below ps) (repeat 0 m) jobs.

(** max_j (front_j + back_j), never below 0. *)
Fixpoint meet_by (front back : list Z) : Z :=
  match front, back with
  | a :: front', b :: back' => Z.max (add a b) (meet_by front' back')
  | _, _ => 0
  end.
End RowsBy.

Abbreviation advance := (advance_by Z.add).
Abbreviation retreat := (retreat_by Z.add).
Abbreviation finish := (finish_by Z.add).
Abbreviation tail_row := (tail_row_by Z.add).
Abbreviation meet := (meet_by Z.add).

(** A row that does not decrease from machine to machine, starting at
    or above [prev]. *)
Fixpoint rising (prev : Z) (l : list Z) : Prop :=
  match l with
  | [] => True
  | x :: l' => prev <= x /\ rising x l'
  end.

(** Entry of machine [j] (1-based); 0 outside the row. *)
Definition col (row : list Z) (j : Z) : Z :=
  if j <=? 0 then 0 else nth (Z.to_nat (j - 1)) row 0.

Definition sumZ (l : list Z) : Z := fold_right Z.add 0 l.

(** The processing times of job [id] on machines 1..m. *)
Definition job_times (processing_times : list (list Z)) (m : Z) (id : Z) : list Z :=
  firstn (Z.to_nat m) (nth (Z.to_nat (id - 1)) processing_times []).

(** Sum of the processing times of the jobs [ids] on machines 1..m. *)
Definition total_time (processing_times : list (list Z)) (m : Z) (ids : list Z) : Z :=
  sumZ (map (fun id => sumZ (job_times processing_times m id)) ids).

(** The rows of the three tables of [taillard_acceleration] for a
    sequence: [head_row i] is row [i] of [e], [back_row i] row [i] of [q],
    [insert_row k i] row [i] of [f] for the inserted job [k]. *)
Definition job_rows (processing_times : list (list Z)) (m : Z) (ids : list Z)
  : list (list Z) := map (job_times processing_times m) ids.

Section TablesBy.
Variable add : Z -> Z -> Z.
Variable processing_times : list (list Z).
Variable m : Z.
Variable sequence : list Z.

Definition head_row_by (i : Z) : list Z :=
  finish_by add (repeat 0 (Z.to_nat m))
            (job_rows processing_times m (firstn (Z.to_nat i) sequence)).

Definition back_row_by (i : Z) : list Z :=
  tail_row_by add (Z.to_nat m)
              (job_rows processing_times m (skipn (Z.to_nat (i - 1)) sequence)).

Definition insert_row_by (k i : Z) : list Z :=
  advance_by add 0 (head_row_by (i - 1)) (job_times processing_times m k).

(** Entry [i] of [ms]. *)
Definition makespan_by (k i : Z) : Z :=
  meet_by add (insert_row_by k i) (back_row_by i).
End TablesBy.

Abbreviation head_row := (head_row_by Z.add).
Abbreviation back_row := (back_row_by Z.add).
Abbreviation insert_row := (insert_row_by Z.add).

(** ** The invariant of the loops of [calculate_completion_times]

    The table keeps its shape; [rows_below i] holds when row [i] is about to
    be filled, [row_upto i j] when its column [j] is. *)
Section CompletionInvariant.
Variable processing_times : list (list Z).
Variable m : Z.
Variable sequence : list Z.

Definition shaped (a : ndarray) : Prop :=
  nrows a = len sequence + 1 /\ ncols a = m + 1.

Definition rows_below (i : Z) (a : ndarray) : Prop :=
  shaped a /\
  forall i' j', 0 <= i' < i -> 0 <= j' <= m ->
    data a i' j' = col (head_row processing_times m sequence i') j'.

Definition row_upto (i j : Z) (a : ndarray) : Prop :=
  rows_below i a /\
  forall j', 0 <= j' < j ->
    data a i j' = col (head_row processing_times m sequence i) j'.
End CompletionInvariant.

(** ** The invariant of the main loop of [taillard_acceleration]

    [main_inv i j] holds when the loop is about to run column [j] of row
    [i] ([j = 0]: before the row's first statements).  The [_done]
    predicates name the entries that hold their final value by then; every
    other entry still holds what the stack held. *)
Section MainLoopInvariant.
Variable processing_times : list (list Z).
Variable sequence : list Z.
Variables inserting_job m : Z.

Definition e_done (i j i' j' : Z) : Prop :=
  ((1 <= i' < i \/ (i' = i /\ j' < j)) /\ i' <= len sequence /\ 0 <= j' <= m) \/
  (i' = 0 /\ 1 <= j' <= m /\ (1 < i \/ j' < j)).

Definition q_done (i j r c : Z) : Prop :=
  (1 <= r <= len sequence /\ 1 <= c <= m + 1 /\
   (len sequence + 1 - i < r \/ (r = len sequence + 1 - i /\ m + 1 - j < c))) \/
  (r = len sequence + 1 /\ 1 <= c <= m /\ (1 < i \/ m + 1 - j < c)).

Definition f_done (i j i' j' : Z) : Prop :=
  (1 <= i' < i \/ (i' = i /\ j' < j)) /\ 0 <= j' <= m.

Definition main_inv (i j : Z) (s : Frame.t) : Prop :=
  (forall i' j', e_done i j i' j' ->
     Frame.e s i' j' = col (head_row_by add32 processing_times m sequence i') j') /\
  (forall r c, q_done i j r c ->
     Frame.q s r c = col (back_row_by add32 processing_times m sequence r) c) /\
  (forall i' j', f_done i j i' j' ->
     Frame.f s i' j'
     = col (insert_row_by add32 processing_times m sequence inserting_job i') j') /\
  Frame.iq s = len sequence + 1 - Z.min (if j =? 0 then i - 1 else i) (len sequence) /\
  (1 <= j -> Frame.jq s = if i <=? len sequence then m + 2 - j else m + 1).
End MainLoopInvariant.

(** ** The selection of lines 83-94 as a function

    [select ms count] is [(best_makespan, best_position)] after positions
    1..count of the vector [ms] have been looked at. *)
Definition better (cur best : Z) : bool := (cur <? best) || (best =? 0).

Fixpoint select (ms : Z -> Z) (count : nat) : Z * Z :=
  match count with
  | O => (0, 0)
  | S count' =>
      let i := Z.of_nat count in
      if better (ms i) (fst (select ms count')) then (ms i, i) else select ms count'
  end.

(** The tables [f] and [q] hold the rows of [insert_row] and [back_row]. *)
Definition tables_filled (processing_times : list (list Z)) (sequence : list Z)
    (inserting_job m : Z) (s : Frame.t) : Prop :=
  (forall i j, 1 <= i <= len sequence + 1 -> 1 <= j <= m ->
     Frame.f s i j
     = col (insert_row_by add32 processing_times m sequence inserting_job i) j) /\
  (forall i j, 1 <= i <= len sequence + 1 -> 1 <= j <= m ->
     Frame.q s i j = col (back_row_by add32 processing_times m sequence i) j).

(** ** Well-formed inputs *)

Definition rectangular (processing_times : list (list Z)) (cols : Z) : Prop :=
  Forall (fun row => len row = cols) processing_times.

Definition non_negative (processing_times : list (list Z)) : Prop :=
  Forall (Forall (fun x => 0 <= x)) processing_times.

Definition valid_job (processing_times : list (list Z)) (id : Z) : Prop :=
  1 <= id <= len processing_times.

(** The sequence with [job] put before its element number [position]
    (1-based; [position = n+1] appends). *)
Definition insert_at (sequence : list Z) (position : Z) (job : Z) : list Z :=
  firstn (Z.to_nat (position - 1)) sequence ++ job :: skipn (Z.to_nat (position - 1)) sequence.

(** A matrix with [cols] columns, [m] of them in use, that has a row
    for every job of [ids]. *)
Definition valid_input (processing_times : list (list Z)) (cols m : Z)
    (ids : list Z) : Prop :=
  rectangular processing_times cols /\ 0 <= m <= cols /\
  Forall (valid_job processing_times) ids.

(** Entries of rows 0..n and columns 0..m do not decrease along either axis. *)
Definition monotone_table (e : ndarray) (n m : Z) : Prop :=
  (forall i j, 1 <= i <= n -> 0 <= j <= m -> data e (i - 1) j <= data e i j) /\
  (forall i j, 0 <= i <= n -> 1 <= j <= m -> data e i (j - 1) <= data e i j).

(** A failure reported to the caller: a Python exception. *)
Definition fails_fast {A} (o : outcome A) : Prop := exists x, o = Raises x.

(** Two jobs whose single processing times add up to more than an [int]. *)
Definition p_huge : list (list Z) := [[2147483647]; [2147483647]].

(** Every job id is an index (plus one) of a vector of length [n]. *)
Definition ids_within (n : Z) (ids : list Z) : Prop :=
  Forall (fun id => 1 <= id <= n) ids.

(** A job that waits 2^30 time units on each of its last two machines. *)
Definition p_slack : list (list Z) := [[0; 0; 0]; [1073741824; 0; 0]].

(** Inputs of the examples for [taillard_acceleration]: two jobs that take
    no time; a job that fills an [int] next to a job of one time unit; one
    job whose two operations add up to 2^31; two jobs on 60 machines. *)
Definition p_zero : list (list Z) := [[0]; [0]].
Definition p_full : list (list Z) := [[2147483647]; [1]].
Definition p_long : list (list Z) := [[2147483647; 1]].
Definition p_wide : list (list Z) := [repeat 0 60; repeat 0 60].

(** No access left the static arrays: the run completed, or it stopped at
    a read outside the processing-time matrix. *)
Definition within_arrays {A} (o : outcome A) : Prop :=
  match o with
  | OutOfBounds b _ _ => b = Bprocessing_times
  | _ => True
  end.

(** ** Quantities of a schedule *)

(** The processing time of job [id] on machine [j] (both 1-based):
    [processing_times[id - 1, j - 1]]. *)
Definition time_of (processing_times : list (list Z)) (id j : Z) : Z :=
  nth (Z.to_nat (j - 1)) (nth (Z.to_nat (id - 1)) processing_times []) 0.

(** The work the jobs [ids] bring to machine [j]. *)
Definition machine_load (processing_times : list (list Z)) (ids : list Z) (j : Z)
  : Z := sumZ (map (fun id => time_of processing_times id j) ids).

(** The machines 1..m. *)
Definition machines (m : Z) : list Z := map Z.of_nat (seq 1 (Z.to_nat m)).

(** The sum of lines 235-236 for index [i] of the sequence, over the
    integers: on each machine, the completion time of that job less its
    processing time less the completion time of the job before it. *)
Definition waiting (e : table) (processing_times : list (list Z))
    (sequence : list Z) (m i : Z) : Z :=
  sumZ (map (fun j => e (i + 1) j
                      - time_of processing_times (nth (Z.to_nat i) sequence 0) j
                      - e i j)
            (machines m)).

(** Lines 235-236 for index [i] of the sequence, as the code adds them
    up: starting from 0, one 32-bit addition for each machine 1..m. *)
Definition idle_time_of (e : table) (processing_times : list (list Z))
    (sequence : list Z) (m i : Z) : Z :=
  fold_left
    (fun acc j =>
       add32 acc
         (sub32 (sub32 (e (i + 1) j)
                       (time_of processing_times (nth (Z.to_nat i) sequence 0) j))
                (e i j)))
    (machines m) 0.

(** How an outcome is read.  The functions are compiled without bounds
    checks, so a run does not end at an access outside a buffer; the model
    follows a run as far as its accesses are inside their buffers.  [Ok]:
    every access of the run was.  [OutOfBounds b r c]: the first access
    that was not is the one to [b] at row [r] and column [c]; what the
    run does from there on is not described. *)
Definition in_bounds {A} (o : outcome A) : Prop := exists a, o = Ok a.
Definition first_stray_access {A} (o : outcome A) (b : buffer) (r c : Z) : Prop :=
  o = OutOfBounds b r c.

(** A command that returns and relates the state it leaves to the state
    it found by [R]. *)
Definition runs_keeping {St A} (R : St -> St -> Prop) (c : M St A) : Prop :=
  forall s, exists a s', c s = Ok (a, s') /\ R s s'.

(** [tie_breaking] leaves the position alone. *)
Definition same_position (s s' : Tie.t) : Prop :=
  Tie.best_position s' = Tie.best_position s.

(** * Properties *)

Arguments within : simpl never.
Arguments wrap : simpl never.
Arguments add32 : simpl never.
Arguments sub32 : simpl never.

(** Closes the side conditions on concrete inputs. *)
Ltac solve_valid :=
  unfold valid_input, rectangular, valid_job, non_negative, len;
  repeat (first [apply Forall_nil | apply Forall_cons | split]);
  simpl; lia.

(** ** Arithmetic and buffer lemmas *)

Lemma wrap_small z : -2147483648 <= z <= INT_MAX -> wrap z = z.
Proof.
  unfold wrap, INT_MAX. intros H.
  rewrite Z.mod_small by lia. lia.
Qed.

Lemma add32_small a b : -2147483648 <= a + b <= INT_MAX -> add32 a b = a + b.
Proof. apply wrap_small. Qed.

Lemma sub32_small a b : -2147483648 <= a - b <= INT_MAX -> sub32 a b = a - b.
Proof. apply wrap_small. Qed.

Lemma within_true lo hi x : lo <= x < hi -> within lo hi x = true.
Proof. unfold within. intros H. apply andb_true_iff. split; [apply Z.leb_le | apply Z.ltb_lt]; lia. Qed.

Lemma within_false lo hi x : x < lo \/ hi <= x -> within lo hi x = false.
Proof.
  unfold within. intros H. apply andb_false_iff.
  destruct H; [left; apply Z.leb_gt | right; apply Z.ltb_ge]; lia.
Qed.

Lemma upd2_same t i j v : upd2 t i j v i j = v.
Proof. unfold upd2. now rewrite !Z.eqb_refl. Qed.

Lemma upd2_other t i j v i' j' : i' <> i \/ j' <> j -> upd2 t i j v i' j' = t i' j'.
Proof.
  unfold upd2. intros H.
  destruct (Z.eqb_spec i' i), (Z.eqb_spec j' j); simpl; trivial; lia.
Qed.

Lemma upd1_same t i v : upd1 t i v i = v.
Proof. unfold upd1. now rewrite Z.eqb_refl. Qed.

Lemma upd1_other t i v i' : i' <> i -> upd1 t i v i' = t i'.
Proof. unfold upd1. intros H. destruct (Z.eqb_spec i' i); trivial; lia. Qed.

(** ** Loops *)

Lemma for_loop_inv {St} (I : Z -> St -> Prop) (body : Z -> M St unit) :
  forall count i s,
    I i s ->
    (forall x s0, i <= x < i + Z.of_nat count -> I x s0 ->
                  exists s1, body x s0 = Ok (tt, s1) /\ I (x + 1) s1) ->
    exists s', for_loop count i body s = Ok (tt, s') /\ I (i + Z.of_nat count) s'.
Proof.
  induction count as [|count IH]; intros i s Hi Hbody.
  - exists s. split; [reflexivity|]. now replace (i + Z.of_nat 0) with i by lia.
  - destruct (Hbody i s) as [s1 [E1 I1]]; [lia | assumption |].
    destruct (IH (i + 1) s1 I1) as [s' [E' I']].
    + intros x s0 Hx. apply Hbody. lia.
    + exists s'. split.
      * simpl. unfold bind. now rewrite E1.
      * now replace (i + Z.of_nat (S count)) with (i + 1 + Z.of_nat count) by lia.
Qed.

Lemma for_range_inv {St} (I : Z -> St -> Prop) (body : Z -> M St unit) lo hi s :
  lo <= hi ->
  I lo s ->
  (forall x s0, lo <= x < hi -> I x s0 ->
                exists s1, body x s0 = Ok (tt, s1) /\ I (x + 1) s1) ->
  exists s', for_range lo hi body s = Ok (tt, s') /\ I hi s'.
Proof.
  intros Hle Hi Hbody. unfold for_range.
  destruct (for_loop_inv I body (Z.to_nat (hi - lo)) lo s Hi) as [s' [E' I']].
  - intros x s0 Hx. apply Hbody. lia.
  - exists s'. split; [assumption|].
    now replace (lo + Z.of_nat (Z.to_nat (hi - lo))) with hi in I' by lia.
Qed.

Lemma for_range_empty {St} (body : Z -> M St unit) lo hi s :
  hi <= lo -> for_range lo hi body s = Ok (tt, s).
Proof.
  intros H. unfold for_range. replace (Z.to_nat (hi - lo)) with O by lia. reflexivity.
Qed.

Lemma bind_ok {St A B} (c : M St A) (k : A -> M St B) s a s' :
  c s = Ok (a, s') -> bind c k s = k a s'.
Proof. unfold bind. now intros ->. Qed.

Lemma bind_lift {St A B} (o : outcome A) (k : A -> M St B) s a :
  o = Ok a -> bind (lift o) k s = k a s.
Proof. unfold bind, lift. now intros ->. Qed.


(** ** Rows *)

Lemma advance_length add above : forall ps prev,
  length above = length ps -> length (advance_by add prev above ps) = length ps.
Proof.
  induction above as [|a above IH]; intros [|p ps] prev H; simpl in *; try lia.
  now rewrite IH by lia.
Qed.

Lemma retreat_length add below : forall ps,
  length below = length ps -> length (retreat_by add below ps) = length ps.
Proof.
  induction below as [|b below IH]; intros [|p ps] H; simpl in *; try lia.
  now rewrite IH by lia.
Qed.

Lemma advance_nth add above : forall ps prev j,
  (j < length above)%nat -> (j < length ps)%nat ->
  nth j (advance_by add prev above ps) 0
  = add (Z.max (match j with
                | O => prev
                | S j' => nth j' (advance_by add prev above ps) 0
                end) (nth j above 0)) (nth j ps 0).
Proof.
  induction above as [|a above IH]; intros [|p ps] prev j Ha Hp; simpl in *; try lia.
  destruct j as [|j]; [reflexivity|].
  rewrite IH by lia. destruct j; reflexivity.
Qed.

Lemma retreat_nth add below : forall ps j,
  (j < length below)%nat -> (j < length ps)%nat ->
  nth j (retreat_by add below ps) 0
  = add (Z.max (nth (S j) (retreat_by add below ps) 0) (nth j below 0)) (nth j ps 0).
Proof.
  induction below as [|b below IH]; intros [|p ps] j Hb Hp; simpl in *; try lia.
  destruct j as [|j].
  - destruct (retreat_by add below ps); reflexivity.
  - now rewrite IH by lia.
Qed.

Lemma col_low row j : j <= 0 -> col row j = 0.
Proof. unfold col. intros H. destruct (Z.leb_spec j 0); [reflexivity | lia]. Qed.

Lemma col_high row j : len row < j -> col row j = 0.
Proof.
  unfold col, len. intros H. destruct (Z.leb_spec j 0); [reflexivity|].
  apply nth_overflow. lia.
Qed.

Lemma col_nth row j : 1 <= j -> col row j = nth (Z.to_nat (j - 1)) row 0.
Proof. unfold col. intros H. destruct (Z.leb_spec j 0); [lia | reflexivity]. Qed.

Lemma col_advance add above ps j :
  len above = len ps -> 1 <= j <= len ps ->
  col (advance_by add 0 above ps) j
  = add (Z.max (col (advance_by add 0 above ps) (j - 1)) (col above j)) (col ps j).
Proof.
  unfold len. intros Hl Hj.
  rewrite !(col_nth _ j) by lia.
  rewrite advance_nth by lia.
  destruct (Z.eq_dec j 1) as [->|Hn].
  - simpl. now rewrite col_low by lia.
  - rewrite (col_nth _ (j - 1)) by lia.
    replace (Z.to_nat (j - 1)) with (S (Z.to_nat (j - 1 - 1))) by lia.
    reflexivity.
Qed.

Lemma col_retreat add below ps j :
  len below = len ps -> 1 <= j <= len ps ->
  col (retreat_by add below ps) j
  = add (Z.max (col (retreat_by add below ps) (j + 1)) (col below j)) (col ps j).
Proof.
  unfold len. intros Hl Hj.
  rewrite !(col_nth _ j), (col_nth _ (j + 1)) by lia.
  rewrite retreat_nth by lia.
  replace (Z.to_nat (j + 1 - 1)) with (S (Z.to_nat (j - 1))) by lia.
  reflexivity.
Qed.

Lemma col_Forall (P : Z -> Prop) row j : P 0 -> Forall P row -> P (col row j).
Proof.
  intros H0 H. unfold col. destruct (j <=? 0); [assumption|].
  destruct (Nat.lt_ge_cases (Z.to_nat (j - 1)) (length row)) as [Hlt|Hge].
  - rewrite Forall_forall in H. apply H. now apply nth_In.
  - now rewrite nth_overflow.
Qed.

Lemma sumZ_nonneg l : Forall (fun x => 0 <= x) l -> 0 <= sumZ l.
Proof. induction 1; simpl; lia. Qed.

Lemma advance_bounds above : forall ps prev B,
  Forall (fun x => 0 <= x) ps -> 0 <= prev <= B ->
  Forall (fun x => x <= B) above ->
  Forall (fun x => 0 <= x <= B + sumZ ps) (advance prev above ps).
Proof.
  induction above as [|a above IH]; intros [|p ps] prev B Hp Hprev Ha;
    simpl; try constructor.
  - inversion Hp; inversion Ha; subst.
    pose proof (sumZ_nonneg ps ltac:(assumption)). lia.
  - inversion Hp; inversion Ha; subst.
    pose proof (sumZ_nonneg ps ltac:(assumption)).
    eapply Forall_impl; [| apply (IH ps (Z.max prev a + p) (B + p))]; trivial.
    + simpl. intros x Hx. lia.
    + lia.
    + eapply Forall_impl; [|eassumption]. simpl. intros; lia.
Qed.

Lemma retreat_bounds below : forall ps B,
  Forall (fun x => 0 <= x) ps -> 0 <= B ->
  Forall (fun x => 0 <= x <= B) below ->
  Forall (fun x => 0 <= x <= B + sumZ ps) (retreat below ps).
Proof.
  induction below as [|b below IH]; intros [|p ps] B Hp HB Hb;
    simpl; try constructor.
  - inversion Hp; inversion Hb; subst.
    pose proof (IH ps B ltac:(assumption) HB ltac:(assumption)) as Hrest.
    pose proof (sumZ_nonneg ps ltac:(assumption)).
    destruct (retreat below ps) as [|r rest]; simpl; [lia|].
    inversion Hrest; subst. lia.
  - inversion Hp; inversion Hb; subst.
    eapply Forall_impl; [| apply (IH ps B)]; trivial.
    simpl. intros x Hx. lia.
Qed.

(** ** Inputs *)

Lemma firstn_snoc {A} (d : A) (l : list A) : forall k,
  (k < length l)%nat -> firstn (S k) l = firstn k l ++ [nth k l d].
Proof.
  induction l as [|x l IH]; intros k H; simpl in *; [lia|].
  destruct k as [|k]; [reflexivity|].
  simpl. f_equal. apply IH. lia.
Qed.

Lemma seq_at_ok sequence i :
  0 <= i < len sequence -> seq_at sequence i = Ok (nth (Z.to_nat i) sequence 0).
Proof. intros H. unfold seq_at. now rewrite within_true. Qed.

Lemma Forall_nth_Z {A} (P : A -> Prop) (l : list A) (d : A) (i : Z) :
  Forall P l -> 0 <= i < len l -> P (nth (Z.to_nat i) l d).
Proof.
  unfold len. intros H Hi. rewrite Forall_forall in H. apply H, nth_In. lia.
Qed.

Lemma Forall_take {A} (P : A -> Prop) (l : list A) :
  Forall P l -> forall k, Forall P (firstn k l).
Proof. induction 1; intros [|k]; simpl; constructor; auto. Qed.

Lemma Forall_drop {A} (P : A -> Prop) (l : list A) :
  Forall P l -> forall k, Forall P (skipn k l).
Proof. induction 1; intros [|k]; simpl; try constructor; auto. Qed.

Section Matrix.
Variable processing_times : list (list Z).
Variables m cols : Z.
Hypothesis Hrect : rectangular processing_times cols.
Hypothesis Hm : 0 <= m <= cols.

Lemma job_times_length id :
  valid_job processing_times id -> len (job_times processing_times m id) = m.
Proof.
  unfold valid_job. intros Hid. unfold job_times, len.
  pose proof (Forall_nth_Z _ _ [] (id - 1) Hrect ltac:(lia)) as Hrow.
  simpl in Hrow. unfold len in Hrow.
  rewrite length_firstn. lia.
Qed.

Lemma pt_at_job id j :
  valid_job processing_times id -> 1 <= j <= m ->
  pt_at processing_times (id - 1) (j - 1)
  = Ok (col (job_times processing_times m id) j).
Proof.
  unfold valid_job. intros Hid Hj. unfold pt_at.
  pose proof (Forall_nth_Z _ _ [] (id - 1) Hrect ltac:(lia)) as Hrow.
  simpl in Hrow.
  rewrite within_true by lia. cbv zeta. rewrite within_true by lia.
  f_equal. rewrite col_nth by lia. unfold job_times.
  rewrite nth_firstn.
  destruct (Nat.ltb_spec (Z.to_nat (j - 1)) (Z.to_nat m)); [reflexivity | lia].
Qed.

Lemma job_times_nonneg id :
  non_negative processing_times ->
  Forall (fun x => 0 <= x) (job_times processing_times m id).
Proof.
  intros Hnn. unfold job_times. apply Forall_take.
  destruct (Nat.lt_ge_cases (Z.to_nat (id - 1)) (length processing_times)).
  - unfold non_negative in Hnn. rewrite Forall_forall in Hnn.
    apply Hnn. now apply nth_In.
  - rewrite nth_overflow by assumption. constructor.
Qed.
End Matrix.

Lemma total_time_app p m l1 l2 :
  total_time p m (l1 ++ l2) = total_time p m l1 + total_time p m l2.
Proof.
  unfold total_time. induction l1 as [|x l1 IH]; simpl; [reflexivity|].
  rewrite IH. lia.
Qed.

Lemma total_time_nonneg p m l : non_negative p -> 0 <= total_time p m l.
Proof.
  intros Hnn. unfold total_time. induction l as [|x l IH]; simpl; [lia|].
  pose proof (sumZ_nonneg _ (job_times_nonneg p m x Hnn)). lia.
Qed.

Lemma total_time_split p m l k :
  total_time p m l = total_time p m (firstn k l) + total_time p m (skipn k l).
Proof. now rewrite <- total_time_app, firstn_skipn. Qed.

Lemma finish_bounds jobs : forall above B,
  0 <= B -> Forall (fun x => 0 <= x <= B) above ->
  Forall (Forall (fun x => 0 <= x)) jobs ->
  Forall (fun x => 0 <= x <= B + sumZ (map sumZ jobs)) (finish above jobs).
Proof.
  unfold finish.
  induction jobs as [|ps jobs IH]; intros above B HB Ha Hj; simpl.
  - eapply Forall_impl; [|eassumption]. simpl. intros; lia.
  - inversion Hj; subst.
    pose proof (sumZ_nonneg ps ltac:(assumption)).
    replace (B + (sumZ ps + sumZ (map sumZ jobs)))
      with ((B + sumZ ps) + sumZ (map sumZ jobs)) by lia.
    apply IH; [lia | | assumption].
    apply advance_bounds; [assumption | lia |].
    eapply Forall_impl; [|eassumption]. simpl. intros; lia.
Qed.

Lemma tail_row_bounds m jobs :
  Forall (Forall (fun x => 0 <= x)) jobs ->
  Forall (fun x => 0 <= x <= sumZ (map sumZ jobs)) (tail_row m jobs).
Proof.
  unfold tail_row. induction 1 as [|ps jobs Hps Hjobs IH]; simpl.
  - apply Forall_forall. intros x Hx. apply repeat_spec in Hx. lia.
  - assert (0 <= sumZ (map sumZ jobs)).
    { apply sumZ_nonneg. apply Forall_forall. intros x Hx.
      apply in_map_iff in Hx. destruct Hx as [r [<- Hr]].
      apply sumZ_nonneg. rewrite Forall_forall in Hjobs. now apply Hjobs. }
    eapply Forall_impl; [| apply (retreat_bounds _ ps _ Hps H IH)].
    simpl. intros; lia.
Qed.

Section Rows.
Variable add : Z -> Z -> Z.
Variable processing_times : list (list Z).
Variables m cols : Z.
Variable sequence : list Z.
Hypothesis Hrect : rectangular processing_times cols.
Hypothesis Hm : 0 <= m <= cols.
Hypothesis Hjobs : Forall (valid_job processing_times) sequence.
Hypothesis Hnn : non_negative processing_times.

Let n : Z := len sequence.

Lemma job_rows_nonneg ids :
  Forall (Forall (fun x => 0 <= x)) (job_rows processing_times m ids).
Proof.
  unfold job_rows. apply Forall_forall. intros r Hr.
  apply in_map_iff in Hr. destruct Hr as [id [<- _]].
  now apply job_times_nonneg.
Qed.

Lemma job_at_valid i :
  1 <= i <= n -> valid_job processing_times (nth (Z.to_nat (i - 1)) sequence 0).
Proof. intros Hi. apply Forall_nth_Z; [assumption | unfold n in Hi; lia]. Qed.

Lemma head_row_zero : head_row_by add processing_times m sequence 0 = repeat 0 (Z.to_nat m).
Proof. reflexivity. Qed.

Lemma head_row_step i :
  1 <= i <= n ->
  head_row_by add processing_times m sequence i
  = advance_by add 0 (head_row_by add processing_times m sequence (i - 1))
            (job_times processing_times m (nth (Z.to_nat (i - 1)) sequence 0)).
Proof.
  intros Hi. unfold head_row_by, finish_by, job_rows.
  replace (Z.to_nat i) with (S (Z.to_nat (i - 1))) by lia.
  rewrite (firstn_snoc 0) by (unfold n, len in Hi; lia).
  now rewrite map_app, fold_left_app.
Qed.

Lemma head_row_length i :
  0 <= i <= n -> len (head_row_by add processing_times m sequence i) = m.
Proof.
  intros Hi. rewrite <- (Z2Nat.id i) by lia.
  assert (Hk : (Z.to_nat i <= length sequence)%nat) by (unfold n, len in Hi; lia).
  induction (Z.to_nat i) as [|k IH].
  - simpl. rewrite head_row_zero. unfold len. rewrite repeat_length. lia.
  - rewrite head_row_step by (unfold n, len; lia).
    replace (Z.of_nat (S k) - 1) with (Z.of_nat k) by lia.
    assert (Hl : len (job_times processing_times m
                        (nth (Z.to_nat (Z.of_nat k)) sequence 0)) = m).
    { apply (job_times_length _ _ cols); trivial.
      apply Forall_nth_Z; [assumption | unfold len; lia]. }
    specialize (IH ltac:(lia)).
    unfold len in *. rewrite advance_length; lia.
Qed.

Lemma head_row_bounds i :
  Forall (fun x => 0 <= x <= total_time processing_times m sequence)
         (head_row processing_times m sequence i).
Proof.
  unfold head_row.
  pose proof (finish_bounds
                (job_rows processing_times m (firstn (Z.to_nat i) sequence))
                (repeat 0 (Z.to_nat m)) 0 ltac:(lia)) as H.
  eapply Forall_impl; [| apply H].
  - simpl. intros x Hx.
    rewrite (total_time_split _ _ sequence (Z.to_nat i)).
    pose proof (total_time_nonneg processing_times m (skipn (Z.to_nat i) sequence) Hnn).
    unfold total_time, job_rows in *. rewrite map_map in Hx. lia.
  - apply Forall_forall. intros x Hx. apply repeat_spec in Hx. lia.
  - apply job_rows_nonneg.
Qed.
End Rows.

Lemma skipn_nth_cons {A} (d : A) (l : list A) : forall k,
  (k < length l)%nat -> skipn k l = nth k l d :: skipn (S k) l.
Proof.
  induction l as [|x l IH]; intros k H; simpl in *; [lia|].
  destruct k as [|k]; [reflexivity|]. apply IH. lia.
Qed.

Lemma col_zeros k j : col (repeat 0 k) j = 0.
Proof.
  apply (col_Forall (fun x => x = 0)); [reflexivity|].
  apply Forall_forall. intros x Hx. now apply repeat_spec in Hx.
Qed.

(** The three tables of [taillard_acceleration], entry by entry. *)
Section TableRows.
Variable add : Z -> Z -> Z.
Variable processing_times : list (list Z).
Variables m cols : Z.
Variable sequence : list Z.
Hypothesis Hrect : rectangular processing_times cols.
Hypothesis Hm : 0 <= m <= cols.
Hypothesis Hjobs : Forall (valid_job processing_times) sequence.

Let n : Z := len sequence.
Let job (i : Z) : Z := nth (Z.to_nat (i - 1)) sequence 0.
Let E := head_row_by add processing_times m sequence.
Let Q := back_row_by add processing_times m sequence.
Let F := insert_row_by add processing_times m sequence.

Lemma job_times_len i :
  1 <= i <= n -> len (job_times processing_times m (job i)) = m.
Proof.
  intros Hi. apply (job_times_length _ _ cols); trivial.
  apply (job_at_valid processing_times sequence Hjobs). exact Hi.
Qed.

Lemma head_col_zero j : col (E 0) j = 0.
Proof. unfold E. rewrite head_row_zero. apply col_zeros. Qed.

Lemma head_col_step i j :
  1 <= i <= n -> 1 <= j <= m ->
  col (E i) j
  = add (Z.max (col (E i) (j - 1)) (col (E (i - 1)) j))
        (col (job_times processing_times m (job i)) j).
Proof.
  intros Hi Hj. unfold E.
  pose proof (job_times_len i Hi) as Hl.
  pose proof (head_row_length add processing_times m cols sequence Hrect Hm Hjobs
                (i - 1) ltac:(unfold n in Hi; lia)) as Hh.
  rewrite (head_row_step add processing_times m sequence i Hi) at 1.
  rewrite col_advance by (fold (job i); lia).
  now rewrite <- (head_row_step add processing_times m sequence i Hi).
Qed.

Lemma back_row_end : Q (n + 1) = repeat 0 (Z.to_nat m).
Proof.
  unfold Q, back_row_by, n, len.
  replace (Z.to_nat (Z.of_nat (length sequence) + 1 - 1)) with (length sequence) by lia.
  now rewrite skipn_all.
Qed.

Lemma back_row_step i :
  1 <= i <= n ->
  Q i = retreat_by add (Q (i + 1)) (job_times processing_times m (job i)).
Proof.
  intros Hi. unfold Q, back_row_by.
  rewrite (skipn_nth_cons 0) by (unfold n, len in Hi; lia).
  replace (Z.to_nat (i + 1 - 1)) with (S (Z.to_nat (i - 1))) by lia.
  reflexivity.
Qed.

Lemma back_row_length i : 1 <= i <= n + 1 -> len (Q i) = m.
Proof.
  intros Hi.
  replace i with (n + 1 - Z.of_nat (Z.to_nat (n + 1 - i))) by lia.
  assert (Hk : Z.of_nat (Z.to_nat (n + 1 - i)) <= n) by lia.
  induction (Z.to_nat (n + 1 - i)) as [|k IH].
  - replace (n + 1 - Z.of_nat 0) with (n + 1) by lia.
    rewrite back_row_end. unfold len. rewrite repeat_length. lia.
  - rewrite back_row_step by lia.
    replace (n + 1 - Z.of_nat (S k) + 1) with (n + 1 - Z.of_nat k) by lia.
    specialize (IH ltac:(lia)).
    pose proof (job_times_len (n + 1 - Z.of_nat (S k)) ltac:(lia)) as Hl.
    unfold len in *. rewrite retreat_length; lia.
Qed.

Lemma back_col_end j : col (Q (n + 1)) j = 0.
Proof. rewrite back_row_end. apply col_zeros. Qed.

Lemma back_col_last i : 1 <= i <= n + 1 -> col (Q i) (m + 1) = 0.
Proof. intros Hi. apply col_high. rewrite back_row_length by assumption. lia. Qed.

Lemma back_col_step i j :
  1 <= i <= n -> 1 <= j <= m ->
  col (Q i) j
  = add (Z.max (col (Q i) (j + 1)) (col (Q (i + 1)) j))
        (col (job_times processing_times m (job i)) j).
Proof.
  intros Hi Hj.
  pose proof (job_times_len i Hi) as Hl.
  pose proof (back_row_length (i + 1) ltac:(lia)) as Hb.
  rewrite (back_row_step i Hi) at 1.
  rewrite col_retreat by lia.
  now rewrite <- (back_row_step i Hi).
Qed.

Lemma insert_col_step k i j :
  valid_job processing_times k -> 1 <= i <= n + 1 -> 1 <= j <= m ->
  col (F k i) j
  = add (Z.max (col (F k i) (j - 1)) (col (E (i - 1)) j))
        (col (job_times processing_times m k) j).
Proof.
  intros Hk Hi Hj. unfold F, insert_row_by.
  pose proof (job_times_length processing_times m cols Hrect Hm k Hk) as Hl.
  pose proof (head_row_length add processing_times m cols sequence Hrect Hm Hjobs
                (i - 1) ltac:(unfold n in Hi; lia)) as Hh.
  now rewrite col_advance by lia.
Qed.

Lemma insert_row_length k i :
  valid_job processing_times k -> 1 <= i <= n + 1 -> len (F k i) = m.
Proof.
  intros Hk Hi. unfold F, insert_row_by.
  pose proof (job_times_length processing_times m cols Hrect Hm k Hk) as Hl.
  pose proof (head_row_length add processing_times m cols sequence Hrect Hm Hjobs
                (i - 1) ltac:(unfold n in Hi; lia)) as Hh.
  unfold len in *. rewrite advance_length; lia.
Qed.
End TableRows.

(** ** The completion-time table *)

Lemma run_getitem b i j a :
  0 <= i < nrows a -> 0 <= j < ncols a -> getitem b i j a = Ok (data a i j, a).
Proof. intros Hi Hj. unfold getitem. now rewrite !within_true. Qed.

Lemma run_setitem b i j v a :
  0 <= i < nrows a -> 0 <= j < ncols a ->
  setitem b i j v a = Ok (tt, mk_ndarray (nrows a) (ncols a) (upd2 (data a) i j v)).
Proof. intros Hi Hj. unfold setitem. now rewrite !within_true. Qed.

Section CompletionTable.
Variable processing_times : list (list Z).
Variables m cols : Z.
Variable sequence : list Z.
Hypothesis Hrect : rectangular processing_times cols.
Hypothesis Hm : 0 <= m <= cols.
Hypothesis Hjobs : Forall (valid_job processing_times) sequence.

Let n : Z := len sequence.
Let job (i : Z) : Z := nth (Z.to_nat (i - 1)) sequence 0.

Lemma completion_cell_run a i j :
  nrows a = n + 1 -> ncols a = m + 1 -> 1 <= i <= n -> 1 <= j <= m ->
  completion_cell sequence processing_times i j a
  = Ok (tt, let d := if i =? 1 then upd2 (data a) 0 j 0 else data a in
            mk_ndarray (n + 1) (m + 1)
              (upd2 d i j (add32 (Z.max (d (i - 1) j) (d i (j - 1)))
                                 (col (job_times processing_times m (job i)) j)))).
Proof.
  intros Hr Hc Hi Hj. destruct a as [r c d]. simpl in Hr, Hc. subst r c.
  unfold completion_cell.
  assert (Hs : seq_at sequence (i - 1) = Ok (job i))
    by (apply seq_at_ok; unfold n in Hi; lia).
  assert (Hp : pt_at processing_times (job i - 1) (j - 1)
               = Ok (col (job_times processing_times m (job i)) j)).
  { apply (pt_at_job _ _ cols); trivial.
    apply (job_at_valid processing_times sequence Hjobs). exact Hi. }
  destruct (Z.eqb_spec i 1) as [->|Hne]; unfold when.
  - erewrite bind_ok by (apply run_setitem; simpl; lia).
    erewrite bind_ok by (apply run_getitem; simpl; lia).
    erewrite bind_ok by (apply run_getitem; simpl; lia).
    erewrite bind_lift by exact Hs. erewrite bind_lift by exact Hp.
    rewrite Z.gtb_ltb.
    match goal with |- context [if ?x <? ?y then _ else _] =>
      destruct (Z.ltb_spec x y) as [H|H] end;
      simpl in H; rewrite run_setitem by (simpl; lia); simpl;
      [rewrite Z.max_l by lia | rewrite Z.max_r by lia]; reflexivity.
  - erewrite bind_ok by reflexivity.
    erewrite bind_ok by (apply run_getitem; simpl; lia).
    erewrite bind_ok by (apply run_getitem; simpl; lia).
    erewrite bind_lift by exact Hs. erewrite bind_lift by exact Hp.
    rewrite Z.gtb_ltb.
    match goal with |- context [if ?x <? ?y then _ else _] =>
      destruct (Z.ltb_spec x y) as [H|H] end;
      simpl in H; rewrite run_setitem by (simpl; lia); simpl;
      [rewrite Z.max_l by lia | rewrite Z.max_r by lia]; reflexivity.
Qed.

Lemma completion_row_shaped a i :
  shaped m sequence a -> 1 <= i <= n ->
  exists a', completion_row sequence processing_times m i a = Ok (tt, a') /\ shaped m sequence a'.
Proof.
  intros [Hr Hc] Hi. unfold completion_row.
  erewrite bind_ok by (apply run_setitem; lia).
  apply (for_range_inv (fun _ => shaped m sequence)); [lia | split; simpl; assumption |].
  intros j a0 Hj [Hr0 Hc0].
  rewrite completion_cell_run by (trivial; lia).
  eexists. split; [reflexivity|]. split; reflexivity.
Qed.

Lemma completion_loop_shaped a :
  shaped m sequence a ->
  exists a', for_range 1 (n + 1) (completion_row sequence processing_times m) a
             = Ok (tt, a') /\ shaped m sequence a'.
Proof.
  intros Ha.
  apply (for_range_inv (fun _ => shaped m sequence)); [unfold n, len; lia | assumption |].
  intros i a0 Hi Ha0. apply completion_row_shaped; [assumption | lia].
Qed.

(** With non-negative times whose sum fits an [int], the loops fill the
    table with the rows of [head_row]. *)
Hypothesis Hnn : non_negative processing_times.
Hypothesis Hfit : total_time processing_times m sequence <= INT_MAX.

Lemma E_range i j : 0 <= col (head_row processing_times m sequence i) j <= INT_MAX.
Proof.
  pose proof (total_time_nonneg processing_times m sequence Hnn) as H0.
  apply (col_Forall (fun x => 0 <= x <= INT_MAX)); [unfold INT_MAX; lia|].
  eapply Forall_impl; [| apply (head_row_bounds processing_times m sequence Hnn i)].
  simpl. intros; lia.
Qed.

Lemma E_zero j : col (head_row processing_times m sequence 0) j = 0.
Proof.
  apply (col_Forall (fun x => x = 0)); [reflexivity|].
  apply Forall_forall. intros x Hx. now apply repeat_spec in Hx.
Qed.

Lemma E_step i j :
  1 <= i <= n -> 1 <= j <= m ->
  col (head_row processing_times m sequence i) j
  = Z.max (col (head_row processing_times m sequence (i - 1)) j) (col (head_row processing_times m sequence i) (j - 1))
    + col (job_times processing_times m (job i)) j.
Proof.
  intros Hi Hj. 
  pose proof (job_times_length processing_times m cols Hrect Hm (job i)
                (job_at_valid processing_times sequence Hjobs i Hi)) as Hl.
  pose proof (head_row_length Z.add processing_times m cols sequence Hrect Hm Hjobs (i - 1)
                ltac:(unfold n in Hi; lia)) as Hh.
  rewrite (head_row_step Z.add processing_times m sequence i Hi) at 1.
  rewrite col_advance by (fold (job i); lia).
  rewrite <- (head_row_step Z.add processing_times m sequence i Hi).
  fold (job i). lia.
Qed.

Lemma completion_cell_refines a i j :
  1 <= i <= n -> 1 <= j <= m -> row_upto processing_times m sequence i j a ->
  exists a', completion_cell sequence processing_times i j a = Ok (tt, a')
             /\ row_upto processing_times m sequence i (j + 1) a'.
Proof.
  intros Hi Hj [[[Hr Hc] Hbelow] Hrow].
  rewrite completion_cell_run by trivial.
  eexists. split; [reflexivity|]. cbv zeta.
  assert (Hd : forall i' j', 0 <= i' <= i -> 0 <= j' <= m ->
               (i' = i -> j' < j) ->
               (if i =? 1 then upd2 (data a) 0 j 0 else data a) i' j'
               = col (head_row processing_times m sequence i') j').
  { intros i' j' Hi' Hj' Hlt.
    assert (Hold : data a i' j' = col (head_row processing_times m sequence i') j').
    { destruct (Z.eq_dec i' i) as [->|]; [apply Hrow | apply Hbelow]; lia. }
    destruct (Z.eqb_spec i 1); [|assumption].
    unfold upd2.
    destruct (Z.eqb_spec i' 0), (Z.eqb_spec j' j); simpl; trivial.
    subst. now rewrite E_zero. }
  repeat split; simpl; trivial.
  - intros i' j' Hi' Hj'. rewrite upd2_other by lia. apply Hd; lia.
  - intros j' Hj'.
    destruct (Z.eq_dec j' j) as [->|Hne].
    + rewrite upd2_same. rewrite !Hd by lia.
      pose proof (E_range i j) as Hrange.
      rewrite (E_step i j) in Hrange |- * by trivial.
      apply add32_small. lia.
    + rewrite upd2_other by lia. apply Hd; lia.
Qed.

Lemma completion_row_refines a i :
  1 <= i <= n -> rows_below processing_times m sequence i a ->
  exists a', completion_row sequence processing_times m i a = Ok (tt, a')
             /\ rows_below processing_times m sequence (i + 1) a'.
Proof.
  intros Hi [[Hr Hc] Hbelow]. unfold completion_row.
  erewrite bind_ok by (apply run_setitem; lia).
  destruct (for_range_inv (row_upto processing_times m sequence i)
              (completion_cell sequence processing_times i) 1 (m + 1)
              (mk_ndarray (nrows a) (ncols a) (upd2 (data a) i 0 0)))
    as [a' [Ha' [[Hs' Hb'] Hr']]].
  - lia.
  - repeat split; simpl; trivial.
    + intros i' j' Hi' Hj'. rewrite upd2_other by lia. now apply Hbelow.
    + intros j' Hj'. replace j' with 0 by lia.
      rewrite upd2_same. now rewrite col_low.
  - intros j a0 Hj Ha0. apply completion_cell_refines; trivial; lia.
  - exists a'. split; [assumption|]. split; [assumption|].
    intros i' j' Hi' Hj'.
    destruct (Z.eq_dec i' i) as [->|]; [apply Hr' | apply Hb']; lia.
Qed.

Lemma completion_loop_refines a :
  shaped m sequence a -> (forall i j, data a i j = 0) ->
  exists a', for_range 1 (n + 1) (completion_row sequence processing_times m) a
             = Ok (tt, a') /\ rows_below processing_times m sequence (n + 1) a'.
Proof.
  intros Ha Hz.
  apply (for_range_inv (rows_below processing_times m sequence)); [unfold n, len; lia | |].
  - split; [assumption|]. intros i' j' Hi' Hj'.
    replace i' with 0 by lia. now rewrite Hz, E_zero.
  - intros i a0 Hi Ha0. apply completion_row_refines; [lia | assumption].
Qed.
End CompletionTable.

(** ** calculate_completion_times as a whole *)

Lemma calculate_completion_times_run sequence processing_times m r a :
  0 <= m ->
  for_range 1 (len sequence + 1) (completion_row sequence processing_times m)
    (mk_ndarray (len sequence + 1) (m + 1) (fun _ _ => 0)) = Ok (tt, a) ->
  nrows a = len sequence + 1 -> ncols a = m + 1 ->
  calculate_completion_times sequence processing_times m r
  = Ok (if r >? 0 then Table a else Scalar (data a (len sequence) m)).
Proof.
  intros Hm Hloop Hr Hc. unfold calculate_completion_times, zeros2.
  assert (Hn : 0 <= len sequence) by (unfold len; lia).
  destruct (Z.ltb_spec (len sequence + 1) 0); [lia|].
  destruct (Z.ltb_spec (m + 1) 0); [lia|]. simpl.
  unfold eval. erewrite bind_ok by exact Hloop.
  unfold completion_return. destruct (r >? 0).
  - reflexivity.
  - erewrite bind_ok by (apply run_getitem; lia). reflexivity.
Qed.

Lemma completion_table_exists sequence processing_times cols m :
  valid_input processing_times cols m sequence ->
  exists e, nrows e = len sequence + 1 /\ ncols e = m + 1 /\
    forall r, calculate_completion_times sequence processing_times m r
              = Ok (if r >? 0 then Table e else Scalar (data e (len sequence) m)).
Proof.
  intros (Hrect & Hm & Hjobs).
  destruct (completion_loop_shaped processing_times m cols sequence Hrect Hm Hjobs
              (mk_ndarray (len sequence + 1) (m + 1) (fun _ _ => 0)))
    as [e [Hloop [Hr Hc]]]; [split; reflexivity|].
  exists e. repeat split; trivial.
  intros r. apply calculate_completion_times_run; trivial; lia.
Qed.

Lemma completion_table_rows sequence processing_times cols m :
  valid_input processing_times cols m sequence ->
  non_negative processing_times ->
  total_time processing_times m sequence <= INT_MAX ->
  exists e, nrows e = len sequence + 1 /\ ncols e = m + 1 /\
    (forall i j, 0 <= i <= len sequence -> 0 <= j <= m ->
                 data e i j = col (head_row processing_times m sequence i) j) /\
    forall r, calculate_completion_times sequence processing_times m r
              = Ok (if r >? 0 then Table e else Scalar (data e (len sequence) m)).
Proof.
  intros (Hrect & Hm & Hjobs) Hnn Hfit.
  destruct (completion_loop_refines processing_times m cols sequence Hrect Hm Hjobs
              Hnn Hfit (mk_ndarray (len sequence + 1) (m + 1) (fun _ _ => 0)))
    as [e [Hloop [[Hr Hc] Hrows]]]; [split; reflexivity | reflexivity |].
  exists e. repeat split; trivial.
  - intros i j Hi Hj. apply Hrows; lia.
  - intros r. apply calculate_completion_times_run; trivial; lia.
Qed.

(** * calculate_completion_times: scenario and claims *)

(** Scenario 1 of the specification: two machines, [p[job1] = [3,2]],
    [p[job2] = [2,4]]. *)
Example scenario1_scalar :
  calculate_completion_times [1; 2] p_two 2 0 = Ok (Scalar 9).
Proof. reflexivity. Qed.

Example scenario1_table :
  match calculate_completion_times [1; 2] p_two 2 1 with
  | Ok (Table e) =>
      nrows e = 3 /\ ncols e = 3 /\
      map (fun i => map (data e i) [0; 1; 2]) [0; 1; 2]
      = [[0; 0; 0]; [0; 3; 5]; [0; 5; 9]]
  | _ => False
  end.
Proof. vm_compute. repeat split. Qed.



Lemma head_row_monotone processing_times cols m sequence :
  valid_input processing_times cols m sequence ->
  non_negative processing_times ->
  (forall i j, 1 <= i <= len sequence -> 0 <= j <= m ->
     col (head_row processing_times m sequence (i - 1)) j
     <= col (head_row processing_times m sequence i) j) /\
  (forall i j, 0 <= i <= len sequence -> 1 <= j <= m ->
     col (head_row processing_times m sequence i) (j - 1)
     <= col (head_row processing_times m sequence i) j).
Proof.
  intros (Hrect & Hm & Hjobs) Hnn.
  assert (Hp : forall id j, 0 <= col (job_times processing_times m id) j).
  { intros id j. apply (col_Forall (fun x => 0 <= x)); [lia|].
    now apply job_times_nonneg. }
  split; intros i j Hi Hj.
  - destruct (Z.eq_dec j 0) as [->|Hj0]; [rewrite !col_low; lia|].
    rewrite (E_step processing_times m cols sequence Hrect Hm Hjobs i j) by lia.
    specialize (Hp (nth (Z.to_nat (i - 1)) sequence 0) j). lia.
  - destruct (Z.eq_dec i 0) as [->|Hi0].
    + rewrite head_row_zero.
      assert (Hz : forall k, col (repeat 0 (Z.to_nat m)) k = 0).
      { intros k. apply (col_Forall (fun x => x = 0)); [reflexivity|].
        apply Forall_forall. intros x Hx. now apply repeat_spec in Hx. }
      rewrite !Hz. lia.
    + rewrite (E_step processing_times m cols sequence Hrect Hm Hjobs i j) by lia.
      specialize (Hp (nth (Z.to_nat (i - 1)) sequence 0) j). lia.
Qed.

(** C8, as amended.  For non-negative processing times whose sum over the
    jobs of the sequence and machines 1..m is at most [INT_MAX], the table
    returned by [calculate_completion_times] satisfies
    [E[i][j] >= E[i-1][j]] for 1 <= i <= n and [E[i][j] >= E[i][j-1]] for
    1 <= j <= m. *)
Theorem completion_table_monotone sequence processing_times cols m :
  valid_input processing_times cols m sequence ->
  non_negative processing_times ->
  total_time processing_times m sequence <= INT_MAX ->
  exists e,
    calculate_completion_times sequence processing_times m 1 = Ok (Table e) /\
    monotone_table e (len sequence) m.
Proof.
  intros Hv Hnn Hfit.
  destruct (completion_table_rows sequence processing_times cols m Hv Hnn Hfit)
    as [e (_ & _ & Hrows & Hrun)].
  destruct (head_row_monotone processing_times cols m sequence Hv Hnn) as [Hi Hj].
  exists e. split; [apply (Hrun 1)|].
  split; intros i j Hi' Hj'; rewrite !Hrows by lia; auto.
Qed.

Lemma completion_table_monotone_witness :
  exists e,
    calculate_completion_times [1; 2] p_two 2 1 = Ok (Table e) /\
    monotone_table e 2 2.
Proof.
  apply (completion_table_monotone [1; 2] p_two 2 2);
    [solve_valid | solve_valid | vm_compute; discriminate].
Defined.

(** C8 as stated fails: with two jobs of processing time 2147483647 on one
    machine, the second row of the table wraps around to -2, below the
    first. *)
Lemma completion_table_not_monotone :
  exists e,
    calculate_completion_times [1; 2] p_huge 1 1 = Ok (Table e) /\
    non_negative p_huge /\ valid_input p_huge 1 1 [1; 2] /\
    data e 2 1 = -2 /\ data e 1 1 = 2147483647 /\
    ~ monotone_table e 2 1.
Proof.
  eexists. split; [vm_compute; reflexivity|].
  split; [solve_valid|]. split; [solve_valid|].
  split; [reflexivity|]. split; [reflexivity|].
  intros [H _]. specialize (H 2 1 ltac:(lia) ltac:(lia)).
  vm_compute in H. now apply H.
Qed.

(** C6, as amended.  With an empty sequence or zero machines the function
    reports no failure: it returns the scalar 0 when [return_array <= 0] and
    otherwise a table of [n+1] rows and [m+1] columns that holds 0
    everywhere. *)
Theorem completion_times_of_nothing sequence processing_times m r :
  0 <= m -> sequence = [] \/ m = 0 ->
  exists e,
    nrows e = len sequence + 1 /\ ncols e = m + 1 /\
    (forall i j, data e i j = 0) /\
    calculate_completion_times sequence processing_times m r
    = Ok (if r >? 0 then Table e else Scalar 0).
Proof.
  intros Hm Hcase.
  assert (Hloop : exists e,
    for_range 1 (len sequence + 1) (completion_row sequence processing_times m)
      (mk_ndarray (len sequence + 1) (m + 1) (fun _ _ => 0)) = Ok (tt, e) /\
    (nrows e = len sequence + 1 /\ ncols e = m + 1) /\ forall i j, data e i j = 0).
  { destruct Hcase as [-> | ->].
    - eexists. split; [apply for_range_empty; simpl; lia|]. simpl. auto.
    - apply (for_range_inv (fun _ e =>
               (nrows e = len sequence + 1 /\ ncols e = 0 + 1) /\
               forall i j, data e i j = 0)).
      + unfold len. lia.
      + simpl. auto.
      + intros i e0 Hi [[Hr Hc] Hz]. unfold completion_row.
        erewrite bind_ok by (apply run_setitem; lia).
        rewrite for_range_empty by lia.
        eexists. split; [reflexivity|]. simpl. repeat split; trivial.
        intros i' j'. unfold upd2. rewrite Hz. now destruct (_ && _). }
  destruct Hloop as [e [Hrun [[Hr Hc] Hz]]].
  exists e. repeat split; trivial.
  rewrite (calculate_completion_times_run _ _ _ r e Hm Hrun Hr Hc).
  now rewrite Hz.
Qed.

Lemma completion_times_of_nothing_witness :
  exists e,
    nrows e = 1 /\ ncols e = 3 /\ (forall i j, data e i j = 0) /\
    calculate_completion_times [] p_two 2 0 = Ok (Scalar 0).
Proof.
  apply (completion_times_of_nothing [] p_two 2 0); [lia | left; reflexivity].
Defined.

(** C6 as stated fails: neither an empty sequence nor a machine count of
    zero makes the function raise; both calls return 0. *)
Lemma completion_times_of_nothing_returns :
  calculate_completion_times [] p_two 2 0 = Ok (Scalar 0) /\
  calculate_completion_times [1; 2] p_two 0 0 = Ok (Scalar 0) /\
  ~ fails_fast (calculate_completion_times [] p_two 2 0) /\
  ~ fails_fast (calculate_completion_times [1; 2] p_two 0 0).
Proof.
  repeat split; try reflexivity; intros [x H]; vm_compute in H; discriminate.
Qed.

(** * calculate_idle_times *)

Lemma for_loop_either {St} (I : Z -> St -> Prop) (Bad : buffer -> Z -> Z -> Prop)
    (body : Z -> M St unit) :
  forall count i s,
    I i s ->
    (forall x s0, i <= x < i + Z.of_nat count -> I x s0 ->
       (exists s1, body x s0 = Ok (tt, s1) /\ I (x + 1) s1) \/
       (exists b r c, body x s0 = OutOfBounds b r c /\ Bad b r c)) ->
    (exists s', for_loop count i body s = Ok (tt, s') /\ I (i + Z.of_nat count) s') \/
    (exists b r c, for_loop count i body s = OutOfBounds b r c /\ Bad b r c).
Proof.
  induction count as [|count IH]; intros i s Hi Hbody.
  - left. exists s. split; [reflexivity|]. now replace (i + Z.of_nat 0) with i by lia.
  - destruct (Hbody i s) as [[s1 [E1 I1]] | [b [r [c [E1 B1]]]]]; [lia | assumption | |].
    + destruct (IH (i + 1) s1 I1) as [[s' [E' I']] | [b [r [c [E' B']]]]].
      * intros x s0 Hx. apply Hbody. lia.
      * left. exists s'. split.
        -- simpl. unfold bind. now rewrite E1.
        -- now replace (i + Z.of_nat (S count)) with (i + 1 + Z.of_nat count) by lia.
      * right. exists b, r, c. split; [|assumption].
        simpl. unfold bind. now rewrite E1.
    + right. exists b, r, c. split; [|assumption].
      simpl. unfold bind. now rewrite E1.
Qed.

Lemma run_getitem1 b i a :
  0 <= i < size a -> getitem1 b i a = Ok (items a i, a).
Proof. intros Hi. unfold getitem1. now rewrite within_true. Qed.

Lemma run_setitem1 b i v a :
  0 <= i < size a ->
  setitem1 b i v a = Ok (tt, mk_ndvector (size a) (upd1 (items a) i v)).
Proof. intros Hi. unfold setitem1. now rewrite within_true. Qed.

Lemma peek_ok e i j :
  0 <= i < nrows e -> 0 <= j < ncols e -> peek e i j = Ok (data e i j).
Proof. intros Hi Hj. unfold peek, eval. now rewrite run_getitem. Qed.

Section IdleTimes.
Variable processing_times : list (list Z).
Variables m cols : Z.
Variable sequence : list Z.
Variable e : ndarray.
Hypothesis Hrect : rectangular processing_times cols.
Hypothesis Hm : 0 <= m <= cols.
Hypothesis Hjobs : Forall (valid_job processing_times) sequence.
Hypothesis Hrows : nrows e = len sequence + 1.
Hypothesis Hcols : ncols e = m + 1.

Let n : Z := len sequence.
Let job (i : Z) : Z := nth (Z.to_nat i) sequence 0.

(** The amount line 236 adds for position [i] (0-based) and machine [j]. *)
Let term (i j : Z) : Z :=
  sub32 (sub32 (data e (i + 1) j) (col (job_times processing_times m (job i)) j))
        (data e i j).

Lemma idle_cell_run v i j :
  size v = n -> 0 <= i < n -> 1 <= j <= m -> 1 <= job i <= n ->
  idle_cell sequence processing_times e i j v
  = Ok (tt, mk_ndvector n (upd1 (items v) (job i - 1)
                             (add32 (items v (job i - 1)) (term i j)))).
Proof.
  intros Hs Hi Hj Hid. unfold idle_cell.
  erewrite bind_lift by (apply seq_at_ok; unfold n in Hi; lia).
  fold (job i).
  erewrite bind_ok by (apply run_getitem1; lia).
  erewrite bind_lift by (apply peek_ok; unfold n in *; lia).
  erewrite bind_lift.
  2:{ apply (pt_at_job processing_times m cols); trivial. unfold job.
      apply Forall_nth_Z; [assumption | unfold n in Hi; lia]. }
  erewrite bind_lift by (apply peek_ok; unfold n in *; lia).
  rewrite run_setitem1 by lia. now rewrite Hs.
Qed.

Lemma idle_row_overflow v i :
  size v = n -> 0 <= i < n -> ~ 1 <= job i <= n ->
  idle_row sequence processing_times m e i v = OutOfBounds Bidle_time (job i - 1) 0.
Proof.
  intros Hs Hi Hid. unfold idle_row.
  erewrite bind_lift by (apply seq_at_ok; unfold n in Hi; lia).
  fold (job i). unfold bind, setitem1.
  rewrite within_false; [reflexivity|].
  assert (valid_job processing_times (job i)).
  { unfold job. apply Forall_nth_Z; [assumption | unfold n in Hi; lia]. }
  unfold valid_job in *. lia.
Qed.

Lemma idle_row_run (I : Z -> ndvector -> Prop) v i :
  size v = n -> 0 <= i < n -> 1 <= job i <= n ->
  I 1 (mk_ndvector n (upd1 (items v) (job i - 1) 0)) ->
  (forall j w, 1 <= j <= m -> size w = n -> I j w ->
     I (j + 1) (mk_ndvector n (upd1 (items w) (job i - 1)
                                 (add32 (items w (job i - 1)) (term i j))))) ->
  exists w, idle_row sequence processing_times m e i v = Ok (tt, w)
            /\ size w = n /\ I (m + 1) w.
Proof.
  intros Hs Hi Hid H1 Hstep. unfold idle_row.
  erewrite bind_lift by (apply seq_at_ok; unfold n in Hi; lia).
  fold (job i).
  erewrite bind_ok by (apply run_setitem1; lia).
  destruct (for_range_inv (fun j w => size w = n /\ I j w)
              (idle_cell sequence processing_times e i) 1 (m + 1)
              (mk_ndvector (size v) (upd1 (items v) (job i - 1) 0)))
    as [w [Hw [Hsw HIw]]].
  - lia.
  - rewrite Hs. split; [reflexivity | assumption].
  - intros j w Hj [Hsw HIw]. rewrite idle_cell_run by (trivial; lia).
    eexists. split; [reflexivity|]. split; [reflexivity|].
    apply Hstep; trivial; lia.
  - exists w. auto.
Qed.
End IdleTimes.

Lemma total_time_zero p l : total_time p 0 l = 0.
Proof.
  unfold total_time. induction l as [|x l IH]; [reflexivity|].
  cbn [map sumZ fold_right]. fold (sumZ (map (fun id => sumZ (job_times p 0 id)) l)).
  rewrite IH. reflexivity.
Qed.

Lemma head_row_range processing_times m sequence i j :
  non_negative processing_times ->
  0 <= col (head_row processing_times m sequence i) j
    <= total_time processing_times m sequence.
Proof.
  intros Hnn.
  pose proof (total_time_nonneg processing_times m sequence Hnn).
  apply (col_Forall (fun x => 0 <= x <= total_time processing_times m sequence));
    [lia|].
  now apply head_row_bounds.
Qed.

Lemma calculate_idle_times_unfold sequence processing_times m e :
  calculate_completion_times sequence processing_times m 1 = Ok (Table e) ->
  calculate_idle_times sequence processing_times m
  = match for_range 0 (len sequence) (idle_row sequence processing_times m e)
            (mk_ndvector (len sequence) (fun _ => 0)) with
    | Ok (_, v) => Ok v
    | OutOfBounds b i j => OutOfBounds b i j
    | Raises x => Raises x
    end.
Proof.
  intros He. unfold calculate_idle_times, zeros1.
  destruct (Z.ltb_spec (len sequence) 0); [unfold len in *; lia|].
  rewrite He. unfold eval, bind, gets.
  destruct (for_range 0 (len sequence) _ _) as [[[] v]| |]; reflexivity.
Qed.

Lemma idle_times_bounds_cases sequence processing_times cols m :
  valid_input processing_times cols m sequence ->
  (exists v, calculate_idle_times sequence processing_times m = Ok v /\
             size v = len sequence /\ ids_within (len sequence) sequence) \/
  (exists id, In id sequence /\ len sequence < id /\
              calculate_idle_times sequence processing_times m
              = OutOfBounds Bidle_time (id - 1) 0).
Proof.
  intros Hv.
  destruct (completion_table_exists sequence processing_times cols m Hv)
    as [e (Hr & Hc & Hrun)].
  destruct Hv as (Hrect & Hm & Hjobs).
  rewrite (calculate_idle_times_unfold _ _ _ e (Hrun 1)).
  unfold for_range.
  destruct (for_loop_either
              (fun x v => size v = len sequence /\
                          ids_within (len sequence) (firstn (Z.to_nat x) sequence))
              (fun b r c => b = Bidle_time /\ c = 0 /\
                            exists id, In id sequence /\ len sequence < id /\ r = id - 1)
              (idle_row sequence processing_times m e)
              (Z.to_nat (len sequence - 0)) 0
              (mk_ndvector (len sequence) (fun _ => 0)))
    as [[v [Ev [Hs Hall]]] | [b [r [c [Ev (-> & -> & id & Hin & Hlt & ->)]]]]].
  - split; [reflexivity | constructor].
  - intros x v [Hx1 Hx2] [Hs Hall].
    assert (Hx : 0 <= x < len sequence) by lia.
    set (id := nth (Z.to_nat x) sequence 0).
    assert (Hid : valid_job processing_times id)
      by (apply Forall_nth_Z; trivial).
    destruct (Z_le_dec id (len sequence)) as [Hle|Hgt].
    + left.
      destruct (idle_row_run processing_times m cols sequence e Hrect Hm Hjobs Hr Hc
                  (fun _ _ => True) v x Hs Hx) as [w [Ew [Hsw _]]]; trivial.
      { fold id. unfold valid_job in Hid. lia. }
      exists w. split; [assumption|]. split; [assumption|].
      replace (Z.to_nat (x + 1)) with (S (Z.to_nat x)) by lia.
      rewrite (firstn_snoc 0) by (unfold len in Hx; lia).
      apply Forall_app. split; [assumption|].
      constructor; [|constructor]. fold id. unfold valid_job in Hid. lia.
    + right. exists Bidle_time, (id - 1), 0. split.
      * apply (idle_row_overflow processing_times m sequence e Hjobs v x Hs Hx).
        fold id. lia.
      * repeat split. exists id. repeat split; [|lia].
        apply nth_In. unfold len in Hx. lia.
  - left. rewrite Ev. exists v. repeat split; trivial.
    replace (Z.to_nat (0 + Z.of_nat (Z.to_nat (len sequence - 0))))
      with (length sequence) in Hall by (unfold len; lia).
    now rewrite firstn_all in Hall.
  - right. rewrite Ev. exists id. auto.
Qed.

Lemma idle_term_range processing_times cols m sequence x j :
  valid_input processing_times cols m sequence ->
  non_negative processing_times ->
  total_time processing_times m sequence <= INT_MAX ->
  0 <= x < len sequence -> 1 <= j <= m ->
  0 <= sub32 (sub32 (col (head_row processing_times m sequence (x + 1)) j)
                    (col (job_times processing_times m (nth (Z.to_nat x) sequence 0)) j))
             (col (head_row processing_times m sequence x) j)
    <= total_time processing_times m sequence.
Proof.
  intros (Hrect & Hm & Hjobs) Hnn Hfit Hx Hj.
  pose proof (E_step processing_times m cols sequence Hrect Hm Hjobs (x + 1) j
                ltac:(lia) Hj) as Hstep.
  cbv beta zeta in Hstep. replace (x + 1 - 1) with x in Hstep by lia.
  pose proof (head_row_range processing_times m sequence x j Hnn) as Hup.
  pose proof (head_row_range processing_times m sequence (x + 1) (j - 1) Hnn) as Hleft.
  pose proof (head_row_range processing_times m sequence (x + 1) j Hnn) as Hnew.
  assert (Hp : 0 <= col (job_times processing_times m (nth (Z.to_nat x) sequence 0)) j).
  { apply (col_Forall (fun x => 0 <= x)); [lia|]. now apply job_times_nonneg. }
  unfold INT_MAX in *.
  rewrite (sub32_small (col (head_row processing_times m sequence (x + 1)) j))
    by (unfold INT_MAX; lia).
  rewrite sub32_small by (unfold INT_MAX; lia).
  lia.
Qed.

(** C9, as amended.  For a sequence whose job ids all lie in [1, n], a
    non-negative matrix, and [m] times the sum of the processing times of
    the sequence's jobs at most [INT_MAX], [calculate_idle_times] returns a
    vector of length [n] all of whose entries are >= 0. *)
Theorem idle_times_non_negative sequence processing_times cols m :
  valid_input processing_times cols m sequence ->
  non_negative processing_times ->
  ids_within (len sequence) sequence ->
  m * total_time processing_times m sequence <= INT_MAX ->
  exists v, calculate_idle_times sequence processing_times m = Ok v /\
            size v = len sequence /\ forall k, 0 <= items v k.
Proof.
  intros Hv Hnn Hids HmT.
  set (T := total_time processing_times m sequence) in *.
  assert (HT0 : 0 <= T) by now apply total_time_nonneg.
  assert (HT : T <= INT_MAX).
  { destruct Hv as (_ & Hm & _). destruct (Z.eq_dec m 0) as [->|].
    - unfold T. rewrite total_time_zero. unfold INT_MAX. lia.
    - nia. }
  destruct (completion_table_rows sequence processing_times cols m Hv Hnn HT)
    as [e (Hr & Hc & Hrows & Hrun)].
  rewrite (calculate_idle_times_unfold _ _ _ e (Hrun 1)).
  pose proof Hv as (Hrect & Hm & Hjobs).
  destruct (for_range_inv
              (fun _ v => size v = len sequence /\ forall k, 0 <= items v k <= m * T)
              (idle_row sequence processing_times m e) 0 (len sequence)
              (mk_ndvector (len sequence) (fun _ => 0)))
    as [v [Ev [Hs Hall]]].
  - unfold len. lia.
  - split; [reflexivity|]. simpl. intros _. nia.
  - intros x v Hx [Hs Hall].
    set (id := nth (Z.to_nat x) sequence 0).
    assert (Hid : 1 <= id <= len sequence)
      by (apply (Forall_nth_Z _ _ 0 x Hids); lia).
    destruct (idle_row_run processing_times m cols sequence e Hrect Hm Hjobs Hr Hc
                (fun j w => (forall k, k <> id - 1 -> 0 <= items w k <= m * T) /\
                            0 <= items w (id - 1) <= (j - 1) * T)
                v x Hs Hx Hid) as [w [Ew [Hsw [Hw1 Hw2]]]].
    + simpl. split.
      * intros k Hk. rewrite upd1_other by assumption. apply Hall.
      * fold id. rewrite upd1_same. lia.
    + intros j w Hj Hsw [Hw1 Hw2]. simpl. fold id.
      rewrite !Hrows by lia.
      pose proof (idle_term_range processing_times cols m sequence x j
                    Hv Hnn HT Hx Hj) as Ht.
      fold id T in Ht. split.
      * intros k Hk. rewrite upd1_other by assumption. now apply Hw1.
      * rewrite upd1_same. rewrite add32_small by (unfold INT_MAX in *; nia). nia.
    + exists w. split; [assumption|]. split; [assumption|].
      intros k. destruct (Z.eq_dec k (id - 1)) as [->|Hk].
      * replace (m + 1 - 1) with m in Hw2 by lia. assumption.
      * now apply Hw1.
  - rewrite Ev. exists v. repeat split; trivial. intros k. apply Hall.
Qed.

Lemma idle_times_non_negative_witness :
  exists v, calculate_idle_times [1; 2] p_two 2 = Ok v /\
            size v = 2 /\ forall k, 0 <= items v k.
Proof.
  apply (idle_times_non_negative [1; 2] p_two 2 2);
    [solve_valid | solve_valid | unfold ids_within; solve_valid
    | vm_compute; discriminate].
Defined.

(** C9 as stated fails: job 2 waits 2^30 on machines 2 and 3, the sum of the
    two waits wraps around, and its idle time comes out as -2^31, although
    no completion time exceeds 2^30. *)
Lemma idle_times_negative_entry :
  exists v, calculate_idle_times [1; 2] p_slack 3 = Ok v /\
            non_negative p_slack /\ valid_input p_slack 3 3 [1; 2] /\
            NoDup [1; 2] /\ items v 1 = -2147483648 /\ items v 1 < 0.
Proof.
  eexists. split; [vm_compute; reflexivity|].
  split; [solve_valid|]. split; [solve_valid|].
  split; [repeat constructor; simpl; intuition lia|].
  split; reflexivity.
Qed.

Lemma col_job_times processing_times m id j :
  1 <= j <= m -> col (job_times processing_times m id) j = time_of processing_times id j.
Proof.
  intros Hj. unfold col, job_times, time_of.
  destruct (Z.leb_spec j 0); [lia|].
  rewrite nth_firstn.
  destruct (Nat.ltb_spec (Z.to_nat (j - 1)) (Z.to_nat m)); [reflexivity | lia].
Qed.

Lemma machines_snoc j : 1 <= j -> machines j = machines (j - 1) ++ [j].
Proof.
  intros Hj. unfold machines.
  replace (Z.to_nat j) with (S (Z.to_nat (j - 1))) by lia.
  rewrite seq_S, map_app. cbn [map]. do 3 f_equal. lia.
Qed.

(** What the loops of lines 233-236 leave in the vector, for job ids in
    [1, n]: the sum of line 236 at index [id - 1] for the id of every index
    of the sequence (for an id that occurs more than once, the sum of its
    last occurrence), and 0 elsewhere. *)
Lemma idle_times_stored sequence processing_times cols m :
  valid_input processing_times cols m sequence ->
  ids_within (len sequence) sequence ->
  exists v e,
    calculate_idle_times sequence processing_times m = Ok v /\
    calculate_completion_times sequence processing_times m 1 = Ok (Table e) /\
    size v = len sequence /\
    (forall i, 0 <= i < len sequence ->
       (forall i', i < i' < len sequence ->
          nth (Z.to_nat i') sequence 0 <> nth (Z.to_nat i) sequence 0) ->
       items v (nth (Z.to_nat i) sequence 0 - 1)
       = idle_time_of (data e) processing_times sequence m i) /\
    (forall k, (forall id, In id sequence -> id - 1 <> k) -> items v k = 0).
Proof.
  intros Hv Hids.
  destruct (completion_table_exists sequence processing_times cols m Hv)
    as [e (Hr & Hc & Hrun)].
  rewrite (calculate_idle_times_unfold _ _ _ e (Hrun 1)).
  pose proof Hv as (Hrect & Hm & Hjobs).
  set (job := fun i => nth (Z.to_nat i) sequence 0).
  set (step := fun x acc j =>
                 add32 acc (sub32 (sub32 (data e (x + 1) j)
                                         (time_of processing_times (job x) j))
                                  (data e x j))).
  destruct (for_range_inv
              (fun x v =>
                 size v = len sequence /\
                 (forall i, 0 <= i < x ->
                    (forall i', i < i' < x -> job i' <> job i) ->
                    items v (job i - 1)
                    = idle_time_of (data e) processing_times sequence m i) /\
                 (forall k, (forall i, 0 <= i < x -> job i - 1 <> k) ->
                    items v k = 0))
              (idle_row sequence processing_times m e) 0 (len sequence)
              (mk_ndvector (len sequence) (fun _ => 0)))
    as [v [Ev (Hs & Hval & Hzero)]].
  - unfold len. lia.
  - split; [reflexivity|]. split; [intros; lia | reflexivity].
  - intros x v Hx (Hs & Hval & Hzero).
    assert (Hid : 1 <= job x <= len sequence)
      by (apply (Forall_nth_Z _ _ 0 x Hids); lia).
    destruct (idle_row_run processing_times m cols sequence e Hrect Hm Hjobs Hr Hc
                (fun j w => (forall k, k <> job x - 1 -> items w k = items v k) /\
                            items w (job x - 1)
                            = fold_left (step x) (machines (j - 1)) 0)
                v x Hs Hx Hid) as [w [Ew [Hsw (Hw1 & Hw2)]]].
    + simpl. fold (job x). rewrite upd1_same. split; [|reflexivity].
      intros k Hk. now rewrite upd1_other by assumption.
    + intros j w Hj Hsw (Hw1 & Hw2). simpl. fold (job x). split.
      * intros k Hk. rewrite upd1_other by assumption. now apply Hw1.
      * rewrite upd1_same, Hw2.
        replace (j + 1 - 1) with j by lia.
        rewrite (machines_snoc j) by lia.
        rewrite fold_left_app. cbn [fold_left]. unfold step at 3.
        now rewrite col_job_times by lia.
    + exists w. split; [assumption|]. split; [assumption|]. split.
      * intros i Hi Hlast. destruct (Z.eq_dec i x) as [->|Hne].
        -- rewrite Hw2. replace (m + 1 - 1) with m by lia. reflexivity.
        -- rewrite Hw1.
           ++ apply Hval; [lia|]. intros i' Hi'. apply Hlast. lia.
           ++ specialize (Hlast x ltac:(lia)). lia.
      * intros k Hk. rewrite Hw1.
        -- apply Hzero. intros i Hi. apply Hk. lia.
        -- specialize (Hk x ltac:(lia)). lia.
  - rewrite Ev. exists v, e. split; [reflexivity|]. split; [apply (Hrun 1)|].
    split; [exact Hs|]. split.
    + intros i Hi Hlast. apply Hval; [exact Hi|]. intros i' Hi'. apply Hlast. lia.
    + intros k Hk. apply Hzero. intros i Hi. apply Hk.
      apply nth_In. unfold len in Hi. lia.
Qed.

(** C10.  The output vector has length [n], and what line 236 adds up for
    a job is stored at index [id - 1].  Every access of the call is inside
    its buffer exactly when every job id of the sequence lies in [1, n].
    In that case the call returns a vector of length [n] that holds, at
    index [id - 1] for the job [id] at each index [i] of the sequence, the
    sum over the machines of [e[i+1][j] - p[id-1][j-1] - e[i][j]] in 32-bit
    arithmetic, [e] being the table of [calculate_completion_times] (for
    an id that occurs more than once, the sum of its last occurrence), and
    0 at the indices of no job.  And when the sequence holds a job id
    greater than [n], the write for such a job goes to index [id - 1 >= n],
    outside the vector. *)
Theorem idle_time_writes_in_bounds_iff sequence processing_times cols m :
  valid_input processing_times cols m sequence ->
  ((exists v, calculate_idle_times sequence processing_times m = Ok v)
   <-> ids_within (len sequence) sequence) /\
  (ids_within (len sequence) sequence ->
   exists v e,
     calculate_idle_times sequence processing_times m = Ok v /\
     calculate_completion_times sequence processing_times m 1 = Ok (Table e) /\
     size v = len sequence /\
     (forall i, 0 <= i < len sequence ->
        (forall i', i < i' < len sequence ->
           nth (Z.to_nat i') sequence 0 <> nth (Z.to_nat i) sequence 0) ->
        items v (nth (Z.to_nat i) sequence 0 - 1)
        = idle_time_of (data e) processing_times sequence m i) /\
     (forall k, (forall id, In id sequence -> id - 1 <> k) -> items v k = 0)) /\
  ((exists id, In id sequence /\ len sequence < id) ->
   exists id, In id sequence /\ len sequence < id /\
              calculate_idle_times sequence processing_times m
              = OutOfBounds Bidle_time (id - 1) 0).
Proof.
  intros Hv. split; [|split].
  - destruct (idle_times_bounds_cases sequence processing_times cols m Hv)
      as [[v (Ev & Hs & Hids)] | [id (Hin & Hlt & Ev)]].
    + split; [intros _; assumption | intros _; exists v; auto].
    + split.
      * intros [v Ev']. rewrite Ev in Ev'. discriminate.
      * intros Hids. exfalso.
        unfold ids_within in Hids. rewrite Forall_forall in Hids.
        specialize (Hids id Hin). lia.
  - intros Hids. now apply (idle_times_stored sequence processing_times cols m).
  - intros [id [Hin Hlt]].
    destruct (idle_times_bounds_cases sequence processing_times cols m Hv)
      as [[v (Ev & Hs & Hids)] | [id' (Hin' & Hlt' & Ev)]].
    + exfalso.
      unfold ids_within in Hids. rewrite Forall_forall in Hids.
      specialize (Hids id Hin). lia.
    + exists id'. auto.
Qed.

Lemma idle_time_writes_in_bounds_iff_witness :
  ((exists v, calculate_idle_times [1; 2] p_two 2 = Ok v)
   <-> ids_within (len [1; 2]) [1; 2]) /\
  (ids_within (len [1; 2]) [1; 2] ->
   exists v e,
     calculate_idle_times [1; 2] p_two 2 = Ok v /\
     calculate_completion_times [1; 2] p_two 2 1 = Ok (Table e) /\
     size v = len [1; 2] /\
     (forall i, 0 <= i < len [1; 2] ->
        (forall i', i < i' < len [1; 2] ->
           nth (Z.to_nat i') [1; 2] 0 <> nth (Z.to_nat i) [1; 2] 0) ->
        items v (nth (Z.to_nat i) [1; 2] 0 - 1)
        = idle_time_of (data e) p_two [1; 2] 2 i) /\
     (forall k, (forall id, In id [1; 2] -> id - 1 <> k) -> items v k = 0)) /\
  ((exists id, In id [1; 2] /\ len [1; 2] < id) ->
   exists id, In id [1; 2] /\ len [1; 2] < id /\
              calculate_idle_times [1; 2] p_two 2
              = OutOfBounds Bidle_time (id - 1) 0).
Proof. apply (idle_time_writes_in_bounds_iff [1; 2] p_two 2 2). solve_valid. Defined.

Example idle_time_partial_sequence :
  calculate_idle_times [3] p_three 2 = OutOfBounds Bidle_time 2 0.
Proof. reflexivity. Qed.

(** Scenario 3 of the specification: the idle times of Scenario 1. *)
Example scenario3 :
  match calculate_idle_times [1; 2] p_two 2 with
  | Ok v => size v = 2 /\ map (items v) [0; 1] = [3; 0]
  | _ => False
  end.
Proof. vm_compute. repeat split. Qed.

(** * taillard_acceleration *)

(** ** The main loop *)

Lemma in_array_true i j : 0 <= i <= 800 -> 0 <= j <= 60 -> in_array i j = true.
Proof. intros Hi Hj. unfold in_array. now rewrite !within_true by lia. Qed.

(** An access to a static array is let through exactly when its row index
    is in 0..800 and its column index in 0..60. *)
Lemma in_array_spec i j : in_array i j = true <-> 0 <= i <= 800 /\ 0 <= j <= 60.
Proof.
  split; [|intros [Hi Hj]; now apply in_array_true].
  unfold in_array, within. rewrite !andb_true_iff, !Z.leb_le, !Z.ltb_lt. lia.
Qed.

Lemma bind_rd_e {B} (k : Z -> M Frame.t B) i j s :
  0 <= i <= 800 -> 0 <= j <= 60 -> bind (rd_e i j) k s = k (Frame.e s i j) s.
Proof. intros Hi Hj. unfold bind, rd_e. now rewrite in_array_true. Qed.

Lemma bind_rd_q {B} (k : Z -> M Frame.t B) i j s :
  0 <= i <= 800 -> 0 <= j <= 60 -> bind (rd_q i j) k s = k (Frame.q s i j) s.
Proof. intros Hi Hj. unfold bind, rd_q. now rewrite in_array_true. Qed.

Lemma bind_rd_f {B} (k : Z -> M Frame.t B) i j s :
  0 <= i <= 800 -> 0 <= j <= 60 -> bind (rd_f i j) k s = k (Frame.f s i j) s.
Proof. intros Hi Hj. unfold bind, rd_f. now rewrite in_array_true. Qed.

Lemma bind_rd_ms {B} (k : Z -> M Frame.t B) i s :
  0 <= i <= 800 -> bind (rd_ms i) k s = k (Frame.ms s i) s.
Proof. intros Hi. unfold bind, rd_ms. now rewrite within_true by lia. Qed.

Lemma run_wr_e i j v s :
  0 <= i <= 800 -> 0 <= j <= 60 ->
  wr_e i j v s = Ok (tt, Frame.set_e s (upd2 (Frame.e s) i j v)).
Proof. intros Hi Hj. unfold wr_e. now rewrite in_array_true. Qed.

Lemma run_wr_q i j v s :
  0 <= i <= 800 -> 0 <= j <= 60 ->
  wr_q i j v s = Ok (tt, Frame.set_q s (upd2 (Frame.q s) i j v)).
Proof. intros Hi Hj. unfold wr_q. now rewrite in_array_true. Qed.

Lemma run_wr_f i j v s :
  0 <= i <= 800 -> 0 <= j <= 60 ->
  wr_f i j v s = Ok (tt, Frame.set_f s (upd2 (Frame.f s) i j v)).
Proof. intros Hi Hj. unfold wr_f. now rewrite in_array_true. Qed.

Lemma run_wr_ms i v s :
  0 <= i <= 800 -> wr_ms i v s = Ok (tt, Frame.set_ms s (upd1 (Frame.ms s) i v)).
Proof. intros Hi. unfold wr_ms. now rewrite within_true by lia. Qed.

Lemma bind_modify {St B} (u : St -> St) (k : unit -> M St B) s :
  bind (modify u) k s = k tt (u s).
Proof. reflexivity. Qed.

Lemma bind_gets {St A B} (g : St -> A) (k : A -> M St B) s :
  bind (gets g) k s = k (g s) s.
Proof. reflexivity. Qed.

Lemma if_gtb_max {A} (F : Z -> A) a b : (if a >? b then F a else F b) = F (Z.max a b).
Proof.
  rewrite Z.gtb_ltb. destruct (Z.ltb_spec b a).
  - now rewrite Z.max_l by lia.
  - now rewrite Z.max_r by lia.
Qed.

Section MainLoop.
Variable processing_times : list (list Z).
Variables m cols : Z.
Variable sequence : list Z.
Variable inserting_job : Z.
Hypothesis Hrect : rectangular processing_times cols.
Hypothesis Hm : 0 <= m <= cols.
Hypothesis Hjobs : Forall (valid_job processing_times) sequence.
Hypothesis Hk : valid_job processing_times inserting_job.
Hypothesis Hrows : len sequence <= 799.
Hypothesis Hcols : m <= 60 /\ (1 <= len sequence -> m <= 59).

Let n : Z := len sequence.
Let times (i : Z) : list Z :=
  job_times processing_times m (nth (Z.to_nat (i - 1)) sequence 0).

Lemma head_tail_cell_run s i j :
  1 <= i <= n -> 1 <= j <= m ->
  1 <= Frame.iq s <= n -> 2 <= Frame.jq s <= m + 1 ->
  head_tail_cell sequence processing_times i j s
  = Ok (tt,
        Frame.mk
          (upd2 (Frame.e s) i j
             (add32 (Z.max (Frame.e s i (j - 1)) (Frame.e s (i - 1) j))
                    (col (times i) j)))
          (upd2 (Frame.q s) (Frame.iq s) (Frame.jq s - 1)
             (add32 (Z.max (Frame.q s (Frame.iq s) (Frame.jq s - 1 + 1))
                           (Frame.q s (Frame.iq s + 1) (Frame.jq s - 1)))
                    (col (times (Frame.iq s)) (Frame.jq s - 1))))
          (Frame.f s) (Frame.ms s) (Frame.iq s) (Frame.jq s - 1)
          (Frame.best_makespan s) (Frame.best_position s)).
Proof.
  intros Hi Hj Hiq Hjq. destruct s as [e q f ms iq jq bm bp]. simpl in Hiq, Hjq.
  unfold head_tail_cell.
  rewrite bind_modify, !bind_gets. simpl.
  rewrite !bind_rd_e by lia. simpl.
  erewrite bind_lift by (apply seq_at_ok; unfold n in Hi; lia).
  erewrite bind_lift.
  2:{ apply (pt_at_job processing_times m cols); trivial.
      apply (job_at_valid processing_times sequence Hjobs). exact Hi. }
  rewrite (if_gtb_max (fun x => wr_e i j (add32 x _))).
  erewrite bind_ok by (apply run_wr_e; lia). simpl.
  rewrite !bind_rd_q by (simpl; lia). simpl.
  erewrite bind_lift by (apply seq_at_ok; unfold n in Hiq; lia).
  erewrite bind_lift.
  2:{ apply (pt_at_job processing_times m cols); trivial; [|lia].
      apply (job_at_valid processing_times sequence Hjobs). exact Hiq. }
  rewrite (if_gtb_max (fun x => wr_q iq (jq - 1) (add32 x _))).
  rewrite run_wr_q by lia. reflexivity.
Qed.

Lemma insert_cell_run s i j :
  1 <= i <= n + 1 -> 1 <= j <= m ->
  insert_cell processing_times inserting_job i j s
  = Ok (tt,
        Frame.set_f s
          (upd2 (Frame.f s) i j
             (add32 (Z.max (Frame.f s i (j - 1)) (Frame.e s (i - 1) j))
                    (col (job_times processing_times m inserting_job) j)))).
Proof.
  intros Hi Hj. unfold insert_cell.
  rewrite bind_rd_f, bind_rd_e by lia.
  erewrite bind_lift by (apply (pt_at_job processing_times m cols); trivial).
  rewrite (if_gtb_max (fun x => wr_f i j (add32 x _))).
  now rewrite run_wr_f by lia.
Qed.

Let E := head_row_by add32 processing_times m sequence.
Let Q := back_row_by add32 processing_times m sequence.
Let F := insert_row_by add32 processing_times m sequence inserting_job.

(** Lines 58-60: the two sentinels written while row 1 is filled. *)
Lemma sentinels_inv s i j :
  1 <= i <= n + 1 -> 1 <= j <= m ->
  main_inv processing_times sequence inserting_job m i j s ->
  exists s1,
    when (i =? 1) (wr_e 0 j 0 ;; wr_q (len sequence + 1) (m + 1 - j) 0) s = Ok (tt, s1) /\
    (forall i' j', e_done sequence m i j i' j' \/ (i' = 0 /\ j' = j) ->
                   Frame.e s1 i' j' = col (E i') j') /\
    (forall r c, q_done sequence m i j r c \/ (r = n + 1 /\ c = m + 1 - j) ->
                 Frame.q s1 r c = col (Q r) c) /\
    Frame.f s1 = Frame.f s /\ Frame.iq s1 = Frame.iq s /\ Frame.jq s1 = Frame.jq s.
Proof.
  unfold n in *. intros Hi Hj (He & Hq & Hf & Hiq & Hjq).
  destruct (Z.eqb_spec i 1) as [->|Hne]; unfold when.
  - erewrite bind_ok by (apply run_wr_e; lia).
    rewrite run_wr_q by (simpl; lia).
    eexists. split; [reflexivity|]. simpl. repeat split.
    + intros i' j' [Hd | [-> ->]].
      * rewrite upd2_other by (unfold e_done in Hd; lia). now apply He.
      * rewrite upd2_same. symmetry. apply head_col_zero.
    + intros r c [Hd | [-> ->]].
      * rewrite upd2_other by (unfold q_done in Hd; lia). now apply Hq.
      * rewrite upd2_same. symmetry. apply back_col_end.
  - exists s. split; [reflexivity|]. repeat split; trivial.
    + intros i' j' [Hd | [-> ->]]; [now apply He|].
      apply He. unfold e_done. lia.
    + intros r c [Hd | [-> ->]]; [now apply Hq|].
      apply Hq. unfold q_done. lia.
Qed.

Lemma main_cell_inv s i j :
  1 <= i <= n + 1 -> 1 <= j <= m ->
  main_inv processing_times sequence inserting_job m i j s ->
  exists s', main_cell sequence processing_times inserting_job m i j s = Ok (tt, s')
             /\ main_inv processing_times sequence inserting_job m i (j + 1) s'.
Proof.
  unfold n in *. intros Hi Hj Hinv.
  destruct (sentinels_inv s i j Hi Hj Hinv)
    as (s1 & Hrun1 & He1 & Hq1 & Hf1 & Hiq1 & Hjq1).
  destruct Hinv as (He & Hq & Hf & Hiq & Hjq).
  specialize (Hjq ltac:(lia)).
  destruct (Z.eqb_spec j 0) as [|_]; [lia|].
  unfold main_cell. erewrite bind_ok by exact Hrun1.
  assert (H2 : exists s2,
    when (i <? len sequence + 1) (head_tail_cell sequence processing_times i j) s1
    = Ok (tt, s2) /\
    (forall i' j', e_done sequence m i (j + 1) i' j' ->
                   Frame.e s2 i' j' = col (E i') j') /\
    (forall r c, q_done sequence m i (j + 1) r c ->
                 Frame.q s2 r c = col (Q r) c) /\
    Frame.f s2 = Frame.f s /\ Frame.iq s2 = Frame.iq s /\
    Frame.jq s2 = (if i <=? len sequence then m + 2 - (j + 1) else m + 1)).
  { destruct (Z.ltb_spec i (len sequence + 1)) as [Hlt|Hge]; unfold when;
      destruct (Z.leb_spec i (len sequence)) as [Hle|Hgt]; try lia.
    - rewrite Z.min_l in Hiq by lia.
      rewrite head_tail_cell_run by lia.
      eexists. split; [reflexivity|]. simpl.
      rewrite Hiq1, Hjq1, Hiq, Hjq. repeat split; trivial; [| |lia].
      + intros i' j' Hd.
        destruct (Z.eq_dec i' i) as [->|Hni]; [destruct (Z.eq_dec j' j) as [->|Hnj]|].
        * rewrite upd2_same. rewrite !He1 by (unfold e_done; lia).
          symmetry. apply (head_col_step add32 processing_times m cols); trivial; lia.
        * rewrite upd2_other by lia. apply He1. unfold e_done in *. lia.
        * rewrite upd2_other by lia. apply He1. unfold e_done in *. lia.
      + intros r c Hd.
        destruct (Z.eq_dec r (len sequence + 1 - i)) as [->|Hnr];
          [destruct (Z.eq_dec c (m + 2 - j - 1)) as [->|Hnc]|].
        * rewrite upd2_same. rewrite !Hq1 by (unfold q_done;  lia).
          replace (m + 2 - j - 1 + 1) with (m + 1 - j + 1) by lia.
          replace (m + 2 - j - 1) with (m + 1 - j) by lia.
          symmetry. apply (back_col_step add32 processing_times m cols); trivial; lia.
        * rewrite upd2_other by lia. apply Hq1. unfold q_done in *. lia.
        * rewrite upd2_other by lia. apply Hq1. unfold q_done in *. lia.
    - exists s1. split; [reflexivity|]. repeat split; trivial; [| |lia].
      + intros i' j' Hd. apply He1. unfold e_done in *. lia.
      + intros r c Hd. apply Hq1. unfold q_done in *. lia. }
  destruct H2 as (s2 & Hrun2 & He2 & Hq2 & Hf2 & Hiq2 & Hjq2).
  erewrite bind_ok by exact Hrun2.
  rewrite insert_cell_run by lia.
  eexists. split; [reflexivity|]. unfold main_inv, Frame.set_f. simpl.
  split; [exact He2|]. split; [exact Hq2|]. split; [|split].
  - intros i' j' Hd. rewrite Hf2.
    destruct (Z.eq_dec i' i) as [->|Hni]; [destruct (Z.eq_dec j' j) as [->|Hnj]|].
    + rewrite upd2_same. rewrite Hf by (unfold f_done; lia).
      rewrite He2 by (unfold e_done;  lia).
      symmetry. apply (insert_col_step add32 processing_times m cols); trivial; lia.
    + rewrite upd2_other by lia. apply Hf. unfold f_done in *. lia.
    + rewrite upd2_other by lia. apply Hf. unfold f_done in *. lia.
  - rewrite Hiq2, Hiq. destruct (Z.eqb_spec (j + 1) 0); [lia | reflexivity].
  - intros _. exact Hjq2.
Qed.

Lemma main_inv_next s i :
  1 <= i -> main_inv processing_times sequence inserting_job m i (m + 1) s ->
  main_inv processing_times sequence inserting_job m (i + 1) 0 s.
Proof.
  intros Hi (He & Hq & Hf & Hiq & _). unfold main_inv.
  destruct (Z.eqb_spec (m + 1) 0); [lia|].
  split; [|split; [|split; [|split]]].
  - intros i' j' Hd. apply He. unfold e_done in *. lia.
  - intros r c Hd. apply Hq. unfold q_done in *. lia.
  - intros i' j' Hd. apply Hf. unfold f_done in *. lia.
  - simpl. rewrite Hiq. f_equal. f_equal. lia.
  - intros H. lia.
Qed.

Lemma main_row_inv s i :
  1 <= i <= n + 1 ->
  main_inv processing_times sequence inserting_job m i 0 s ->
  exists s', main_row sequence processing_times inserting_job m i s = Ok (tt, s')
             /\ main_inv processing_times sequence inserting_job m (i + 1) 0 s'.
Proof.
  unfold n in *. intros Hi (He & Hq & Hf & Hiq & _). simpl in Hiq.
  destruct s as [e q f ms iq jq bm bp]. simpl in He, Hq, Hf, Hiq.
  unfold main_row, when.
  assert (Hloop : forall s1,
    main_inv processing_times sequence inserting_job m i 1 s1 ->
    exists s', for_range 1 (m + 1)
                 (main_cell sequence processing_times inserting_job m i) s1
               = Ok (tt, s')
               /\ main_inv processing_times sequence inserting_job m (i + 1) 0 s').
  { intros s1 H1.
    destruct (for_range_inv (main_inv processing_times sequence inserting_job m i)
                (main_cell sequence processing_times inserting_job m i)
                1 (m + 1) s1) as [s' [Hrun Hinv]]; [lia | exact H1 | |].
    - intros j s0 Hj H0. apply main_cell_inv; trivial. lia.
    - exists s'. split; [exact Hrun|]. apply main_inv_next; [lia | exact Hinv]. }
  destruct (Z.ltb_spec i (len sequence + 1)) as [Hlt|Hge].
  - erewrite bind_ok.
    2:{ erewrite bind_ok by (apply run_wr_e; lia).
        rewrite bind_modify, bind_gets. apply run_wr_q; simpl; lia. }
    erewrite bind_ok by (apply run_wr_f; lia).
    rewrite bind_modify. apply Hloop.
    unfold main_inv. simpl.
    destruct (Z.leb_spec i (len sequence)); [|lia].
    split; [|split; [|split; [|split]]].
    + intros i' j' Hd.
      destruct (Z.eq_dec i' i) as [->|Hni].
      * assert (j' = 0) as -> by (unfold e_done in Hd; lia).
        rewrite upd2_same. now rewrite col_low.
      * rewrite upd2_other by lia. apply He. unfold e_done in *. lia.
    + intros r c Hd.
      destruct (Z.eq_dec r (iq - 1)) as [->|Hnr].
      * assert (c = m + 1) as -> by (unfold q_done in Hd; lia).
        rewrite upd2_same. symmetry.
        apply (back_col_last add32 processing_times m cols); trivial. lia.
      * rewrite upd2_other by lia. apply Hq. unfold q_done in *. lia.
    + intros i' j' Hd.
      destruct (Z.eq_dec i' i) as [->|Hni].
      * assert (j' = 0) as -> by (unfold f_done in Hd; lia).
        rewrite upd2_same. now rewrite col_low.
      * rewrite upd2_other by lia. apply Hf. unfold f_done in *. lia.
    + lia.
    + intros _. lia.
  - erewrite bind_ok by reflexivity.
    erewrite bind_ok by (apply run_wr_f; lia).
    rewrite bind_modify. apply Hloop.
    unfold main_inv. simpl.
    destruct (Z.leb_spec i (len sequence)); [lia|].
    split; [|split; [|split; [|split]]].
    + intros i' j' Hd. apply He. unfold e_done in *. lia.
    + intros r c Hd. apply Hq. unfold q_done in *. lia.
    + intros i' j' Hd.
      destruct (Z.eq_dec i' i) as [->|Hni].
      * assert (j' = 0) as -> by (unfold f_done in Hd; lia).
        rewrite upd2_same. now rewrite col_low.
      * rewrite upd2_other by lia. apply Hf. unfold f_done in *. lia.
    + lia.
    + intros _. reflexivity.
Qed.

Lemma main_loop_inv s :
  exists s',
    (modify (Frame.set_iq (len sequence + 1)) ;;
     for_range 1 (len sequence + 2)
       (main_row sequence processing_times inserting_job m)) s = Ok (tt, s')
    /\ main_inv processing_times sequence inserting_job m (n + 2) 0 s'.
Proof.
  unfold n in *. rewrite bind_modify.
  apply (for_range_inv
           (fun i s' => main_inv processing_times sequence inserting_job m i 0 s')).
  - unfold len. lia.
  - unfold main_inv. destruct s as [e q f ms iq jq bm bp]. simpl.
    split; [|split; [|split; [|split]]].
    + intros i' j' Hd. unfold e_done in Hd. lia.
    + intros r c Hd. unfold q_done in Hd. lia.
    + intros i' j' Hd. unfold f_done in Hd. lia.
    + unfold len. lia.
    + intros H. lia.
  - intros i s0 Hi H0. apply main_row_inv; [lia | exact H0].
Qed.
End MainLoop.

(** ** The makespan loop *)

Lemma meet_firstn_step add : forall k front back,
  (k < length front)%nat -> (k < length back)%nat ->
  meet_by add (firstn (S k) front) (firstn (S k) back)
  = Z.max (meet_by add (firstn k front) (firstn k back))
          (add (nth k front 0) (nth k back 0)).
Proof.
  induction k as [|k IH]; intros [|a front] [|b back] Hf Hb; simpl in *; try lia.
  rewrite (IH front back) by lia. simpl. lia.
Qed.

Section MakespanLoop.
Variable processing_times : list (list Z).
Variables m cols : Z.
Variable sequence : list Z.
Variable inserting_job : Z.
Hypothesis Hrect : rectangular processing_times cols.
Hypothesis Hm : 0 <= m <= cols.
Hypothesis Hjobs : Forall (valid_job processing_times) sequence.
Hypothesis Hk : valid_job processing_times inserting_job.
Hypothesis Hrows : len sequence <= 799.
Hypothesis Hcols : m <= 60 /\ (1 <= len sequence -> m <= 59).

Let Q := back_row_by add32 processing_times m sequence.
Let F := insert_row_by add32 processing_times m sequence inserting_job.
Let MS := makespan_by add32 processing_times m sequence inserting_job.

Lemma makespan_cell_inv s i j :
  1 <= i <= len sequence + 1 -> 1 <= j <= m ->
  exists s',
    makespan_cell i j s = Ok (tt, s') /\
    Frame.ms s' i = Z.max (Frame.ms s i) (add32 (Frame.f s i j) (Frame.q s i j)) /\
    Frame.q s' = Frame.q s /\ Frame.f s' = Frame.f s /\
    Frame.best_makespan s' = Frame.best_makespan s /\
    Frame.best_position s' = Frame.best_position s.
Proof.
  intros Hi Hj. unfold makespan_cell.
  rewrite bind_rd_f, bind_rd_q, bind_rd_ms by lia.
  unfold when. rewrite Z.gtb_ltb.
  destruct (Z.ltb_spec (Frame.ms s i) (add32 (Frame.f s i j) (Frame.q s i j))).
  - rewrite run_wr_ms by lia. eexists. split; [reflexivity|].
    destruct s as [e q f ms iq jq bm bp]. simpl in *.
    rewrite upd1_same. repeat split. lia.
  - exists s. split; [reflexivity|]. repeat split. lia.
Qed.

Lemma makespan_row_inv s i :
  1 <= i <= len sequence + 1 ->
  tables_filled processing_times sequence inserting_job m s ->
  (Frame.best_makespan s, Frame.best_position s) = select MS (Z.to_nat (i - 1)) ->
  exists s',
    makespan_row m i s = Ok (tt, s') /\
    tables_filled processing_times sequence inserting_job m s' /\
    (Frame.best_makespan s', Frame.best_position s') = select MS (Z.to_nat i).
Proof.
  intros Hi [Hf Hq] Hbest. unfold makespan_row.
  erewrite bind_ok by (apply run_wr_ms; lia).
  pose proof (insert_row_length add32 processing_times m cols sequence Hrect Hm Hjobs
                inserting_job i Hk Hi) as HlF.
  pose proof (back_row_length add32 processing_times m cols sequence Hrect Hm Hjobs
                i Hi) as HlQ.
  fold F in HlF. fold Q in HlQ.
  destruct (for_range_inv
              (fun j s' =>
                 Frame.ms s' i = meet_by add32 (firstn (Z.to_nat (j - 1)) (F i))
                                               (firstn (Z.to_nat (j - 1)) (Q i)) /\
                 Frame.q s' = Frame.q s /\ Frame.f s' = Frame.f s /\
                 Frame.best_makespan s' = Frame.best_makespan s /\
                 Frame.best_position s' = Frame.best_position s)
              (makespan_cell i) 1 (m + 1)
              (Frame.set_ms s (upd1 (Frame.ms s) i 0)))
    as [s1 [Hrun (Hms & Hq1 & Hf1 & Hbm1 & Hbp1)]].
  - lia.
  - destruct s as [e q f ms iq jq bm bp]. simpl. now rewrite upd1_same.
  - intros j s0 Hj (Hms & Hq0 & Hf0 & Hbm0 & Hbp0).
    destruct (makespan_cell_inv s0 i j Hi ltac:(lia))
      as (s1 & Hrun & Hms1 & Hq1 & Hf1 & Hbm1 & Hbp1).
    exists s1. split; [exact Hrun|]. repeat split; try congruence.
    rewrite Hms1, Hms, Hf0, Hq0, Hf, Hq by lia.
    replace (Z.to_nat (j + 1 - 1)) with (S (Z.to_nat (j - 1))) by lia.
    unfold len in HlF, HlQ.
    rewrite meet_firstn_step by lia.
    now rewrite !col_nth by lia.
  - erewrite bind_ok by exact Hrun.
    rewrite bind_rd_ms by lia. rewrite bind_gets. unfold when.
    replace (Z.to_nat (m + 1 - 1)) with (length (F i)) in Hms at 1
      by (unfold len in HlF; lia).
    replace (Z.to_nat (m + 1 - 1)) with (length (Q i)) in Hms
      by (unfold len in HlQ; lia).
    rewrite !firstn_all in Hms.
    assert (Hsel : select MS (Z.to_nat i)
                   = if better (MS i) (Frame.best_makespan s)
                     then (MS i, i) else select MS (Z.to_nat (i - 1))).
    { replace (Z.to_nat i) with (S (Z.to_nat (i - 1))) by lia.
      cbn [select]. rewrite <- Hbest. cbn [fst].
      now replace (Z.of_nat (S (Z.to_nat (i - 1)))) with i by lia. }
    rewrite Hsel, Hms, Hbm1.
    change (meet_by add32 (F i) (Q i)) with (MS i). unfold better.
    destruct ((MS i <? Frame.best_makespan s) || (Frame.best_makespan s =? 0)).
    + eexists. split; [reflexivity|].
      destruct s1 as [e q f ms iq jq bm bp]. simpl in Hq1, Hf1.
      unfold tables_filled. simpl. rewrite Hq1, Hf1.
      split; [split; assumption | reflexivity].
    + exists s1. split; [reflexivity|].
      split; [unfold tables_filled; rewrite Hq1, Hf1; split; assumption|].
      rewrite Hbm1, Hbp1. exact Hbest.
Qed.

Lemma taillard_tables_select junk :
  exists s,
    taillard_tables sequence processing_times inserting_job m (Frame.enter junk)
    = Ok (tt, s) /\
    (Frame.best_makespan s, Frame.best_position s)
    = select MS (Z.to_nat (len sequence + 1)).
Proof.
  destruct (main_loop_inv processing_times m cols sequence inserting_job
              Hrect Hm Hjobs Hk Hrows Hcols (Frame.enter junk))
    as (s1 & Hrun1 & _ & Hq & Hf & _).
  rewrite bind_modify in Hrun1.
  unfold taillard_tables. rewrite bind_modify.
  erewrite bind_ok by exact Hrun1. rewrite bind_modify.
  destruct (for_range_inv
              (fun i s' =>
                 tables_filled processing_times sequence inserting_job m s' /\
                 (Frame.best_makespan s', Frame.best_position s')
                 = select MS (Z.to_nat (i - 1)))
              (makespan_row m) 1 (len sequence + 2) (Frame.set_best 0 0 s1))
    as [s2 [Hrun2 [_ Hsel]]].
  - unfold len. lia.
  - split; [|reflexivity].
    destruct s1 as [e q f ms iq jq bm bp]. unfold tables_filled. simpl in *.
    split; intros i j Hi Hj.
    + apply Hf. unfold f_done. lia.
    + apply Hq. unfold q_done. lia.
  - intros i s0 Hi [Ht Hsel].
    destruct (makespan_row_inv s0 i ltac:(lia) Ht Hsel) as (s' & Hrun & Ht' & Hsel').
    exists s'. split; [exact Hrun|]. split; [exact Ht'|].
    now replace (i + 1 - 1) with i by lia.
  - exists s2. split; [exact Hrun2|].
    now replace (len sequence + 2 - 1) with (len sequence + 1) in Hsel by lia.
Qed.

Lemma taillard_acceleration_select junk use_tie_breaking :
  use_tie_breaking <= 0 ->
  taillard_acceleration junk sequence processing_times inserting_job m use_tie_breaking
  = Ok (snd (select MS (Z.to_nat (len sequence + 1))),
        fst (select MS (Z.to_nat (len sequence + 1)))).
Proof.
  intros Ht. unfold taillard_acceleration.
  destruct (taillard_tables_select junk) as (s & Hrun & Hsel).
  rewrite Hrun. rewrite Z.gtb_ltb.
  destruct (Z.ltb_spec 0 use_tie_breaking); [lia|].
  now rewrite <- Hsel.
Qed.
End MakespanLoop.

(** ** Without overflow, [add32] computes the recurrences over [Z] *)

Lemma advance_by_wrap above : forall ps prev,
  Forall (fun x => -2147483648 <= x <= INT_MAX) (advance prev above ps) ->
  advance_by add32 prev above ps = advance prev above ps.
Proof.
  induction above as [|a above IH]; intros [|p ps] prev H; simpl in *; trivial.
  inversion H as [|x l Hx Hl]; subst.
  rewrite add32_small by assumption. f_equal. now apply IH.
Qed.

Lemma retreat_by_wrap below : forall ps,
  Forall (fun x => -2147483648 <= x <= INT_MAX) (retreat below ps) ->
  retreat_by add32 below ps = retreat below ps.
Proof.
  induction below as [|b below IH]; intros [|p ps] H; simpl in *; trivial.
  inversion H as [|x l Hx Hl]; subst.
  rewrite IH by assumption.
  now rewrite add32_small by assumption.
Qed.

Lemma meet_by_wrap front : forall back A B,
  Forall (fun x => 0 <= x <= A) front -> Forall (fun x => 0 <= x <= B) back ->
  A + B <= INT_MAX ->
  meet_by add32 front back = meet front back.
Proof.
  induction front as [|a front IH]; intros [|b back] A B Hf Hb HAB; simpl; trivial.
  inversion Hf; inversion Hb; subst.
  rewrite add32_small by (unfold INT_MAX in *; lia).
  now rewrite (IH back A B).
Qed.

Lemma Forall_weaken_range (B : Z) (l : list Z) :
  B <= INT_MAX -> Forall (fun x => 0 <= x <= B) l ->
  Forall (fun x => -2147483648 <= x <= INT_MAX) l.
Proof.
  intros HB H. eapply Forall_impl; [|exact H]. simpl. intros x Hx. lia.
Qed.

Section NoOverflow.
Variable processing_times : list (list Z).
Variables m cols : Z.
Variable sequence : list Z.
Variable k : Z.
Hypothesis Hrect : rectangular processing_times cols.
Hypothesis Hm : 0 <= m <= cols.
Hypothesis Hjobs : Forall (valid_job processing_times) sequence.
Hypothesis Hk : valid_job processing_times k.
Hypothesis Hnn : non_negative processing_times.
Hypothesis Hfit : total_time processing_times m (k :: sequence) <= INT_MAX.

Let n : Z := len sequence.
Let T (ids : list Z) : Z := total_time processing_times m ids.

Lemma total_parts i :
  T (firstn (Z.to_nat (i - 1)) sequence) + T [k] + T (skipn (Z.to_nat (i - 1)) sequence)
  = T (k :: sequence).
Proof.
  unfold T. change (k :: sequence) with ([k] ++ sequence).
  rewrite (total_time_app _ _ [k] sequence).
  rewrite (total_time_split _ _ sequence (Z.to_nat (i - 1))). lia.
Qed.

Lemma T_nonneg ids : 0 <= T ids.
Proof. now apply total_time_nonneg. Qed.

Lemma head_row_prefix_bounds i :
  Forall (fun x => 0 <= x <= T (firstn (Z.to_nat i) sequence))
         (head_row processing_times m sequence i).
Proof.
  unfold head_row_by.
  pose proof (finish_bounds
                (job_rows processing_times m (firstn (Z.to_nat i) sequence))
                (repeat 0 (Z.to_nat m)) 0 ltac:(lia)) as H.
  eapply Forall_impl; [| apply H].
  - simpl. intros x Hx. unfold T, total_time, job_rows in *.
    rewrite map_map in Hx. lia.
  - apply Forall_forall. intros x Hx. apply repeat_spec in Hx. lia.
  - now apply job_rows_nonneg.
Qed.

Lemma back_row_suffix_bounds i :
  Forall (fun x => 0 <= x <= T (skipn (Z.to_nat (i - 1)) sequence))
         (back_row processing_times m sequence i).
Proof.
  unfold back_row_by.
  pose proof (tail_row_bounds (Z.to_nat m)
                (job_rows processing_times m (skipn (Z.to_nat (i - 1)) sequence))
                (job_rows_nonneg processing_times m Hnn _)) as H.
  eapply Forall_impl; [| apply H].
  simpl. intros x Hx. unfold T, total_time, job_rows in *.
  rewrite map_map in Hx. lia.
Qed.

Lemma insert_row_bounds i :
  Forall (fun x => 0 <= x <= T (firstn (Z.to_nat (i - 1)) sequence) + T [k])
         (insert_row processing_times m sequence k i).
Proof.
  unfold insert_row_by.
  pose proof (T_nonneg (firstn (Z.to_nat (i - 1)) sequence)) as H0.
  eapply Forall_impl;
    [| apply (advance_bounds _ _ 0 (T (firstn (Z.to_nat (i - 1)) sequence)))].
  - simpl. intros x Hx. unfold T, total_time in *. simpl. lia.
  - now apply job_times_nonneg.
  - lia.
  - eapply Forall_impl; [| apply head_row_prefix_bounds]. simpl. intros; lia.
Qed.

Lemma T_prefix_le i : T (firstn (Z.to_nat i) sequence) <= INT_MAX.
Proof.
  pose proof (total_parts (i + 1)) as H.
  replace (i + 1 - 1) with i in H by lia.
  pose proof (T_nonneg [k]). pose proof (T_nonneg (skipn (Z.to_nat i) sequence)).
  unfold T in *. lia.
Qed.

Lemma head_row_wrap i :
  0 <= i <= n ->
  head_row_by add32 processing_times m sequence i
  = head_row processing_times m sequence i.
Proof.
  intros Hi. rewrite <- (Z2Nat.id i) by lia.
  assert (Hle : Z.of_nat (Z.to_nat i) <= n) by lia.
  induction (Z.to_nat i) as [|c IH]; [reflexivity|].
  rewrite (head_row_step add32), (head_row_step Z.add) by (fold n; lia).
  specialize (IH ltac:(lia)).
  replace (Z.of_nat c) with (Z.of_nat (S c) - 1) in IH by lia.
  rewrite IH.
  apply advance_by_wrap.
  rewrite <- (head_row_step Z.add) by (fold n; lia).
  apply (Forall_weaken_range (T (firstn (Z.to_nat (Z.of_nat (S c))) sequence)));
    [apply T_prefix_le | apply head_row_prefix_bounds].
Qed.

Lemma back_row_wrap i :
  1 <= i <= n + 1 ->
  back_row_by add32 processing_times m sequence i
  = back_row processing_times m sequence i.
Proof.
  intros Hi.
  replace i with (n + 1 - Z.of_nat (Z.to_nat (n + 1 - i))) by lia.
  assert (Hle : Z.of_nat (Z.to_nat (n + 1 - i)) <= n) by lia.
  induction (Z.to_nat (n + 1 - i)) as [|c IH].
  - replace (n + 1 - Z.of_nat 0) with (n + 1) by lia.
    now rewrite !back_row_end.
  - rewrite (back_row_step add32 _ _ _ (n + 1 - Z.of_nat (S c))),
            (back_row_step Z.add _ _ _ (n + 1 - Z.of_nat (S c))) by (fold n; lia).
    replace (n + 1 - Z.of_nat (S c) + 1) with (n + 1 - Z.of_nat c) by lia.
    rewrite IH by lia.
    apply retreat_by_wrap.
    replace (n + 1 - Z.of_nat c) with (n + 1 - Z.of_nat (S c) + 1) by lia.
    rewrite <- (back_row_step Z.add) by (fold n; lia).
    apply (Forall_weaken_range
             (T (skipn (Z.to_nat (n + 1 - Z.of_nat (S c) - 1)) sequence)));
      [|apply back_row_suffix_bounds].
    pose proof (total_parts (n + 1 - Z.of_nat (S c))) as H.
    pose proof (T_nonneg [k]).
    pose proof (T_nonneg (firstn (Z.to_nat (n + 1 - Z.of_nat (S c) - 1)) sequence)).
    unfold T in *. lia.
Qed.

Lemma insert_row_wrap i :
  1 <= i <= n + 1 ->
  insert_row_by add32 processing_times m sequence k i
  = insert_row processing_times m sequence k i.
Proof.
  intros Hi. unfold insert_row_by. rewrite head_row_wrap by lia.
  apply advance_by_wrap.
  apply (Forall_weaken_range (T (firstn (Z.to_nat (i - 1)) sequence) + T [k]));
    [|apply insert_row_bounds].
  pose proof (total_parts i) as H.
  pose proof (T_nonneg (skipn (Z.to_nat (i - 1)) sequence)).
  unfold T in *. lia.
Qed.

Lemma makespan_wrap i :
  1 <= i <= n + 1 ->
  makespan_by add32 processing_times m sequence k i
  = meet (insert_row processing_times m sequence k i)
         (back_row processing_times m sequence i).
Proof.
  intros Hi. unfold makespan_by.
  rewrite insert_row_wrap, back_row_wrap by assumption.
  apply (meet_by_wrap _ _ (T (firstn (Z.to_nat (i - 1)) sequence) + T [k])
                          (T (skipn (Z.to_nat (i - 1)) sequence)));
    [apply insert_row_bounds | apply back_row_suffix_bounds |].
  pose proof (total_parts i) as H. unfold T in *. lia.
Qed.
End NoOverflow.

(** ** Taillard's identity: the makespan after an insertion is
    max_j (f_j + q_j) *)

Lemma meet_nonneg add front : forall back, 0 <= meet_by add front back.
Proof.
  induction front as [|a front IH]; intros [|b back]; simpl; try lia.
  specialize (IH back). lia.
Qed.

Lemma advance_rising above : forall ps prev,
  Forall (fun x => 0 <= x) ps -> rising prev (advance prev above ps).
Proof.
  induction above as [|a above IH]; intros [|p ps] prev Hp; simpl; trivial.
  inversion Hp; subst. split; [lia|]. now apply IH.
Qed.

Lemma rising_nonneg l : forall prev, 0 <= prev -> rising prev l -> Forall (fun x => 0 <= x) l.
Proof.
  induction l as [|x l IH]; intros prev Hp Hr; constructor; simpl in Hr.
  - lia.
  - apply (IH x); [lia | tauto].
Qed.

Lemma last_cons (x : Z) l d : last (x :: l) d = last l x.
Proof.
  revert x d. induction l as [|y l IH]; intros x d; [reflexivity|].
  change (last (x :: y :: l) d) with (last (y :: l) d).
  now rewrite (IH y d), (IH y x).
Qed.

Lemma rising_last l : forall prev, rising prev l -> prev <= last l prev.
Proof.
  induction l as [|x l IH]; intros prev Hr; [simpl; lia|].
  rewrite last_cons. simpl in Hr. specialize (IH x ltac:(tauto)). lia.
Qed.

Lemma meet_zeros l : forall prev,
  0 <= prev -> rising prev l ->
  Z.max prev (meet l (repeat 0 (length l))) = last l prev.
Proof.
  induction l as [|x l IH]; intros prev Hp Hr; [simpl; lia|].
  rewrite last_cons. simpl in Hr |- *.
  specialize (IH x ltac:(lia) ltac:(tauto)).
  pose proof (rising_last l x ltac:(tauto)). lia.
Qed.

(** One job moved from the head side to the tail side. *)
Lemma exchange above : forall ps below prev x,
  length above = length ps -> length below = length ps ->
  0 <= x -> Forall (fun y => 0 <= y) below ->
  Z.max (prev + x) (meet (advance prev above ps) below)
  = Z.max (prev + Z.max x (hd 0 (retreat below ps)))
          (meet above (retreat below ps)).
Proof.
  induction above as [|a above IH]; intros [|p ps] [|b below] prev x Ha Hb Hx Hnn;
    simpl in *; try lia.
  inversion Hnn; subst.
  specialize (IH ps below (Z.max prev a + p) b ltac:(lia) ltac:(lia)
                 ltac:(assumption) ltac:(assumption)).
  lia.
Qed.

Lemma tail_row_length m jobs :
  Forall (fun ps => length ps = m) jobs -> length (tail_row m jobs) = m.
Proof.
  unfold tail_row_by. induction 1 as [|ps jobs Hps Hjobs IH]; simpl.
  - apply repeat_length.
  - rewrite retreat_length; lia.
Qed.

Lemma tail_row_nonneg m jobs :
  Forall (Forall (fun x => 0 <= x)) jobs -> Forall (fun x => 0 <= x) (tail_row m jobs).
Proof.
  intros H. eapply Forall_impl; [| apply (tail_row_bounds m jobs H)].
  simpl. intros; lia.
Qed.

Lemma finish_meet jobs : forall above,
  Forall (fun ps => length ps = length above) jobs ->
  Forall (Forall (fun x => 0 <= x)) jobs ->
  rising 0 above ->
  last (finish above jobs) 0 = meet above (tail_row (length above) jobs).
Proof.
  induction jobs as [|ps jobs IH]; intros above Hlen Hnn Hr.
  - simpl. rewrite <- (meet_zeros above 0) by (trivial; lia).
    pose proof (meet_nonneg Z.add above (repeat 0 (length above))). lia.
  - inversion Hlen as [|? ? Hps Hjobs]; inversion Hnn as [|? ? Hp0 Hj0]; subst.
    change (finish above (ps :: jobs)) with (finish (advance 0 above ps) jobs).
    assert (Hl : length (advance 0 above ps) = length above)
      by (rewrite advance_length; lia).
    rewrite IH; [| now rewrite Hl | assumption | now apply advance_rising].
    rewrite Hl.
    change (tail_row (length above) (ps :: jobs))
      with (retreat (tail_row (length above) jobs) ps).
    pose proof (exchange above ps (tail_row (length above) jobs) 0 0
                  ltac:(lia)
                  ltac:(rewrite tail_row_length; [lia | assumption])
                  ltac:(lia)
                  (tail_row_nonneg _ _ Hj0)) as Hex.
    pose proof (meet_nonneg Z.add (advance 0 above ps) (tail_row (length above) jobs)).
    pose proof (meet_nonneg Z.add above (retreat (tail_row (length above) jobs) ps)).
    assert (Hhd : hd 0 (retreat (tail_row (length above) jobs) ps)
                  <= meet above (retreat (tail_row (length above) jobs) ps)).
    { pose proof (rising_nonneg above 0 ltac:(lia) Hr) as Ha.
      assert (Hlr : length (retreat (tail_row (length above) jobs) ps) = length above).
      { rewrite retreat_length; [lia|]. rewrite tail_row_length; [lia | assumption]. }
      clear Hex.
      destruct (retreat (tail_row (length above) jobs) ps) as [|t rest];
        destruct above as [|a above]; simpl in *; lia. }
    lia.
Qed.

Lemma col_last row : col row (len row) = last row 0.
Proof.
  unfold col, len. destruct row as [|x row]; [reflexivity|].
  destruct (Z.leb_spec (Z.of_nat (length (x :: row))) 0) as [H|H];
    [cbn [length] in H; lia|].
  replace (Z.to_nat (Z.of_nat (length (x :: row)) - 1)) with (length row)
    by (cbn [length]; lia).
  clear H. revert x. induction row as [|y row IH]; intros x; [reflexivity|].
  change (nth (length (y :: row)) (x :: y :: row) 0) with (nth (length row) (y :: row) 0).
  rewrite IH. reflexivity.
Qed.

Section BruteForce.
Variable processing_times : list (list Z).
Variables m cols : Z.
Variable sequence : list Z.
Variable k : Z.
Hypothesis Hrect : rectangular processing_times cols.
Hypothesis Hm : 0 <= m <= cols.
Hypothesis Hjobs : Forall (valid_job processing_times) sequence.
Hypothesis Hk : valid_job processing_times k.
Hypothesis Hnn : non_negative processing_times.

Let n : Z := len sequence.

Lemma insert_at_valid i : Forall (valid_job processing_times) (insert_at sequence i k).
Proof.
  unfold insert_at. apply Forall_app. split; [now apply Forall_take|].
  constructor; [assumption | now apply Forall_drop].
Qed.

Lemma insert_at_len i : 1 <= i <= n + 1 -> len (insert_at sequence i k) = n + 1.
Proof.
  intros Hi. unfold insert_at, len, n, len in *.
  rewrite length_app. simpl. rewrite length_firstn, length_skipn. lia.
Qed.

Lemma insert_at_total i :
  total_time processing_times m (insert_at sequence i k)
  = total_time processing_times m (k :: sequence).
Proof.
  unfold insert_at. rewrite total_time_app.
  change (k :: skipn (Z.to_nat (i - 1)) sequence)
    with ([k] ++ skipn (Z.to_nat (i - 1)) sequence).
  change (k :: sequence) with ([k] ++ sequence).
  rewrite !total_time_app.
  rewrite (total_time_split _ _ sequence (Z.to_nat (i - 1))). lia.
Qed.

Lemma job_rows_length ids :
  Forall (valid_job processing_times) ids ->
  Forall (fun ps => length ps = Z.to_nat m) (job_rows processing_times m ids).
Proof.
  intros H. unfold job_rows. apply Forall_forall. intros ps Hps.
  apply in_map_iff in Hps. destruct Hps as [id [<- Hid]].
  rewrite Forall_forall in H.
  pose proof (job_times_length processing_times m cols Hrect Hm id (H id Hid)) as Hl.
  unfold len in Hl. lia.
Qed.

(** Taillard's identity for the job [k] put at position [i]. *)
Lemma inserted_makespan i :
  1 <= i <= n + 1 ->
  col (head_row processing_times m (insert_at sequence i k)
                (len (insert_at sequence i k))) m
  = meet (insert_row processing_times m sequence k i)
         (back_row processing_times m sequence i).
Proof.
  intros Hi.
  pose proof (insert_row_length Z.add processing_times m cols sequence Hrect Hm Hjobs
                k i Hk Hi) as HlF.
  assert (Hrow : head_row processing_times m (insert_at sequence i k)
                          (len (insert_at sequence i k))
                 = finish (insert_row processing_times m sequence k i)
                          (job_rows processing_times m
                             (skipn (Z.to_nat (i - 1)) sequence))).
  { unfold head_row_by, len. rewrite Nat2Z.id, firstn_all.
    unfold insert_at, job_rows, finish_by.
    rewrite map_app, fold_left_app. reflexivity. }
  rewrite Hrow.
  assert (Hlen : len (finish (insert_row processing_times m sequence k i)
                        (job_rows processing_times m
                           (skipn (Z.to_nat (i - 1)) sequence))) = m).
  { rewrite <- Hrow.
    rewrite (head_row_length Z.add processing_times m cols _ Hrect Hm
               (insert_at_valid i)); [reflexivity|].
    unfold len. lia. }
  match goal with |- col ?row m = _ =>
    transitivity (col row (len row)); [now rewrite Hlen|] end.
  rewrite col_last.
  rewrite finish_meet.
  - unfold back_row_by. unfold len in HlF.
    now replace (length (insert_row processing_times m sequence k i))
      with (Z.to_nat m) by lia.
  - unfold len in HlF.
    replace (length (insert_row processing_times m sequence k i))
      with (Z.to_nat m) by lia.
    apply job_rows_length. now apply Forall_drop.
  - now apply job_rows_nonneg.
  - apply advance_rising. now apply job_times_nonneg.
Qed.

Lemma inserted_makespan_last i :
  1 <= i <= n + 1 ->
  last (finish (repeat 0 (Z.to_nat m))
               (job_rows processing_times m (insert_at sequence i k))) 0
  = meet (insert_row processing_times m sequence k i)
         (back_row processing_times m sequence i).
Proof.
  intros Hi. rewrite <- (inserted_makespan i Hi).
  pose proof (head_row_length Z.add processing_times m cols _ Hrect Hm
                (insert_at_valid i) (len (insert_at sequence i k))
                ltac:(unfold len; lia)) as Hlen.
  match goal with |- _ = col ?row m =>
    transitivity (col row (len row)); [|now rewrite Hlen] end.
  rewrite col_last.
  unfold head_row_by, len. now rewrite Nat2Z.id, firstn_all.
Qed.

(** What the recomputation returns for the job put at position [i]. *)
Lemma brute_force_scalar i :
  total_time processing_times m (k :: sequence) <= INT_MAX ->
  1 <= i <= n + 1 ->
  calculate_completion_times (insert_at sequence i k) processing_times m 0
  = Ok (Scalar (meet (insert_row processing_times m sequence k i)
                     (back_row processing_times m sequence i))).
Proof.
  intros Hfit Hi.
  destruct (completion_table_rows (insert_at sequence i k) processing_times cols m)
    as [e (_ & _ & Hrows & Hrun)].
  - repeat split; trivial; try lia. apply insert_at_valid.
  - assumption.
  - now rewrite insert_at_total.
  - rewrite (Hrun 0). simpl. f_equal. f_equal.
    rewrite Hrows by (rewrite ?insert_at_len; unfold n, len in *; lia).
    now apply inserted_makespan.
Qed.
End BruteForce.

(** ** The selection *)

Lemma select_ext (v w : Z -> Z) count :
  (forall i, 1 <= i <= Z.of_nat count -> v i = w i) ->
  select v count = select w count.
Proof.
  induction count as [|c IH]; intros H; [reflexivity|].
  cbn [select]. rewrite IH by (intros i Hi; apply H; lia).
  now rewrite (H (Z.of_nat (S c))) by lia.
Qed.

Lemma select_zero (v : Z -> Z) count :
  (forall i, 1 <= i <= Z.of_nat count -> v i = 0) ->
  select v count = (0, Z.of_nat count).
Proof.
  induction count as [|c IH]; intros H; [reflexivity|].
  cbn [select]. rewrite IH by (intros i Hi; apply H; lia).
  rewrite (H (Z.of_nat (S c))) by lia. reflexivity.
Qed.

Lemma select_positive (v : Z -> Z) count :
  (1 <= count)%nat ->
  (forall i, 1 <= i <= Z.of_nat count -> 0 < v i) ->
  1 <= snd (select v count) <= Z.of_nat count /\
  v (snd (select v count)) = fst (select v count) /\
  (forall i, 1 <= i <= Z.of_nat count -> fst (select v count) <= v i) /\
  (forall i, 1 <= i < snd (select v count) -> fst (select v count) < v i).
Proof.
  induction count as [|c IH]; intros Hc Hpos; [lia|].
  destruct c as [|c].
  - assert (Hs : select v 1 = (v 1, 1)).
    { cbn [select fst]. unfold better. now rewrite orb_true_r. }
    rewrite Hs. cbn [fst snd]. repeat split; try lia.
    intros i Hi. replace i with 1 by lia. lia.
  - destruct IH as (Hb & Hv & Hmin & Hfirst); [lia | intros i Hi; apply Hpos; lia |].
    remember (S c) as c1.
    cbn [select]. unfold better.
    assert (Hbm : 0 < fst (select v c1)) by (rewrite <- Hv; apply Hpos; lia).
    destruct (Z.eqb_spec (fst (select v c1)) 0) as [|_]; [lia|].
    rewrite orb_false_r.
    destruct (Z.ltb_spec (v (Z.of_nat (S c1))) (fst (select v c1))) as [Hlt|Hge];
      cbn [fst snd].
    + repeat split; try lia.
      * intros i Hi. destruct (Z.eq_dec i (Z.of_nat (S c1))) as [->|]; [lia|].
        specialize (Hmin i ltac:(lia)). lia.
      * intros i Hi. specialize (Hmin i ltac:(lia)). lia.
    + repeat split; try lia; trivial.
      intros i Hi. destruct (Z.eq_dec i (Z.of_nat (S c1))) as [->|]; [lia|].
      apply Hmin. lia.
Qed.

(** ** A makespan of 0 *)

Lemma rising_last_zero l : forall prev,
  0 <= prev -> rising prev l -> last l prev = 0 ->
  prev = 0 /\ Forall (fun x => x = 0) l.
Proof.
  induction l as [|x l IH]; intros prev Hp Hr Hl; simpl in Hr.
  - simpl in Hl. auto.
  - rewrite last_cons in Hl.
    destruct (IH x ltac:(lia) ltac:(tauto) Hl) as [Hx Hall].
    split; [lia|]. constructor; assumption.
Qed.

Lemma advance_zero above : forall ps prev,
  length above = length ps -> 0 <= prev ->
  Forall (fun x => 0 <= x) above -> Forall (fun x => 0 <= x) ps ->
  Forall (fun x => x = 0) (advance prev above ps) ->
  Forall (fun x => x = 0) above /\ Forall (fun x => x = 0) ps.
Proof.
  induction above as [|a above IH]; intros [|p ps] prev Hl Hprev Ha Hp Hz;
    simpl in *; try lia; [auto|].
  inversion Ha as [|? ? Ha1 Ha2]; inversion Hp as [|? ? Hp1 Hp2];
    inversion Hz as [|? ? Hz1 Hz2]; subst.
  destruct (IH ps (Z.max prev a + p)) as [IH1 IH2]; trivial; try lia.
  split; constructor; trivial; lia.
Qed.

Lemma finish_zero jobs : forall above,
  Forall (fun ps => length ps = length above) jobs ->
  Forall (Forall (fun x => 0 <= x)) jobs ->
  rising 0 above ->
  last (finish above jobs) 0 = 0 ->
  Forall (fun x => x = 0) above /\ Forall (Forall (fun x => x = 0)) jobs.
Proof.
  induction jobs as [|ps jobs IH]; intros above Hlen Hnn Hr Hl.
  - split; [|constructor]. now apply (rising_last_zero above 0).
  - inversion Hlen as [|? ? Hps Hjobs]; inversion Hnn as [|? ? Hp0 Hj0]; subst.
    change (finish above (ps :: jobs)) with (finish (advance 0 above ps) jobs) in Hl.
    assert (Hla : length (advance 0 above ps) = length above)
      by (rewrite advance_length; lia).
    destruct (IH (advance 0 above ps)) as [Hz Hjz]; trivial.
    + now rewrite Hla.
    + now apply advance_rising.
    + destruct (advance_zero above ps 0) as [H1 H2]; trivial; try lia.
      * now apply (rising_nonneg above 0).
      * split; [assumption | constructor; assumption].
Qed.

Lemma sumZ_zero l : Forall (fun x => x = 0) l -> sumZ l = 0.
Proof. induction 1; simpl; lia. Qed.

Lemma meet_le front : forall back A B,
  0 <= A + B ->
  Forall (fun x => 0 <= x <= A) front -> Forall (fun x => 0 <= x <= B) back ->
  meet front back <= A + B.
Proof.
  induction front as [|a front IH]; intros [|b back] A B HAB Hf Hb; simpl; try lia.
  inversion Hf; inversion Hb; subst.
  specialize (IH back A B HAB ltac:(assumption) ltac:(assumption)). lia.
Qed.

(** ** taillard_acceleration against the recomputation *)

Lemma total_time_zero_rows p m ids :
  Forall (Forall (fun x => x = 0)) (job_rows p m ids) -> total_time p m ids = 0.
Proof.
  unfold job_rows, total_time. induction ids as [|id ids IH]; intros H; [reflexivity|].
  simpl in H. inversion H; subst. simpl.
  rewrite sumZ_zero by assumption. rewrite IH by assumption. reflexivity.
Qed.

Section Optimal.
Variable processing_times : list (list Z).
Variables m cols : Z.
Variable sequence : list Z.
Variable k : Z.
Hypothesis Hrect : rectangular processing_times cols.
Hypothesis Hm : 0 <= m <= cols.
Hypothesis Hjobs : Forall (valid_job processing_times) sequence.
Hypothesis Hk : valid_job processing_times k.
Hypothesis Hnn : non_negative processing_times.
Hypothesis Hfit : total_time processing_times m (k :: sequence) <= INT_MAX.
Hypothesis Hrows : len sequence <= 799.
Hypothesis Hcols : m <= 60 /\ (1 <= len sequence -> m <= 59).

Let n : Z := len sequence.
Let v (i : Z) : Z :=
  meet (insert_row processing_times m sequence k i)
       (back_row processing_times m sequence i).

Lemma ideal_makespan_range i :
  0 <= v i <= total_time processing_times m (k :: sequence).
Proof.
  split; [apply meet_nonneg|].
  rewrite <- (total_parts processing_times m sequence k i).
  pose proof (total_time_nonneg processing_times m
                (firstn (Z.to_nat (i - 1)) sequence) Hnn).
  pose proof (total_time_nonneg processing_times m [k] Hnn).
  pose proof (total_time_nonneg processing_times m
                (skipn (Z.to_nat (i - 1)) sequence) Hnn).
  apply meet_le; [lia | |].
  - now apply insert_row_bounds.
  - now apply back_row_suffix_bounds.
Qed.

Lemma ideal_makespan_zero i :
  1 <= i <= n + 1 ->
  v i = 0 -> total_time processing_times m (k :: sequence) = 0.
Proof.
  unfold v. intros Hi Hv.
  rewrite <- (inserted_makespan_last processing_times m cols sequence k
                Hrect Hm Hjobs Hk Hnn i Hi) in Hv.
  rewrite <- (insert_at_total processing_times m sequence k i).
  apply total_time_zero_rows.
  apply (finish_zero _ (repeat 0 (Z.to_nat m))); trivial.
  - rewrite repeat_length.
    apply (job_rows_length processing_times m cols); trivial.
    now apply insert_at_valid.
  - now apply job_rows_nonneg.
  - clear. induction (Z.to_nat m) as [|c IH]; simpl; [trivial | split; [lia | exact IH]].
Qed.

Lemma taillard_acceleration_optimal junk :
  exists position makespan,
    taillard_acceleration junk sequence processing_times k m 0
    = Ok (position, makespan) /\
    1 <= position <= n + 1 /\
    calculate_completion_times (insert_at sequence position k) processing_times m 0
    = Ok (Scalar makespan) /\
    forall i, 1 <= i <= n + 1 ->
      exists c,
        calculate_completion_times (insert_at sequence i k) processing_times m 0
        = Ok (Scalar c) /\
        makespan <= c /\ (makespan <> 0 -> i < position -> makespan < c).
Proof.
  rewrite (taillard_acceleration_select processing_times m cols sequence k
             Hrect Hm Hjobs Hk Hrows Hcols junk 0 ltac:(lia)).
  assert (Hn : Z.of_nat (Z.to_nat (len sequence + 1)) = n + 1)
    by (unfold n, len; lia).
  rewrite (select_ext _ v).
  2:{ intros i Hi. apply makespan_wrap; trivial. fold n. lia. }
  assert (Hbf : forall i, 1 <= i <= n + 1 ->
            calculate_completion_times (insert_at sequence i k) processing_times m 0
            = Ok (Scalar (v i))).
  { intros i Hi. now apply (brute_force_scalar processing_times m cols). }
  destruct (Z.eq_dec (v 1) 0) as [Hz|Hnz].
  - assert (Hall : forall i, v i = 0).
    { intros i. pose proof (ideal_makespan_range i).
      rewrite (ideal_makespan_zero 1 ltac:(unfold n, len; lia) Hz) in *. lia. }
    rewrite select_zero by (intros; apply Hall). cbn [fst snd]. rewrite Hn.
    exists (n + 1), 0.
    split; [reflexivity|]. split; [unfold n, len; lia|].
    split; [rewrite Hbf by (unfold n, len; lia); now rewrite Hall|].
    intros i Hi. exists (v i). split; [now apply Hbf|]. rewrite Hall. lia.
  - assert (Hpos : forall i, 1 <= i <= Z.of_nat (Z.to_nat (len sequence + 1)) -> 0 < v i).
    { intros i Hi. pose proof (ideal_makespan_range i) as Hr.
      destruct (Z.eq_dec (v i) 0) as [Hi0|]; [|lia].
      exfalso. apply Hnz.
      pose proof (ideal_makespan_range 1) as Hr1.
      rewrite (ideal_makespan_zero i ltac:(lia) Hi0) in Hr1. lia. }
    destruct (select_positive v (Z.to_nat (len sequence + 1))
                ltac:(unfold len; lia) Hpos) as (Hb & Hv & Hmin & Hfirst).
    exists (snd (select v (Z.to_nat (len sequence + 1)))),
           (fst (select v (Z.to_nat (len sequence + 1)))).
    split; [reflexivity|]. split; [lia|].
    split; [rewrite Hbf by lia; now rewrite Hv|].
    intros i Hi. exists (v i). split; [now apply Hbf|].
    split; [apply Hmin; lia|]. intros _ Hlt. apply Hfirst. lia.
Qed.
End Optimal.

(** ** The accesses of tie_breaking *)

Lemma within_bind {St A B} (c : M St A) (k : A -> M St B) s :
  within_arrays (c s) ->
  (forall a s', c s = Ok (a, s') -> within_arrays (k a s')) ->
  within_arrays (bind c k s).
Proof.
  unfold bind. intros Hc Hk. destruct (c s) as [[a s']| |]; simpl in *; auto.
Qed.

Lemma within_eval {St A} (c : M St A) s :
  within_arrays (c s) -> within_arrays (eval c s).
Proof. unfold eval. destruct (c s) as [[a s']| |]; simpl; trivial. Qed.

Lemma within_view2 {St} b t i j (s : St) :
  0 <= i <= 800 -> 0 <= j <= 60 -> within_arrays (lift (view2 b t i j) s).
Proof. intros Hi Hj. unfold lift, view2. now rewrite in_array_true. Qed.

Lemma within_view1 {St} b t i (s : St) :
  0 <= i <= 800 -> within_arrays (lift (view1 b t i) s).
Proof. intros Hi. unfold lift, view1. now rewrite within_true by lia. Qed.

Lemma within_pt {St} p r c (s : St) : within_arrays (lift (pt_at p r c) s).
Proof.
  unfold lift, pt_at. destruct (within 0 (len p) r); simpl; trivial.
  destruct (within 0 (len (nth (Z.to_nat r) p [])) c); simpl; trivial.
Qed.

Lemma within_rd_fl i j s :
  0 <= i <= 800 -> 0 <= j <= 60 -> within_arrays (rd_fl i j s).
Proof. intros Hi Hj. unfold rd_fl. now rewrite in_array_true. Qed.

Lemma within_wr_fl i j v s :
  0 <= i <= 800 -> 0 <= j <= 60 -> within_arrays (wr_fl i j v s).
Proof. intros Hi Hj. unfold wr_fl. now rewrite in_array_true. Qed.

Lemma within_for_range {St} (body : Z -> M St unit) lo hi s :
  (forall x s0, lo <= x < hi -> within_arrays (body x s0)) ->
  within_arrays (for_range lo hi body s).
Proof.
  unfold for_range. intros H.
  assert (Hgen : forall count i s0,
            lo <= i -> i + Z.of_nat count <= Z.max lo hi ->
            within_arrays (for_loop count i body s0)).
  { induction count as [|count IH]; intros i s0 Hlo Hhi; simpl; trivial.
    apply within_bind; [apply H; lia|].
    intros a s' _. apply IH; lia. }
  apply Hgen; lia.
Qed.

Ltac within :=
  repeat first
    [ apply within_bind; [|intros ? ? _]
    | apply within_view2; lia
    | apply within_view1; lia
    | apply within_pt
    | apply within_rd_fl; lia
    | apply within_wr_fl; lia
    | match goal with
      | |- within_arrays ((if ?b then _ else _) _) => destruct b
      | |- within_arrays (when ?b _ _) => destruct b; unfold when
      end
    | exact I ].

Lemma within_tie_breaking processing_times e f ms k n m junk position :
  0 <= n <= 799 -> m <= 60 -> 0 <= position <= 800 ->
  within_arrays (tie_breaking processing_times e f ms k n m junk position).
Proof.
  intros Hn Hm Hp. unfold tie_breaking. apply within_eval.
  { apply within_bind; [apply within_view1; lia | intros best s' _].
    apply within_bind; [|intros; exact I].
    apply within_for_range. intros i s0 Hi. unfold tie_row.
    apply within_bind; [apply within_view1; lia | intros cur s1 _].
    destruct (cur =? best); unfold when; [|exact I].
    apply within_bind; [exact I | intros ? s2 _].
    apply within_bind; [exact I | intros ? s3 _].
    apply within_bind; [|intros ? s4 _].
    - destruct (Z.eqb_spec i n) as [->|Hne].
      + apply within_for_range. intros j s5 Hj.
        unfold tie_last_cell, add_it. within.
      + apply within_bind; [apply within_view2; lia | intros ? s5 _].
        apply within_bind; [apply within_pt | intros ? s6 _].
        apply within_bind; [apply within_wr_fl; lia | intros ? s7 _].
        apply within_for_range. intros j s8 Hj.
        unfold tie_inner_cell, add_it. within.
    - within. }
Qed.

Lemma select_position_range (v : Z -> Z) count :
  0 <= snd (select v count) <= Z.of_nat count.
Proof.
  induction count as [|c IH]; [simpl; lia|].
  cbn [select]. destruct (better _ _); cbn [snd]; lia.
Qed.

Lemma advance_zeros_last ps : forall prev,
  0 <= prev -> Forall (fun x => 0 <= x) ps ->
  last (advance prev (repeat 0 (length ps)) ps) prev = prev + sumZ ps.
Proof.
  induction ps as [|p ps IH]; intros prev Hp Hnn; [simpl; lia|].
  inversion Hnn; subst.
  cbn [length repeat advance_by]. rewrite last_cons.
  rewrite IH by (trivial; lia). simpl. lia.
Qed.

(** * taillard_acceleration: the claims *)

(** C1, as amended.  For a sequence of length at most 8 with distinct job
    ids, a machine count of at most 4, a rectangular matrix of non-negative
    processing times whose sum over the jobs involved (the sequence and the
    inserted job) is at most [INT_MAX], and an inserted job not in the
    sequence: the makespan returned with [use_tie_breaking = 0] is the
    minimum, over the n+1 insertion positions, of the scalar that
    [calculate_completion_times] returns for the sequence with the job put
    at that position; it is attained at the returned position; and when it
    is not 0, the returned position is the smallest one that attains it. *)
Theorem taillard_acceleration_brute_force junk sequence processing_times cols m k :
  len sequence <= 8 -> m <= 4 ->
  valid_input processing_times cols m (k :: sequence) ->
  non_negative processing_times ->
  NoDup sequence -> ~ In k sequence ->
  total_time processing_times m (k :: sequence) <= INT_MAX ->
  exists position makespan,
    taillard_acceleration junk sequence processing_times k m 0
    = Ok (position, makespan) /\
    1 <= position <= len sequence + 1 /\
    calculate_completion_times (insert_at sequence position k) processing_times m 0
    = Ok (Scalar makespan) /\
    forall i, 1 <= i <= len sequence + 1 ->
      exists c,
        calculate_completion_times (insert_at sequence i k) processing_times m 0
        = Ok (Scalar c) /\
        makespan <= c /\ (makespan <> 0 -> i < position -> makespan < c).
Proof.
  intros Hn Hm4 (Hrect & Hm & Hjobs) Hnn _ _ Hfit.
  inversion Hjobs as [|? ? Hk Hseq]; subst.
  apply (taillard_acceleration_optimal processing_times m cols sequence k);
    trivial; lia.
Qed.

Lemma taillard_acceleration_brute_force_witness :
  exists position makespan,
    taillard_acceleration junk_zero [1; 2] p_three 3 2 0 = Ok (position, makespan) /\
    1 <= position <= 2 + 1 /\
    calculate_completion_times (insert_at [1; 2] position 3) p_three 2 0
    = Ok (Scalar makespan) /\
    forall i, 1 <= i <= 2 + 1 ->
      exists c,
        calculate_completion_times (insert_at [1; 2] i 3) p_three 2 0
        = Ok (Scalar c) /\
        makespan <= c /\ (makespan <> 0 -> i < position -> makespan < c).
Proof.
  apply (taillard_acceleration_brute_force junk_zero [1; 2] p_three 2 2 3).
  - vm_compute. discriminate.
  - lia.
  - solve_valid.
  - solve_valid.
  - repeat constructor; simpl; intuition lia.
  - simpl. intuition lia.
  - vm_compute. discriminate.
Defined.

(** C1 as stated fails in two ways.  When every processing time is 0 all
    positions have makespan 0 and the last position, not the first, is
    returned.  When the processing times add up to more than [INT_MAX] the
    returned makespan, 0, is not the minimum of the recomputed scalars,
    -2^31 at both positions. *)
Lemma taillard_acceleration_not_brute_force :
  (taillard_acceleration junk_zero [1] p_zero 2 1 0 = Ok (2, 0) /\
   calculate_completion_times (insert_at [1] 1 2) p_zero 1 0 = Ok (Scalar 0) /\
   calculate_completion_times (insert_at [1] 2 2) p_zero 1 0 = Ok (Scalar 0) /\
   valid_input p_zero 1 1 [2; 1] /\ non_negative p_zero) /\
  (taillard_acceleration junk_zero [1] p_full 2 1 0 = Ok (2, 0) /\
   calculate_completion_times (insert_at [1] 1 2) p_full 1 0
   = Ok (Scalar (-2147483648)) /\
   calculate_completion_times (insert_at [1] 2 2) p_full 1 0
   = Ok (Scalar (-2147483648)) /\
   valid_input p_full 1 1 [2; 1] /\ non_negative p_full).
Proof.
  split; (repeat split; try reflexivity; solve_valid).
Qed.

(** C4.  With [p[job1] = [3,2]], [p[job2] = [2,4]], [p[job3] = [1,1]] and 2
    machines, [taillard_acceleration([job1, job2], p, job3, 2, 0)] returns
    position 1 and makespan 10, whatever the stack held; each of the three
    insertion positions has makespan 10. *)
Theorem scenario2_first_of_three_ties junk :
  taillard_acceleration junk [1; 2] p_three 3 2 0 = Ok (1, 10) /\
  calculate_completion_times (insert_at [1; 2] 1 3) p_three 2 0 = Ok (Scalar 10) /\
  calculate_completion_times (insert_at [1; 2] 2 3) p_three 2 0 = Ok (Scalar 10) /\
  calculate_completion_times (insert_at [1; 2] 3 3) p_three 2 0 = Ok (Scalar 10).
Proof. repeat split; vm_compute; reflexivity. Qed.

(** C2, as amended.  For every call whose sequence length is at most 799
    and whose machine count is between 0 and 59, on a matrix that has a row
    for every job involved and at least [m] columns: the body of
    [taillard_acceleration] (lines 42-94) runs to its end, so none of its
    reads and writes of [e], [q], [f] and [ms] leaves the declared bounds;
    and whatever [use_tie_breaking] is, the call as a whole makes no access
    outside a static array. *)
Theorem scratch_accesses_within_bounds junk sequence processing_times cols m k t :
  len sequence <= 799 -> m <= 59 ->
  valid_input processing_times cols m (k :: sequence) ->
  (exists s, taillard_tables sequence processing_times k m (Frame.enter junk)
             = Ok (tt, s)) /\
  within_arrays (taillard_acceleration junk sequence processing_times k m t).
Proof.
  intros Hn Hm59 (Hrect & Hm & Hjobs).
  inversion Hjobs as [|? ? Hk Hseq]; subst.
  destruct (taillard_tables_select processing_times m cols sequence k
              Hrect Hm Hseq Hk Hn ltac:(lia) junk) as (s & Hrun & Hsel).
  split; [exists s; exact Hrun|].
  unfold taillard_acceleration. rewrite Hrun.
  destruct (t >? 0); [|exact I].
  pose proof (within_tie_breaking processing_times (Frame.e s) (Frame.f s)
                (Frame.ms s) k (len sequence) m junk (Frame.best_position s)) as Hw.
  assert (Hpos : 0 <= Frame.best_position s <= 800).
  { pose proof (select_position_range
                  (makespan_by add32 processing_times m sequence k)
                  (Z.to_nat (len sequence + 1))) as Hr.
    rewrite <- Hsel in Hr. cbn [snd] in Hr. unfold len in *. lia. }
  specialize (Hw ltac:(unfold len in *; lia) ltac:(lia) Hpos).
  destruct (tie_breaking _ _ _ _ _ _ _ _ _); simpl in *; trivial.
Qed.

Lemma scratch_accesses_within_bounds_witness :
  (exists s, taillard_tables [1; 2] p_three 3 2 (Frame.enter junk_zero) = Ok (tt, s)) /\
  within_arrays (taillard_acceleration junk_zero [1; 2] p_three 3 2 1).
Proof.
  apply (scratch_accesses_within_bounds junk_zero [1; 2] p_three 2 2 3 1);
    [vm_compute; discriminate | lia | solve_valid].
Defined.

(** C2 as stated fails at both limits: with 60 machines the write
    [q[iq][num_machines + 1] = 0] of line 52 uses column 61, and with a
    sequence of 800 jobs the write [f[i][0] = 0] of line 54 uses row 801. *)
Lemma scratch_access_out_of_bounds :
  taillard_acceleration junk_zero [1] p_wide 2 60 0 = OutOfBounds Bq 1 61 /\
  taillard_acceleration junk_zero (map Z.of_nat (seq 1 800)) (repeat [] 801) 801 0 0
  = OutOfBounds Bf 801 0.
Proof. split; vm_compute; reflexivity. Qed.

(** C3: its determinism holds without tie-breaking, whatever the stack
    held before the call (for the inputs of C2, as amended). *)
Lemma taillard_acceleration_ignores_stack junk1 junk2 sequence processing_times
    cols m k t :
  len sequence <= 799 -> m <= 59 -> t <= 0 ->
  valid_input processing_times cols m (k :: sequence) ->
  taillard_acceleration junk1 sequence processing_times k m t
  = taillard_acceleration junk2 sequence processing_times k m t.
Proof.
  intros Hn Hm59 Ht (Hrect & Hm & Hjobs).
  inversion Hjobs as [|? ? Hk Hseq]; subst.
  now rewrite !(taillard_acceleration_select processing_times m cols sequence k
                  Hrect Hm Hseq Hk Hn ltac:(lia) _ t Ht).
Qed.

(** C3 fails with tie-breaking, in two places.  On the inputs of C4 with
    [use_tie_breaking = 1], [tie_breaking] reads [e[3][2]] (line 150), an
    entry that [taillard_acceleration] never writes: when the stack held 0
    there the call returns position 1, when it held 11 position 3.  With
    three machines line 157 reads [fl[i][j]] before anything was written to
    it: when the stack held 0 there the call returns position 1, when it
    held 10 position 2. *)
Theorem tie_breaking_reads_the_stack :
  (taillard_acceleration junk_zero [1; 2] p_three 3 2 1 = Ok (1, 10) /\
   taillard_acceleration (junk_e 3 2 11) [1; 2] p_three 3 2 1 = Ok (3, 10)) /\
  (taillard_acceleration junk_zero [1; 2] p_ones 3 3 1 = Ok (1, 5) /\
   taillard_acceleration (junk_fl 10) [1; 2] p_ones 3 3 1 = Ok (2, 5)).
Proof. repeat split; vm_compute; reflexivity. Qed.

(** C5, as amended.  For a matrix that has a row for the inserted job and
    at least [m] columns, [m] at most 60, non-negative processing times,
    and a sum of the inserted job's processing times over machines 1..m of
    at most [INT_MAX]: the call with an empty sequence and
    [use_tie_breaking = 0] returns position 1 and that sum as makespan. *)
Theorem empty_sequence_makespan junk processing_times cols m k :
  valid_input processing_times cols m [k] -> m <= 60 ->
  non_negative processing_times ->
  sumZ (job_times processing_times m k) <= INT_MAX ->
  taillard_acceleration junk [] processing_times k m 0
  = Ok (1, sumZ (job_times processing_times m k)).
Proof.
  intros (Hrect & Hm & Hjobs) Hm60 Hnn Hfit.
  inversion Hjobs as [|? ? Hk _]; subst.
  assert (Htot : total_time processing_times m [k] <= INT_MAX)
    by (unfold total_time; simpl; lia).
  rewrite (taillard_acceleration_select processing_times m cols [] k
             Hrect Hm (Forall_nil _) Hk ltac:(unfold len; simpl; lia)
             ltac:(unfold len; simpl; lia) junk 0 ltac:(lia)).
  change (Z.to_nat (len (@nil Z) + 1)) with 1%nat.
  assert (Hs : forall v, select v 1 = (v 1, 1)).
  { intros v. cbn [select fst]. unfold better. now rewrite orb_true_r. }
  rewrite Hs. cbn [fst snd]. do 2 f_equal.
  rewrite (makespan_wrap processing_times m [] k Hnn Htot 1 ltac:(unfold len; simpl; lia)).
  pose proof (job_times_length processing_times m cols Hrect Hm k Hk) as Hl.
  pose proof (job_times_nonneg processing_times m k Hnn) as Hp.
  assert (Hins : insert_row processing_times m [] k 1
                 = advance 0 (repeat 0 (length (job_times processing_times m k)))
                           (job_times processing_times m k)).
  { unfold insert_row_by, head_row_by, len in *. simpl.
    now replace (Z.to_nat m) with (length (job_times processing_times m k)) by lia. }
  assert (Hback : back_row processing_times m [] 1
                  = repeat 0 (length (insert_row processing_times m [] k 1))).
  { rewrite Hins, advance_length by now rewrite repeat_length.
    unfold back_row_by, len in *. simpl. f_equal. lia. }
  rewrite Hback.
  pose proof (meet_zeros (insert_row processing_times m [] k 1) 0 ltac:(lia)
                ltac:(rewrite Hins; now apply advance_rising)) as Hmeet.
  pose proof (meet_nonneg Z.add (insert_row processing_times m [] k 1)
                (repeat 0 (length (insert_row processing_times m [] k 1)))).
  rewrite Z.max_r in Hmeet by assumption. rewrite Hmeet, Hins.
  now rewrite advance_zeros_last by (trivial; lia).
Qed.

Lemma empty_sequence_makespan_witness :
  taillard_acceleration junk_zero [] p_three 3 2 0 = Ok (1, sumZ (job_times p_three 2 3)).
Proof.
  apply (empty_sequence_makespan junk_zero p_three 2 2 3);
    [solve_valid | lia | solve_valid | vm_compute; discriminate].
Defined.

(** C5 as stated fails: for one job with processing times 2147483647 and 1
    the call returns the makespan 2147483647, which is neither the sum of
    the two, 2147483648, nor that sum as an [int], -2147483648. *)
Lemma empty_sequence_makespan_overflow :
  taillard_acceleration junk_zero [] p_long 1 2 0 = Ok (1, 2147483647) /\
  sumZ (job_times p_long 2 1) = 2147483648 /\
  wrap (sumZ (job_times p_long 2 1)) = -2147483648 /\
  valid_input p_long 2 2 [1] /\ non_negative p_long.
Proof. repeat split; try reflexivity; solve_valid. Qed.

(** * Further properties *)

(** ** calculate_completion_times: what the table holds *)

Section CompletionWrapped.
Variable processing_times : list (list Z).
Variables m cols : Z.
Variable sequence : list Z.
Hypothesis Hrect : rectangular processing_times cols.
Hypothesis Hm : 0 <= m <= cols.
Hypothesis Hjobs : Forall (valid_job processing_times) sequence.

Let n : Z := len sequence.
Let E := head_row_by add32 processing_times m sequence.

(** Rows below [i] hold their final values, and so do the columns below
    [j] of row [i]. *)
Let filled (i j : Z) (a : ndarray) : Prop :=
  shaped m sequence a /\
  forall i' j', 0 <= i' <= i -> 0 <= j' <= m -> (i' = i -> j' < j) ->
    data a i' j' = col (E i') j'.

Lemma completion_cell_wraps a i j :
  1 <= i <= n -> 1 <= j <= m -> filled i j a ->
  exists a', completion_cell sequence processing_times i j a = Ok (tt, a')
             /\ filled i (j + 1) a'.
Proof.
  intros Hi Hj [[Hr Hc] Hold].
  rewrite (completion_cell_run processing_times m cols sequence Hrect Hm Hjobs)
    by trivial.
  eexists. split; [reflexivity|]. cbv zeta.
  assert (Hd : forall i' j', 0 <= i' <= i -> 0 <= j' <= m -> (i' = i -> j' < j) ->
               (if i =? 1 then upd2 (data a) 0 j 0 else data a) i' j'
               = col (E i') j').
  { intros i' j' Hi' Hj' Hlt. destruct (Z.eqb_spec i 1); [|now apply Hold].
    unfold upd2.
    destruct (Z.eqb_spec i' 0), (Z.eqb_spec j' j); simpl; try (apply Hold; lia).
    subst. unfold E. now rewrite head_col_zero. }
  split; [split; reflexivity|]. simpl. intros i' j' Hi' Hj' Hlt.
  destruct (Z.eq_dec i' i) as [->|]; [destruct (Z.eq_dec j' j) as [->|]|].
  - rewrite upd2_same, !Hd by lia. unfold E.
    rewrite (head_col_step add32 processing_times m cols sequence Hrect Hm Hjobs i j)
      by trivial.
    now rewrite Z.max_comm.
  - rewrite upd2_other by lia. apply Hd; lia.
  - rewrite upd2_other by lia. apply Hd; lia.
Qed.

Lemma completion_row_wraps a i :
  1 <= i <= n -> filled i 0 a ->
  exists a', completion_row sequence processing_times m i a = Ok (tt, a')
             /\ filled (i + 1) 0 a'.
Proof.
  intros Hi [[Hr Hc] Hold]. unfold completion_row.
  erewrite bind_ok by (apply run_setitem; unfold n in Hi; lia).
  destruct (for_range_inv (filled i) (completion_cell sequence processing_times i)
              1 (m + 1) (mk_ndarray (nrows a) (ncols a) (upd2 (data a) i 0 0)))
    as [a' [Ha' [Hs' Hd']]].
  - lia.
  - split; [split; assumption|]. simpl. intros i' j' Hi' Hj' Hlt.
    destruct (Z.eq_dec i' i) as [->|].
    + replace j' with 0 by lia. rewrite upd2_same. now rewrite col_low.
    + rewrite upd2_other by lia. apply Hold; lia.
  - intros j a0 Hj Ha0. apply completion_cell_wraps; trivial; lia.
  - exists a'. split; [assumption|]. split; [assumption|].
    intros i' j' Hi' Hj' Hlt. apply Hd'; lia.
Qed.

Lemma completion_loop_wraps :
  exists a', for_range 1 (n + 1) (completion_row sequence processing_times m)
               (mk_ndarray (n + 1) (m + 1) (fun _ _ => 0)) = Ok (tt, a')
             /\ filled (n + 1) 0 a'.
Proof.
  apply (for_range_inv (fun i => filled i 0)); [unfold n, len; lia | |].
  - split; [split; reflexivity|]. simpl. intros i' j' Hi' Hj' Hlt.
    replace i' with 0 by lia. unfold E. now rewrite head_col_zero.
  - intros i a0 Hi Ha0. apply completion_row_wraps; [lia | assumption].
Qed.
End CompletionWrapped.

Lemma completion_table_wraps sequence processing_times cols m :
  valid_input processing_times cols m sequence ->
  exists e, nrows e = len sequence + 1 /\ ncols e = m + 1 /\
    (forall i j, 0 <= i <= len sequence -> 0 <= j <= m ->
                 data e i j = col (head_row_by add32 processing_times m sequence i) j) /\
    forall r, calculate_completion_times sequence processing_times m r
              = Ok (if r >? 0 then Table e else Scalar (data e (len sequence) m)).
Proof.
  intros (Hrect & Hm & Hjobs).
  destruct (completion_loop_wraps processing_times m cols sequence Hrect Hm Hjobs)
    as [e [Hloop [[Hr Hc] Hrows]]].
  exists e. repeat split; trivial.
  - intros i j Hi Hj. apply Hrows; lia.
  - intros r. apply calculate_completion_times_run; trivial; lia.
Qed.

(** X1.  For every rectangular matrix and every sequence of valid job
    ids, [calculate_completion_times] returns a table of [n+1] rows and
    [m+1] columns whose row 0 and column 0 are zero and whose other
    entries obey the recurrence of lines 196-199 in 32-bit arithmetic:
    [e[i][j] = max(e[i-1][j], e[i][j-1]) + p[sequence[i-1]-1][j-1]], the
    sum wrapped to an [int].  No bound on the times is needed. *)
Theorem completion_table_recurrence sequence processing_times cols m :
  valid_input processing_times cols m sequence ->
  exists e,
    calculate_completion_times sequence processing_times m 1 = Ok (Table e) /\
    nrows e = len sequence + 1 /\ ncols e = m + 1 /\
    (forall j, 0 <= j <= m -> data e 0 j = 0) /\
    (forall i, 0 <= i <= len sequence -> data e i 0 = 0) /\
    (forall i j, 1 <= i <= len sequence -> 1 <= j <= m ->
       data e i j
       = add32 (Z.max (data e (i - 1) j) (data e i (j - 1)))
               (time_of processing_times (nth (Z.to_nat (i - 1)) sequence 0) j)).
Proof.
  intros Hv.
  destruct (completion_table_wraps sequence processing_times cols m Hv)
    as [e (Hr & Hc & Hrows & Hrun)].
  destruct Hv as (Hrect & Hm & Hjobs).
  assert (Hn : 0 <= len sequence) by (unfold len; lia).
  exists e. split; [apply (Hrun 1)|]. repeat split; trivial.
  - intros j Hj. rewrite Hrows by lia. apply head_col_zero.
  - intros i Hi. rewrite Hrows by lia. apply col_low. lia.
  - intros i j Hi Hj. rewrite !Hrows by lia.
    rewrite (head_col_step add32 processing_times m cols sequence Hrect Hm Hjobs i j)
      by trivial.
    rewrite col_job_times by trivial. now rewrite Z.max_comm.
Qed.

Lemma completion_table_recurrence_witness :
  exists e,
    calculate_completion_times [1; 2] p_two 2 1 = Ok (Table e) /\
    nrows e = 3 /\ ncols e = 3 /\
    (forall j, 0 <= j <= 2 -> data e 0 j = 0) /\
    (forall i, 0 <= i <= 2 -> data e i 0 = 0) /\
    (forall i j, 1 <= i <= 2 -> 1 <= j <= 2 ->
       data e i j
       = add32 (Z.max (data e (i - 1) j) (data e i (j - 1)))
               (time_of p_two (nth (Z.to_nat (i - 1)) [1; 2] 0) j)).
Proof. apply (completion_table_recurrence [1; 2] p_two 2 2). solve_valid. Defined.

(** X2.  When the times are non-negative and the total time of the
    sequence fits an [int], nothing wraps: the entries obey the recurrence
    over the integers, and every entry of row [i] lies between 0 and the
    total time of the first [i] jobs. *)
Theorem completion_table_exact sequence processing_times cols m :
  valid_input processing_times cols m sequence ->
  non_negative processing_times ->
  total_time processing_times m sequence <= INT_MAX ->
  exists e,
    calculate_completion_times sequence processing_times m 1 = Ok (Table e) /\
    (forall i j, 1 <= i <= len sequence -> 1 <= j <= m ->
       data e i j
       = Z.max (data e (i - 1) j) (data e i (j - 1))
         + time_of processing_times (nth (Z.to_nat (i - 1)) sequence 0) j) /\
    (forall i j, 0 <= i <= len sequence -> 0 <= j <= m ->
       0 <= data e i j
         <= total_time processing_times m (firstn (Z.to_nat i) sequence)).
Proof.
  intros Hv Hnn Hfit.
  destruct (completion_table_rows sequence processing_times cols m Hv Hnn Hfit)
    as [e (Hr & Hc & Hrows & Hrun)].
  destruct Hv as (Hrect & Hm & Hjobs).
  exists e. split; [apply (Hrun 1)|]. split.
  - intros i j Hi Hj. rewrite !Hrows by lia.
    rewrite (E_step processing_times m cols sequence Hrect Hm Hjobs i j) by trivial.
    now rewrite col_job_times by trivial.
  - intros i j Hi Hj. rewrite Hrows by lia.
    pose proof (total_time_nonneg processing_times m (firstn (Z.to_nat i) sequence) Hnn).
    apply (col_Forall (fun x => 0 <= x
             <= total_time processing_times m (firstn (Z.to_nat i) sequence))); [lia|].
    now apply head_row_prefix_bounds.
Qed.

Lemma completion_table_exact_witness :
  exists e,
    calculate_completion_times [1; 2] p_two 2 1 = Ok (Table e) /\
    (forall i j, 1 <= i <= 2 -> 1 <= j <= 2 ->
       data e i j
       = Z.max (data e (i - 1) j) (data e i (j - 1))
         + time_of p_two (nth (Z.to_nat (i - 1)) [1; 2] 0) j) /\
    (forall i j, 0 <= i <= 2 -> 0 <= j <= 2 ->
       0 <= data e i j <= total_time p_two 2 (firstn (Z.to_nat i) [1; 2])).
Proof.
  apply (completion_table_exact [1; 2] p_two 2 2);
    [solve_valid | solve_valid | vm_compute; discriminate].
Defined.

(** ** Bounds on the makespan *)

Lemma sumZ_app l1 l2 : sumZ (l1 ++ l2) = sumZ l1 + sumZ l2.
Proof.
  unfold sumZ. induction l1 as [|x l1 IH]; simpl; [reflexivity | rewrite IH; lia].
Qed.

(** The last entry of a row is at least the work of its job. *)
Lemma advance_last_ge : forall above ps prev,
  length above = length ps ->
  prev + sumZ ps <= last (advance prev above ps) prev.
Proof.
  induction above as [|a above IH]; intros [|p ps] prev Hl; simpl in Hl; try lia.
  - simpl. lia.
  - cbn [advance_by]. cbv zeta. rewrite last_cons.
    specialize (IH ps (Z.max prev a + p) ltac:(lia)).
    unfold sumZ in *. simpl. lia.
Qed.

Section MakespanBounds.
Variable processing_times : list (list Z).
Variables m cols : Z.
Variable sequence : list Z.
Hypothesis Hrect : rectangular processing_times cols.
Hypothesis Hm : 0 <= m <= cols.
Hypothesis Hjobs : Forall (valid_job processing_times) sequence.
Hypothesis Hnn : non_negative processing_times.

Let n : Z := len sequence.
Let job (i : Z) : Z := nth (Z.to_nat (i - 1)) sequence 0.
Let E := head_row processing_times m sequence.

Lemma head_row_le_rows : forall d i j,
  0 <= i -> i + Z.of_nat d <= n -> 0 <= j <= m ->
  col (E i) j <= col (E (i + Z.of_nat d)) j.
Proof.
  destruct (head_row_monotone processing_times cols m sequence
              (conj Hrect (conj Hm Hjobs)) Hnn) as [Hdown _].
  induction d as [|d IH]; intros i j Hi Hd Hj.
  - replace (i + Z.of_nat 0) with i by lia. lia.
  - specialize (IH i j Hi ltac:(lia) Hj).
    specialize (Hdown (i + Z.of_nat (S d)) j ltac:(unfold n in Hd; lia) Hj).
    replace (i + Z.of_nat (S d) - 1) with (i + Z.of_nat d) in Hdown by lia.
    unfold E in *. lia.
Qed.

Lemma head_row_le_cols : forall d i j,
  0 <= i <= n -> 0 <= j -> j + Z.of_nat d <= m ->
  col (E i) j <= col (E i) (j + Z.of_nat d).
Proof.
  destruct (head_row_monotone processing_times cols m sequence
              (conj Hrect (conj Hm Hjobs)) Hnn) as [_ Hright].
  induction d as [|d IH]; intros i j Hi Hj Hd.
  - replace (j + Z.of_nat 0) with j by lia. lia.
  - specialize (IH i j Hi Hj ltac:(lia)).
    specialize (Hright i (j + Z.of_nat (S d)) ltac:(unfold n in Hi; lia) ltac:(lia)).
    replace (j + Z.of_nat (S d) - 1) with (j + Z.of_nat d) in Hright by lia.
    unfold E in *. lia.
Qed.

(** The job at position [i] is done on the last machine no earlier than
    its own work takes. *)
Lemma head_row_job_work i :
  1 <= i <= n -> sumZ (job_times processing_times m (job i)) <= col (E i) m.
Proof.
  intros Hi.
  pose proof (job_times_length processing_times m cols Hrect Hm (job i)
                (job_at_valid processing_times sequence Hjobs i Hi)) as Hl.
  pose proof (head_row_length Z.add processing_times m cols sequence Hrect Hm Hjobs
                (i - 1) ltac:(unfold n in Hi; lia)) as Hh.
  pose proof (head_row_length Z.add processing_times m cols sequence Hrect Hm Hjobs
                i ltac:(unfold n in Hi; lia)) as Hi'.
  unfold E.
  replace (col (head_row processing_times m sequence i) m)
    with (last (head_row processing_times m sequence i) 0)
    by (rewrite <- col_last; now rewrite Hi').
  rewrite (head_row_step Z.add processing_times m sequence i Hi).
  fold (job i).
  pose proof (advance_last_ge (head_row processing_times m sequence (i - 1))
                (job_times processing_times m (job i)) 0
                ltac:(unfold len in *; lia)).
  lia.
Qed.

(** Machine [j] has done the work of the first [i] jobs by the time it
    completes the job at position [i]. *)
Lemma head_row_machine_work j : forall d,
  1 <= j <= m -> Z.of_nat d <= n ->
  machine_load processing_times (firstn d sequence) j <= col (E (Z.of_nat d)) j.
Proof.
  intros d Hj. induction d as [|d IH]; intros Hd.
  - simpl. unfold machine_load, E. simpl. rewrite head_col_zero. reflexivity.
  - rewrite (firstn_snoc 0) by (unfold n, len in Hd; lia).
    unfold machine_load in *. rewrite map_app, sumZ_app.
    cbn [map]. unfold sumZ at 2. cbn [fold_right].
    specialize (IH ltac:(lia)).
    pose proof (E_step processing_times m cols sequence Hrect Hm Hjobs
                  (Z.of_nat (S d)) j ltac:(unfold n in Hd; lia) Hj) as Hstep.
    cbv beta zeta in Hstep.
    replace (Z.of_nat (S d) - 1) with (Z.of_nat d) in Hstep by lia.
    rewrite Nat2Z.id in Hstep.
    rewrite col_job_times in Hstep by trivial.
    unfold E in *. lia.
Qed.
End MakespanBounds.

(** X3.  Without overflow, the makespan that [calculate_completion_times]
    returns is at least the work of every job of the sequence (the sum of
    its times over the machines), at least the work of every machine (the
    sum over the jobs), and at most the total time. *)
Theorem makespan_bounds sequence processing_times cols m :
  valid_input processing_times cols m sequence ->
  non_negative processing_times ->
  total_time processing_times m sequence <= INT_MAX ->
  exists c,
    calculate_completion_times sequence processing_times m 0 = Ok (Scalar c) /\
    (forall id, In id sequence -> sumZ (job_times processing_times m id) <= c) /\
    (forall j, 1 <= j <= m -> machine_load processing_times sequence j <= c) /\
    0 <= c <= total_time processing_times m sequence.
Proof.
  intros Hv Hnn Hfit.
  destruct (completion_table_rows sequence processing_times cols m Hv Hnn Hfit)
    as [e (Hr & Hc & Hrows & Hrun)].
  destruct Hv as (Hrect & Hm & Hjobs).
  assert (Hn : 0 <= len sequence) by (unfold len; lia).
  exists (data e (len sequence) m). split; [apply (Hrun 0)|].
  rewrite Hrows by lia. repeat split.
  - intros id Hin. destruct (In_nth _ _ 0 Hin) as (x & Hx & <-).
    pose proof (head_row_job_work processing_times m cols sequence Hrect Hm Hjobs
                  (Z.of_nat x + 1) ltac:(unfold len; lia)) as Hjob.
    cbv beta zeta in Hjob.
    replace (Z.to_nat (Z.of_nat x + 1 - 1)) with x in Hjob by lia.
    pose proof (head_row_le_rows processing_times m cols sequence Hrect Hm Hjobs Hnn
                  (length sequence - S x) (Z.of_nat x + 1) m
                  ltac:(lia) ltac:(unfold len; lia) ltac:(lia)) as Hle.
    cbv beta zeta in Hle.
    replace (Z.of_nat x + 1 + Z.of_nat (length sequence - S x))
      with (len sequence) in Hle by (unfold len; lia).
    lia.
  - intros j Hj.
    pose proof (head_row_machine_work processing_times m cols sequence Hrect Hm Hjobs
                  j (length sequence) Hj ltac:(unfold len; lia)) as Hload.
    cbv beta zeta in Hload. rewrite firstn_all in Hload.
    pose proof (head_row_le_cols processing_times m cols sequence Hrect Hm Hjobs Hnn
                  (Z.to_nat (m - j)) (len sequence) j
                  ltac:(lia) ltac:(lia) ltac:(lia)) as Hle.
    cbv beta zeta in Hle.
    replace (j + Z.of_nat (Z.to_nat (m - j))) with m in Hle by lia.
    fold (len sequence) in Hload. lia.
  - apply head_row_range; assumption.
  - apply head_row_range; assumption.
Qed.

Lemma makespan_bounds_witness :
  exists c,
    calculate_completion_times [1; 2] p_two 2 0 = Ok (Scalar c) /\
    (forall id, In id [1; 2] -> sumZ (job_times p_two 2 id) <= c) /\
    (forall j, 1 <= j <= 2 -> machine_load p_two [1; 2] j <= c) /\
    0 <= c <= total_time p_two 2 [1; 2].
Proof.
  apply (makespan_bounds [1; 2] p_two 2 2);
    [solve_valid | solve_valid | vm_compute; discriminate].
Defined.

(** ** Longer sequences *)

Lemma head_row_prefix add processing_times m sequence more i :
  0 <= i <= len sequence ->
  head_row_by add processing_times m (sequence ++ more) i
  = head_row_by add processing_times m sequence i.
Proof.
  intros Hi. unfold head_row_by. rewrite firstn_app.
  replace (Z.to_nat i - length sequence)%nat with O by (unfold len in Hi; lia).
  simpl. now rewrite app_nil_r.
Qed.

Lemma valid_input_prefix processing_times cols m sequence more :
  valid_input processing_times cols m (sequence ++ more) ->
  valid_input processing_times cols m sequence.
Proof.
  intros (Hrect & Hm & Hjobs). apply Forall_app in Hjobs.
  repeat split; tauto.
Qed.

(** X4.  The jobs that follow do not change what comes before: the table
    of a sequence and the table of the sequence with more jobs appended
    agree on the rows of the shorter one.  This holds with overflow too. *)
Theorem completion_table_prefix sequence more processing_times cols m :
  valid_input processing_times cols m (sequence ++ more) ->
  exists e e',
    calculate_completion_times sequence processing_times m 1 = Ok (Table e) /\
    calculate_completion_times (sequence ++ more) processing_times m 1
    = Ok (Table e') /\
    forall i j, 0 <= i <= len sequence -> 0 <= j <= m -> data e' i j = data e i j.
Proof.
  intros Hv.
  destruct (completion_table_wraps sequence processing_times cols m
              (valid_input_prefix _ _ _ _ _ Hv)) as [e (_ & _ & Hrows & Hrun)].
  destruct (completion_table_wraps (sequence ++ more) processing_times cols m Hv)
    as [e' (_ & _ & Hrows' & Hrun')].
  exists e, e'. split; [apply (Hrun 1)|]. split; [apply (Hrun' 1)|].
  intros i j Hi Hj.
  rewrite Hrows by trivial. rewrite Hrows'.
  - now rewrite head_row_prefix.
  - unfold len in *. rewrite length_app. lia.
  - trivial.
Qed.

Lemma completion_table_prefix_witness :
  exists e e',
    calculate_completion_times [1] p_two 2 1 = Ok (Table e) /\
    calculate_completion_times ([1] ++ [2]) p_two 2 1 = Ok (Table e') /\
    forall i j, 0 <= i <= len [1] -> 0 <= j <= 2 -> data e' i j = data e i j.
Proof. apply (completion_table_prefix [1] [2] p_two 2 2). solve_valid. Defined.

(** X5.  Without overflow, appending jobs to a sequence never lowers
    its makespan. *)
Theorem makespan_grows_with_sequence sequence more processing_times cols m :
  valid_input processing_times cols m (sequence ++ more) ->
  non_negative processing_times ->
  total_time processing_times m (sequence ++ more) <= INT_MAX ->
  exists c c',
    calculate_completion_times sequence processing_times m 0 = Ok (Scalar c) /\
    calculate_completion_times (sequence ++ more) processing_times m 0
    = Ok (Scalar c') /\
    c <= c'.
Proof.
  intros Hv Hnn Hfit.
  pose proof (valid_input_prefix _ _ _ _ _ Hv) as Hv0.
  assert (Hfit0 : total_time processing_times m sequence <= INT_MAX).
  { rewrite total_time_app in Hfit.
    pose proof (total_time_nonneg processing_times m more Hnn). lia. }
  destruct (completion_table_rows sequence processing_times cols m Hv0 Hnn Hfit0)
    as [e (_ & _ & Hrows & Hrun)].
  destruct (completion_table_rows (sequence ++ more) processing_times cols m Hv Hnn Hfit)
    as [e' (_ & _ & Hrows' & Hrun')].
  assert (Hlen : len (sequence ++ more) = len sequence + len more)
    by (unfold len; rewrite length_app; lia).
  assert (Hn : 0 <= len sequence) by (unfold len; lia).
  assert (Hn' : 0 <= len more) by (unfold len; lia).
  destruct Hv as (Hrect & Hm & Hjobs).
  exists (data e (len sequence) m), (data e' (len (sequence ++ more)) m).
  split; [apply (Hrun 0)|]. split; [apply (Hrun' 0)|].
  rewrite Hrows, Hrows' by lia.
  rewrite <- (head_row_prefix Z.add processing_times m sequence more (len sequence))
    by lia.
  pose proof (head_row_le_rows processing_times m cols (sequence ++ more)
                Hrect Hm Hjobs Hnn (length more) (len sequence) m
                ltac:(lia) ltac:(unfold len in *; lia) ltac:(lia)) as Hle.
  cbv beta zeta in Hle.
  replace (len sequence + Z.of_nat (length more)) with (len (sequence ++ more))
    in Hle by (unfold len in *; lia).
  exact Hle.
Qed.

Lemma makespan_grows_with_sequence_witness :
  exists c c',
    calculate_completion_times [1] p_two 2 0 = Ok (Scalar c) /\
    calculate_completion_times ([1] ++ [2]) p_two 2 0 = Ok (Scalar c') /\
    c <= c'.
Proof.
  apply (makespan_grows_with_sequence [1] [2] p_two 2 2);
    [solve_valid | solve_valid | vm_compute; discriminate].
Defined.

(** ** calculate_completion_times: job ids without a row in the matrix *)

Lemma valid_job_dec processing_times id :
  {valid_job processing_times id} + {~ valid_job processing_times id}.
Proof.
  unfold valid_job.
  destruct (Z_le_dec 1 id), (Z_le_dec id (len processing_times));
    [left | right | right | right]; lia.
Qed.

Section CompletionJobIds.
Variable processing_times : list (list Z).
Variables m cols : Z.
Variable sequence : list Z.
Hypothesis Hrect : rectangular processing_times cols.
Hypothesis Hm : 0 <= m <= cols.

Let n : Z := len sequence.
Let job (i : Z) : Z := nth (Z.to_nat (i - 1)) sequence 0.

Lemma completion_cell_local a i j :
  shaped m sequence a -> 1 <= i <= n -> 1 <= j <= m ->
  valid_job processing_times (job i) ->
  exists a', completion_cell sequence processing_times i j a = Ok (tt, a')
             /\ shaped m sequence a'.
Proof.
  intros [Hr Hc] Hi Hj Hid. unfold completion_cell.
  assert (Hs : seq_at sequence (i - 1) = Ok (job i))
    by (apply seq_at_ok; unfold n in Hi; lia).
  assert (Hp : pt_at processing_times (job i - 1) (j - 1)
               = Ok (col (job_times processing_times m (job i)) j))
    by (apply (pt_at_job processing_times m cols); trivial).
  assert (Hw : exists a0, when (i =? 1) (setitem Be 0 j 0) a = Ok (tt, a0)
                          /\ shaped m sequence a0).
  { unfold when. destruct (i =? 1).
    - rewrite run_setitem by (unfold n in Hi; lia).
      eexists. split; [reflexivity | split; assumption].
    - exists a. split; [reflexivity | split; assumption]. }
  destruct Hw as (a0 & Hw & Hr0 & Hc0).
  erewrite bind_ok by exact Hw.
  erewrite bind_ok by (apply run_getitem; unfold n in Hi; lia).
  erewrite bind_ok by (apply run_getitem; unfold n in Hi; lia).
  erewrite bind_lift by exact Hs. erewrite bind_lift by exact Hp.
  destruct (_ >? _); rewrite run_setitem by (unfold n in Hi; lia);
    eexists; (split; [reflexivity | split; assumption]).
Qed.

Lemma completion_row_local a i :
  shaped m sequence a -> 1 <= i <= n ->
  valid_job processing_times (job i) ->
  exists a', completion_row sequence processing_times m i a = Ok (tt, a')
             /\ shaped m sequence a'.
Proof.
  intros [Hr Hc] Hi Hid. unfold completion_row.
  erewrite bind_ok by (apply run_setitem; unfold n in Hi; lia).
  apply (for_range_inv (fun _ => shaped m sequence)); [lia | split; assumption |].
  intros j a0 Hj Ha0. apply completion_cell_local; trivial; lia.
Qed.

(** The first read of a row whose job has no row in the matrix. *)
Lemma completion_row_invalid a i :
  shaped m sequence a -> 1 <= i <= n -> 1 <= m ->
  ~ valid_job processing_times (job i) ->
  completion_row sequence processing_times m i a
  = OutOfBounds Bprocessing_times (job i - 1) 0.
Proof.
  intros [Hr Hc] Hi H1 Hid. unfold completion_row.
  erewrite bind_ok by (apply run_setitem; unfold n in Hi; lia).
  unfold for_range.
  replace (Z.to_nat (m + 1 - 1)) with (S (Z.to_nat (m - 1))) by lia.
  cbn [for_loop]. unfold completion_cell.
  assert (Hw : exists a0, when (i =? 1) (setitem Be 0 1 0)
                            (mk_ndarray (nrows a) (ncols a) (upd2 (data a) i 0 0))
                          = Ok (tt, a0) /\ shaped m sequence a0).
  { unfold when. destruct (i =? 1).
    - rewrite run_setitem by (simpl; unfold n in Hi; lia).
      eexists. split; [reflexivity | split; assumption].
    - eexists. split; [reflexivity | split; assumption]. }
  destruct Hw as (a0 & Hw & Hr0 & Hc0).
  unfold bind at 1. unfold bind at 1. rewrite Hw.
  erewrite bind_ok by (apply run_getitem; unfold n in Hi; lia).
  erewrite bind_ok by (apply run_getitem; unfold n in Hi; lia).
  erewrite bind_lift by (apply seq_at_ok; unfold n in Hi; lia).
  fold (job i). unfold bind, lift, pt_at.
  rewrite within_false by (unfold valid_job in Hid; lia).
  reflexivity.
Qed.

Lemma completion_loop_job_ids :
  1 <= m ->
  (Forall (valid_job processing_times) sequence /\
   exists a, for_range 1 (n + 1) (completion_row sequence processing_times m)
               (mk_ndarray (n + 1) (m + 1) (fun _ _ => 0)) = Ok (tt, a)
             /\ shaped m sequence a) \/
  (exists id, In id sequence /\ ~ valid_job processing_times id /\
     for_range 1 (n + 1) (completion_row sequence processing_times m)
       (mk_ndarray (n + 1) (m + 1) (fun _ _ => 0))
     = OutOfBounds Bprocessing_times (id - 1) 0).
Proof.
  intros H1. unfold for_range.
  destruct (for_loop_either
              (fun x a => shaped m sequence a /\
                          Forall (valid_job processing_times)
                                 (firstn (Z.to_nat (x - 1)) sequence))
              (fun b r c => b = Bprocessing_times /\ c = 0 /\
                            exists id, In id sequence /\
                                       ~ valid_job processing_times id /\ r = id - 1)
              (completion_row sequence processing_times m)
              (Z.to_nat (n + 1 - 1)) 1
              (mk_ndarray (n + 1) (m + 1) (fun _ _ => 0)))
    as [[a [Ea [Hs Hall]]] | [b [r [c [Ea (-> & -> & id & Hin & Hbad & ->)]]]]].
  - split; [split; reflexivity | constructor].
  - intros x a [Hx1 Hx2] [Hs Hall].
    assert (Hx : 1 <= x <= n) by lia.
    destruct (valid_job_dec processing_times (job x)) as [Hid|Hid].
    + left. destruct (completion_row_local a x Hs Hx Hid) as (a' & Ea' & Hs').
      exists a'. split; [assumption|]. split; [assumption|].
      replace (Z.to_nat (x + 1 - 1)) with (S (Z.to_nat (x - 1))) by lia.
      rewrite (firstn_snoc 0) by (unfold n, len in Hx; lia).
      apply Forall_app. split; [assumption|]. constructor; [exact Hid | constructor].
    + right. exists Bprocessing_times, (job x - 1), 0.
      split; [now apply completion_row_invalid|].
      repeat split. exists (job x). repeat split; trivial.
      apply nth_In. unfold n, len in Hx. lia.
  - left.
    replace (Z.to_nat (1 + Z.of_nat (Z.to_nat (n + 1 - 1)) - 1))
      with (length sequence) in Hall by (unfold n, len; lia).
    rewrite firstn_all in Hall. split; [assumption|]. exists a. auto.
  - right. exists id. auto.
Qed.
End CompletionJobIds.

(** X6.  [calculate_completion_times] does not check the job ids of the
    sequence, and reads the matrix without bounds checks.  With at least
    one machine, every access of the call is inside its buffer exactly
    when every id has a row in the matrix; otherwise the first access
    outside a buffer is the read [processing_times[id - 1, 0]] (lines
    196-199) for an id of the sequence that has no row.  What the call
    goes on to compute from what it read there is not described. *)
Theorem completion_times_job_ids_unchecked sequence processing_times cols m r :
  rectangular processing_times cols -> 1 <= m <= cols ->
  (in_bounds (calculate_completion_times sequence processing_times m r)
   <-> Forall (valid_job processing_times) sequence) /\
  (~ Forall (valid_job processing_times) sequence ->
   exists id, In id sequence /\ ~ valid_job processing_times id /\
     first_stray_access (calculate_completion_times sequence processing_times m r)
       Bprocessing_times (id - 1) 0).
Proof.
  unfold in_bounds, first_stray_access. intros Hrect Hm.
  assert (Hn : 0 <= len sequence) by (unfold len; lia).
  destruct (completion_loop_job_ids processing_times m cols sequence Hrect
              ltac:(lia) ltac:(lia))
    as [[Hall (a & Ea & Hr & Hc)] | (id & Hin & Hbad & Ea)].
  - pose proof (calculate_completion_times_run sequence processing_times m r a
                  ltac:(lia) Ea Hr Hc) as Hrun.
    split; [split|]; [trivial | intros _; eexists; exact Hrun | tauto].
  - assert (Hrun : calculate_completion_times sequence processing_times m r
                   = OutOfBounds Bprocessing_times (id - 1) 0).
    { unfold calculate_completion_times, zeros2.
      destruct (Z.ltb_spec (len sequence + 1) 0); [lia|].
      destruct (Z.ltb_spec (m + 1) 0); [lia|]. simpl.
      unfold eval, bind. now rewrite Ea. }
    assert (Hnot : ~ Forall (valid_job processing_times) sequence).
    { intros Hall. rewrite Forall_forall in Hall. auto. }
    split; [split|].
    + intros [res Hres]. rewrite Hrun in Hres. discriminate.
    + tauto.
    + intros _. exists id. auto.
Qed.

Lemma completion_times_job_ids_unchecked_witness :
  (in_bounds (calculate_completion_times [1; 3] p_two 2 0)
   <-> Forall (valid_job p_two) [1; 3]) /\
  (~ Forall (valid_job p_two) [1; 3] ->
   exists id, In id [1; 3] /\ ~ valid_job p_two id /\
     first_stray_access (calculate_completion_times [1; 3] p_two 2 0)
       Bprocessing_times (id - 1) 0).
Proof.
  apply (completion_times_job_ids_unchecked [1; 3] p_two 2 2 0);
    [solve_valid | lia].
Defined.

(** ** calculate_idle_times: the values *)

Lemma idle_term_exact processing_times cols m sequence x j :
  valid_input processing_times cols m sequence ->
  non_negative processing_times ->
  total_time processing_times m sequence <= INT_MAX ->
  0 <= x < len sequence -> 1 <= j <= m ->
  sub32 (sub32 (col (head_row processing_times m sequence (x + 1)) j)
               (col (job_times processing_times m (nth (Z.to_nat x) sequence 0)) j))
        (col (head_row processing_times m sequence x) j)
  = col (head_row processing_times m sequence (x + 1)) j
    - time_of processing_times (nth (Z.to_nat x) sequence 0) j
    - col (head_row processing_times m sequence x) j.
Proof.
  intros (Hrect & Hm & Hjobs) Hnn Hfit Hx Hj.
  pose proof (E_step processing_times m cols sequence Hrect Hm Hjobs (x + 1) j
                ltac:(lia) Hj) as Hstep.
  cbv beta zeta in Hstep. replace (x + 1 - 1) with x in Hstep by lia.
  pose proof (head_row_range processing_times m sequence x j Hnn) as Hup.
  pose proof (head_row_range processing_times m sequence (x + 1) (j - 1) Hnn) as Hleft.
  pose proof (head_row_range processing_times m sequence (x + 1) j Hnn) as Hnew.
  assert (Hp : 0 <= col (job_times processing_times m (nth (Z.to_nat x) sequence 0)) j).
  { apply (col_Forall (fun x => 0 <= x)); [lia|]. now apply job_times_nonneg. }
  rewrite <- (col_job_times processing_times m) by trivial.
  unfold INT_MAX in *.
  rewrite (sub32_small (col (head_row processing_times m sequence (x + 1)) j))
    by (unfold INT_MAX; lia).
  rewrite sub32_small by (unfold INT_MAX; lia).
  reflexivity.
Qed.

(** X7.  For a sequence of distinct job ids, all in [1, n], with
    non-negative times and [m] times the total time at most [INT_MAX],
    [calculate_idle_times] stores for the job at index [i] of the sequence,
    at index [id - 1] of the result, the sum over the machines of
    [e[i+1][j] - p[id-1][j-1] - e[i][j]], where [e] is the table of
    [calculate_completion_times]. *)
Theorem idle_times_values sequence processing_times cols m :
  valid_input processing_times cols m sequence ->
  non_negative processing_times ->
  ids_within (len sequence) sequence ->
  NoDup sequence ->
  m * total_time processing_times m sequence <= INT_MAX ->
  exists v e,
    calculate_idle_times sequence processing_times m = Ok v /\
    calculate_completion_times sequence processing_times m 1 = Ok (Table e) /\
    forall i, 0 <= i < len sequence ->
      items v (nth (Z.to_nat i) sequence 0 - 1)
      = waiting (data e) processing_times sequence m i.
Proof.
  intros Hv Hnn Hids Hdup HmT.
  set (T := total_time processing_times m sequence) in *.
  assert (HT0 : 0 <= T) by now apply total_time_nonneg.
  assert (HT : T <= INT_MAX).
  { destruct Hv as (_ & Hm & _). destruct (Z.eq_dec m 0) as [->|].
    - unfold T. rewrite total_time_zero. unfold INT_MAX. lia.
    - nia. }
  destruct (completion_table_rows sequence processing_times cols m Hv Hnn HT)
    as [e (Hr & Hc & Hrows & Hrun)].
  rewrite (calculate_idle_times_unfold _ _ _ e (Hrun 1)).
  pose proof Hv as (Hrect & Hm & Hjobs).
  set (W := waiting (data e) processing_times sequence m).
  set (term := fun x j => data e (x + 1) j
                          - time_of processing_times (nth (Z.to_nat x) sequence 0) j
                          - data e x j).
  assert (Hterm : forall x j, 0 <= x < len sequence -> 1 <= j <= m ->
            sub32 (sub32 (data e (x + 1) j)
                         (col (job_times processing_times m
                                 (nth (Z.to_nat x) sequence 0)) j))
                  (data e x j) = term x j /\ 0 <= term x j <= T).
  { intros x j Hx Hj. unfold term.
    pose proof (idle_term_exact processing_times cols m sequence x j
                  Hv Hnn HT Hx Hj) as Heq.
    pose proof (idle_term_range processing_times cols m sequence x j
                  Hv Hnn HT Hx Hj) as Hrange.
    rewrite <- !Hrows in Heq, Hrange by lia.
    fold T in Hrange. rewrite Heq in Hrange. split; [exact Heq | exact Hrange]. }
  destruct (for_range_inv
              (fun x v => size v = len sequence /\
                          forall i, 0 <= i < x ->
                            items v (nth (Z.to_nat i) sequence 0 - 1) = W i)
              (idle_row sequence processing_times m e) 0 (len sequence)
              (mk_ndvector (len sequence) (fun _ => 0)))
    as [v [Ev [Hs Hall]]].
  - unfold len. lia.
  - split; [reflexivity|]. intros i Hi. lia.
  - intros x v Hx [Hs Hall].
    set (id := nth (Z.to_nat x) sequence 0).
    assert (Hid : 1 <= id <= len sequence)
      by (apply (Forall_nth_Z _ _ 0 x Hids); lia).
    destruct (idle_row_run processing_times m cols sequence e Hrect Hm Hjobs Hr Hc
                (fun j w => (forall k, k <> id - 1 -> items w k = items v k) /\
                            items w (id - 1)
                            = sumZ (map (term x) (machines (j - 1))) /\
                            0 <= items w (id - 1) <= (j - 1) * T)
                v x Hs Hx Hid) as [w [Ew [Hsw (Hw1 & Hw2 & _)]]].
    + simpl. fold id. rewrite upd1_same. repeat split; try lia.
      intros k Hk. now rewrite upd1_other by assumption.
    + intros j w Hj Hsw (Hw1 & Hw2 & Hw3). simpl. fold id.
      destruct (Hterm x j Hx Hj) as [Heq Hrange]. fold id in Heq. rewrite Heq.
      rewrite upd1_same.
      rewrite add32_small by (unfold INT_MAX in *; nia).
      repeat split; try nia.
      * intros k Hk. rewrite upd1_other by assumption. now apply Hw1.
      * replace (j + 1 - 1) with j by lia.
        rewrite (machines_snoc j) by lia.
        rewrite map_app, sumZ_app, Hw2. unfold sumZ at 3. simpl. lia.
    + exists w. split; [assumption|]. split; [assumption|].
      intros i Hi. destruct (Z.eq_dec i x) as [->|Hne].
      * fold id. rewrite Hw2. replace (m + 1 - 1) with m by lia. reflexivity.
      * rewrite Hw1; [apply Hall; lia|].
        intros Heq. apply Hne.
        assert (Hnat : Z.to_nat i = Z.to_nat x).
        { apply (proj1 (NoDup_nth sequence 0) Hdup);
            unfold len in *; unfold id in *; lia. }
        lia.
  - rewrite Ev. exists v, e. split; [reflexivity|]. split; [apply (Hrun 1)|].
    exact Hall.
Qed.

Lemma idle_times_values_witness :
  exists v e,
    calculate_idle_times [2; 1] p_two 2 = Ok v /\
    calculate_completion_times [2; 1] p_two 2 1 = Ok (Table e) /\
    forall i, 0 <= i < len [2; 1] ->
      items v (nth (Z.to_nat i) [2; 1] 0 - 1) = waiting (data e) p_two [2; 1] 2 i.
Proof.
  apply (idle_times_values [2; 1] p_two 2 2);
    [solve_valid | solve_valid | unfold ids_within; solve_valid
    | repeat constructor; simpl; intuition lia
    | vm_compute; discriminate].
Defined.

(** * taillard_acceleration with tie-breaking *)

(** ** The selection always lands on a position it looked at *)

Lemma select_attained (v : Z -> Z) count :
  (1 <= count)%nat ->
  1 <= snd (select v count) <= Z.of_nat count /\
  v (snd (select v count)) = fst (select v count).
Proof.
  induction count as [|c IH]; intros Hc; [lia|].
  cbn [select]. destruct c as [|c].
  - unfold better. cbn [select fst]. rewrite Z.eqb_refl, orb_true_r.
    cbn [fst snd]. split; [lia | reflexivity].
  - destruct (better _ _); cbn [fst snd].
    + split; [lia | reflexivity].
    + destruct (IH ltac:(lia)) as [Hr Hv]. split; [lia | exact Hv].
Qed.

(** ** The vector [ms] after the makespan loop *)

Section MakespanTable.
Variable processing_times : list (list Z).
Variables m cols : Z.
Variable sequence : list Z.
Variable inserting_job : Z.
Hypothesis Hrect : rectangular processing_times cols.
Hypothesis Hm : 0 <= m <= cols.
Hypothesis Hjobs : Forall (valid_job processing_times) sequence.
Hypothesis Hk : valid_job processing_times inserting_job.
Hypothesis Hrows : len sequence <= 799.
Hypothesis Hcols : m <= 60 /\ (1 <= len sequence -> m <= 59).

Let Q := back_row_by add32 processing_times m sequence.
Let F := insert_row_by add32 processing_times m sequence inserting_job.
Let MS := makespan_by add32 processing_times m sequence inserting_job.

Lemma makespan_cell_others s i j :
  1 <= i <= len sequence + 1 -> 1 <= j <= m ->
  exists s',
    makespan_cell i j s = Ok (tt, s') /\
    Frame.ms s' i = Z.max (Frame.ms s i) (add32 (Frame.f s i j) (Frame.q s i j)) /\
    (forall i', i' <> i -> Frame.ms s' i' = Frame.ms s i') /\
    Frame.q s' = Frame.q s /\ Frame.f s' = Frame.f s /\
    Frame.best_makespan s' = Frame.best_makespan s /\
    Frame.best_position s' = Frame.best_position s.
Proof.
  intros Hi Hj. unfold makespan_cell.
  rewrite bind_rd_f, bind_rd_q, bind_rd_ms by lia.
  unfold when. rewrite Z.gtb_ltb.
  destruct (Z.ltb_spec (Frame.ms s i) (add32 (Frame.f s i j) (Frame.q s i j))).
  - rewrite run_wr_ms by lia. eexists. split; [reflexivity|].
    destruct s as [e q f ms iq jq bm bp]. simpl in *.
    rewrite upd1_same. repeat split; [lia|].
    intros i' Hi'. now rewrite upd1_other.
  - exists s. split; [reflexivity|]. repeat split. lia.
Qed.

Lemma makespan_row_table s i :
  1 <= i <= len sequence + 1 ->
  tables_filled processing_times sequence inserting_job m s ->
  (Frame.best_makespan s, Frame.best_position s) = select MS (Z.to_nat (i - 1)) ->
  exists s',
    makespan_row m i s = Ok (tt, s') /\
    tables_filled processing_times sequence inserting_job m s' /\
    (Frame.best_makespan s', Frame.best_position s') = select MS (Z.to_nat i) /\
    Frame.ms s' i = MS i /\
    (forall i', i' <> i -> Frame.ms s' i' = Frame.ms s i').
Proof.
  intros Hi [Hf Hq] Hbest. unfold makespan_row.
  erewrite bind_ok by (apply run_wr_ms; lia).
  pose proof (insert_row_length add32 processing_times m cols sequence Hrect Hm Hjobs
                inserting_job i Hk Hi) as HlF.
  pose proof (back_row_length add32 processing_times m cols sequence Hrect Hm Hjobs
                i Hi) as HlQ.
  fold F in HlF. fold Q in HlQ.
  destruct (for_range_inv
              (fun j s' =>
                 Frame.ms s' i = meet_by add32 (firstn (Z.to_nat (j - 1)) (F i))
                                               (firstn (Z.to_nat (j - 1)) (Q i)) /\
                 (forall i', i' <> i -> Frame.ms s' i' = Frame.ms s i') /\
                 Frame.q s' = Frame.q s /\ Frame.f s' = Frame.f s /\
                 Frame.best_makespan s' = Frame.best_makespan s /\
                 Frame.best_position s' = Frame.best_position s)
              (makespan_cell i) 1 (m + 1)
              (Frame.set_ms s (upd1 (Frame.ms s) i 0)))
    as [s1 [Hrun (Hms & Hoth & Hq1 & Hf1 & Hbm1 & Hbp1)]].
  - lia.
  - destruct s as [e q f ms iq jq bm bp]. simpl. rewrite upd1_same.
    repeat split. intros i' Hi'. now rewrite upd1_other.
  - intros j s0 Hj (Hms & Hoth & Hq0 & Hf0 & Hbm0 & Hbp0).
    destruct (makespan_cell_others s0 i j Hi ltac:(lia))
      as (s1 & Hrun & Hms1 & Hoth1 & Hq1 & Hf1 & Hbm1 & Hbp1).
    exists s1. split; [exact Hrun|]. repeat split; try congruence.
    + rewrite Hms1, Hms, Hf0, Hq0, Hf, Hq by lia.
      replace (Z.to_nat (j + 1 - 1)) with (S (Z.to_nat (j - 1))) by lia.
      unfold len in HlF, HlQ.
      rewrite meet_firstn_step by lia.
      now rewrite !col_nth by lia.
    + intros i' Hi'. rewrite Hoth1 by assumption. now apply Hoth.
  - erewrite bind_ok by exact Hrun.
    rewrite bind_rd_ms by lia. rewrite bind_gets. unfold when.
    replace (Z.to_nat (m + 1 - 1)) with (length (F i)) in Hms at 1
      by (unfold len in HlF; lia).
    replace (Z.to_nat (m + 1 - 1)) with (length (Q i)) in Hms
      by (unfold len in HlQ; lia).
    rewrite !firstn_all in Hms.
    change (meet_by add32 (F i) (Q i)) with (MS i) in Hms.
    assert (Hsel : select MS (Z.to_nat i)
                   = if better (MS i) (Frame.best_makespan s)
                     then (MS i, i) else select MS (Z.to_nat (i - 1))).
    { replace (Z.to_nat i) with (S (Z.to_nat (i - 1))) by lia.
      cbn [select]. rewrite <- Hbest. cbn [fst].
      now replace (Z.of_nat (S (Z.to_nat (i - 1)))) with i by lia. }
    rewrite Hsel, Hms, Hbm1. unfold better.
    destruct ((MS i <? Frame.best_makespan s) || (Frame.best_makespan s =? 0)).
    + eexists. split; [reflexivity|].
      destruct s1 as [e q f ms iq jq bm bp]. simpl in Hq1, Hf1, Hms, Hoth.
      unfold tables_filled. simpl. rewrite Hq1, Hf1.
      repeat split; assumption.
    + exists s1. split; [reflexivity|].
      split; [unfold tables_filled; rewrite Hq1, Hf1; split; assumption|].
      rewrite Hbm1, Hbp1. repeat split; assumption.
Qed.

Lemma taillard_tables_state junk :
  exists s,
    taillard_tables sequence processing_times inserting_job m (Frame.enter junk)
    = Ok (tt, s) /\
    (Frame.best_makespan s, Frame.best_position s)
    = select MS (Z.to_nat (len sequence + 1)) /\
    (forall i, 1 <= i <= len sequence + 1 -> Frame.ms s i = MS i).
Proof.
  destruct (main_loop_inv processing_times m cols sequence inserting_job
              Hrect Hm Hjobs Hk Hrows Hcols (Frame.enter junk))
    as (s1 & Hrun1 & _ & Hq & Hf & _).
  rewrite bind_modify in Hrun1.
  unfold taillard_tables. rewrite bind_modify.
  erewrite bind_ok by exact Hrun1. rewrite bind_modify.
  destruct (for_range_inv
              (fun i s' =>
                 tables_filled processing_times sequence inserting_job m s' /\
                 (Frame.best_makespan s', Frame.best_position s')
                 = select MS (Z.to_nat (i - 1)) /\
                 (forall i', 1 <= i' < i -> Frame.ms s' i' = MS i'))
              (makespan_row m) 1 (len sequence + 2) (Frame.set_best 0 0 s1))
    as [s2 [Hrun2 (_ & Hsel & Hms)]].
  - unfold len. lia.
  - split; [|split; [reflexivity | intros; lia]].
    destruct s1 as [e q f ms iq jq bm bp]. unfold tables_filled. simpl in *.
    split; intros i j Hi Hj.
    + apply Hf. unfold f_done. lia.
    + apply Hq. unfold q_done. lia.
  - intros i s0 Hi (Ht & Hsel & Hms).
    destruct (makespan_row_table s0 i ltac:(lia) Ht Hsel)
      as (s' & Hrun & Ht' & Hsel' & Hnew & Hoth).
    exists s'. split; [exact Hrun|]. split; [exact Ht'|]. split.
    + now replace (i + 1 - 1) with i by lia.
    + intros i' Hi'. destruct (Z.eq_dec i' i) as [->|Hne]; [exact Hnew|].
      rewrite Hoth by assumption. apply Hms. lia.
  - exists s2. split; [exact Hrun2|]. split.
    + now replace (len sequence + 2 - 1) with (len sequence + 1) in Hsel by lia.
    + intros i Hi. apply Hms. lia.
Qed.
End MakespanTable.

(** ** Commands of [tie_breaking] that leave the position alone *)

Lemma runs_keeping_bind {St A B} (R : St -> St -> Prop)
    (c : M St A) (k : A -> M St B) :
  (forall x y z, R x y -> R y z -> R x z) ->
  runs_keeping R c -> (forall a, runs_keeping R (k a)) ->
  runs_keeping R (bind c k).
Proof.
  intros Htrans Hc Hk s.
  destruct (Hc s) as (a & s1 & E1 & R1).
  destruct (Hk a s1) as (b & s2 & E2 & R2).
  exists b, s2. split; [|eauto].
  unfold bind. now rewrite E1.
Qed.

Lemma runs_keeping_range {St} (R : St -> St -> Prop) lo hi (body : Z -> M St unit) :
  (forall x, R x x) -> (forall x y z, R x y -> R y z -> R x z) ->
  lo <= hi ->
  (forall i, lo <= i < hi -> runs_keeping R (body i)) ->
  runs_keeping R (for_range lo hi body).
Proof.
  intros Hrefl Htrans Hle Hbody s.
  destruct (for_range_inv (fun _ s' => R s s') body lo hi s Hle (Hrefl s))
    as (s' & E & HR).
  - intros x s0 Hx HR. destruct (Hbody x Hx s0) as ([] & s1 & E1 & R1).
    exists s1. split; [exact E1 | eauto].
  - exists tt, s'. auto.
Qed.

Lemma same_position_trans x y z :
  same_position x y -> same_position y z -> same_position x z.
Proof. unfold same_position. congruence. Qed.

Lemma keeps_lift {A} (o : outcome A) a :
  o = Ok a -> runs_keeping same_position (lift o).
Proof. intros -> s. exists a, s. split; reflexivity. Qed.

Lemma keeps_rd_fl i j :
  0 <= i <= 800 -> 0 <= j <= 60 -> runs_keeping same_position (rd_fl i j).
Proof.
  intros Hi Hj s. unfold rd_fl. rewrite in_array_true by lia.
  eexists _, s. split; reflexivity.
Qed.

Lemma keeps_wr_fl i j v :
  0 <= i <= 800 -> 0 <= j <= 60 -> runs_keeping same_position (wr_fl i j v).
Proof.
  intros Hi Hj s. unfold wr_fl. rewrite in_array_true by lia.
  eexists tt, _. split; reflexivity.
Qed.

Lemma keeps_when b (c : M Tie.t unit) :
  runs_keeping same_position c -> runs_keeping same_position (when b c).
Proof.
  intros Hc. destruct b; [exact Hc|].
  intros s. exists tt, s. split; reflexivity.
Qed.

Lemma view2_ok b a i j :
  0 <= i <= 800 -> 0 <= j <= 60 -> view2 b a i j = Ok (a i j).
Proof. intros Hi Hj. unfold view2. now rewrite in_array_true by lia. Qed.

Lemma view1_ok b a i : 0 <= i <= 800 -> view1 b a i = Ok (a i).
Proof. intros Hi. unfold view1. now rewrite within_true by lia. Qed.

Section TieLoop.
Variable processing_times : list (list Z).
Variables m cols : Z.
Variables e f : table.
Variable ms : vector.
Variables k n : Z.
Hypothesis Hrect : rectangular processing_times cols.
Hypothesis Hm : 0 <= m <= cols.
Hypothesis Hcol : 1 <= cols.
Hypothesis Hk : valid_job processing_times k.
Hypothesis Hn : 0 <= n <= 799.
Hypothesis Hp : n + 1 <= len processing_times.
Hypothesis Hm60 : m <= 60.

Lemma keeps_add_it d : runs_keeping same_position (add_it d).
Proof. intros s. exists tt. eexists. split; reflexivity. Qed.

Lemma keeps_tie_last_cell j :
  1 <= n -> 1 <= j <= m ->
  runs_keeping same_position (tie_last_cell processing_times e f k n j).
Proof.
  intros H1 Hj. unfold tie_last_cell.
  apply runs_keeping_bind; [exact same_position_trans | |intros a].
  { eapply keeps_lift. apply view2_ok; lia. }
  apply runs_keeping_bind; [exact same_position_trans | |intros b].
  { eapply keeps_lift. apply view2_ok; lia. }
  apply runs_keeping_bind; [exact same_position_trans | |intros p].
  { eapply keeps_lift. apply (pt_at_job processing_times m cols); trivial. }
  apply keeps_add_it.
Qed.

Lemma keeps_tie_inner_cell i j :
  1 <= i <= n + 1 -> 2 <= j <= m ->
  runs_keeping same_position (tie_inner_cell processing_times e f k i j).
Proof.
  intros Hi Hj. unfold tie_inner_cell.
  apply runs_keeping_bind; [exact same_position_trans | |intros a].
  { eapply keeps_lift. apply view2_ok; lia. }
  apply runs_keeping_bind; [exact same_position_trans | |intros b].
  { eapply keeps_lift. apply view2_ok; lia. }
  apply runs_keeping_bind; [exact same_position_trans | |intros p].
  { eapply keeps_lift. apply (pt_at_job processing_times m cols); trivial.
    - unfold valid_job. lia.
    - lia. }
  apply runs_keeping_bind; [exact same_position_trans | |intros pk].
  { eapply keeps_lift. apply (pt_at_job processing_times m cols); trivial. lia. }
  apply runs_keeping_bind; [exact same_position_trans | apply keeps_add_it |intros _].
  apply runs_keeping_bind; [exact same_position_trans | |intros prev].
  { apply keeps_rd_fl; lia. }
  apply runs_keeping_bind; [exact same_position_trans | |intros _].
  { apply keeps_when, keeps_add_it. }
  destruct (prev >? a).
  - apply keeps_wr_fl; lia.
  - apply runs_keeping_bind; [exact same_position_trans | |intros cur].
    + apply keeps_rd_fl; lia.
    + apply keeps_wr_fl; lia.
Qed.

(** Lines 136-161: a position is replaced only by one with the same [ms]. *)
Lemma tie_row_choice best_makespan i s :
  1 <= i <= n + 1 ->
  exists s',
    tie_row processing_times e f ms k n m best_makespan i s = Ok (tt, s') /\
    (Tie.best_position s' = Tie.best_position s \/
     (Tie.best_position s' = i /\ ms i = best_makespan)).
Proof.
  intros Hi. unfold tie_row.
  erewrite bind_lift by (apply view1_ok; lia).
  unfold when at 1. destruct (Z.eqb_spec (ms i) best_makespan) as [Heq|Hne].
  2:{ exists s. split; [reflexivity | now left]. }
  rewrite !bind_modify.
  match goal with |- context [bind ?c _ ?s0] =>
    assert (Hrun : runs_keeping same_position c); [|destruct (Hrun s0) as ([] & s1 & E1 & R1)]
  end.
  { destruct (Z.eqb_spec i n) as [->|Hin].
    - apply runs_keeping_range;
        [reflexivity | exact same_position_trans | lia |].
      intros j Hj. apply keeps_tie_last_cell; lia.
    - apply runs_keeping_bind; [exact same_position_trans | |intros a].
      { eapply keeps_lift. apply view2_ok; lia. }
      apply runs_keeping_bind; [exact same_position_trans | |intros p].
      { eapply keeps_lift.
        apply (pt_at_job processing_times 1 cols Hrect ltac:(lia) i 1);
          [unfold valid_job; lia | lia]. }
      apply runs_keeping_bind; [exact same_position_trans | |intros _].
      { apply keeps_wr_fl; lia. }
      destruct (Z_le_dec 2 (m + 1)).
      + apply runs_keeping_range;
          [reflexivity | exact same_position_trans | lia |].
        intros j Hj. apply keeps_tie_inner_cell; lia.
      + intros s0. rewrite for_range_empty by lia.
        exists tt, s0. split; reflexivity. }
  erewrite bind_ok by exact E1.
  rewrite !bind_gets. unfold when.
  unfold same_position in R1. simpl in R1.
  destruct (Tie.it s1 <? Tie.itbp s1).
  - eexists. split; [reflexivity|]. right. split; [reflexivity | exact Heq].
  - exists s1. split; [reflexivity|]. left. exact R1.
Qed.

(** The position [tie_breaking] returns is the one it was given or a
    position of the same [ms]. *)
Lemma tie_breaking_among (P : Z -> Prop) junk position :
  0 <= position <= 800 -> P position ->
  (forall i, 1 <= i <= n + 1 -> ms i = ms position -> P i) ->
  exists pos,
    tie_breaking processing_times e f ms k n m junk position = Ok pos /\ P pos.
Proof.
  intros Hpos H0 Hties. unfold tie_breaking, eval.
  erewrite bind_lift by (apply view1_ok; lia).
  destruct (for_range_inv (fun _ s => P (Tie.best_position s))
              (tie_row processing_times e f ms k n m (ms position))
              1 (n + 2) (Tie.enter junk position))
    as (s' & E & HP).
  - lia.
  - exact H0.
  - intros i s0 Hi HP.
    destruct (tie_row_choice (ms position) i s0 ltac:(lia)) as (s1 & E1 & [Hsame | [Hnew Heq]]).
    + exists s1. split; [exact E1 | now rewrite Hsame].
    + exists s1. split; [exact E1|]. rewrite Hnew. apply Hties; [lia | exact Heq].
  - erewrite bind_ok by exact E. unfold gets. exists (Tie.best_position s'). auto.
Qed.
End TieLoop.

(** ** What [taillard_acceleration] returns, with and without tie-breaking *)

Lemma taillard_acceleration_among processing_times m cols sequence k :
  valid_input processing_times cols m (k :: sequence) ->
  len sequence <= 799 -> m <= 59 -> 1 <= cols ->
  len sequence + 1 <= len processing_times ->
  forall (P : Z -> Prop) junk t,
    P (snd (select (makespan_by add32 processing_times m sequence k)
                   (Z.to_nat (len sequence + 1)))) ->
    (forall i, 1 <= i <= len sequence + 1 ->
       makespan_by add32 processing_times m sequence k i
       = fst (select (makespan_by add32 processing_times m sequence k)
                     (Z.to_nat (len sequence + 1))) ->
       P i) ->
    exists pos,
      taillard_acceleration junk sequence processing_times k m t
      = Ok (pos, fst (select (makespan_by add32 processing_times m sequence k)
                             (Z.to_nat (len sequence + 1)))) /\
      P pos.
Proof.
  intros (Hrect & Hm & Hall) Hn Hm59 Hcol Hp P junk t H0 Hties.
  inversion Hall as [|? ? Hk Hjobs]; subst.
  assert (Hlen : 0 <= len sequence) by (unfold len; lia).
  set (MS := makespan_by add32 processing_times m sequence k) in *.
  set (sel := select MS (Z.to_nat (len sequence + 1))) in *.
  destruct (taillard_tables_state processing_times m cols sequence k
              Hrect Hm Hjobs Hk Hn ltac:(lia) junk) as (s & Hrun & Hsel & Hms).
  fold MS in Hsel, Hms. fold sel in Hsel.
  destruct (select_attained MS (Z.to_nat (len sequence + 1)) ltac:(lia))
    as [Hrange Hatt].
  fold sel in Hrange, Hatt.
  replace (Z.of_nat (Z.to_nat (len sequence + 1))) with (len sequence + 1)
    in Hrange by lia.
  assert (Hbm : Frame.best_makespan s = fst sel) by now rewrite <- Hsel.
  assert (Hbp : Frame.best_position s = snd sel) by now rewrite <- Hsel.
  unfold taillard_acceleration. rewrite Hrun, Hbm, Hbp.
  destruct (t >? 0).
  - destruct (tie_breaking_among processing_times m cols (Frame.e s) (Frame.f s)
                (Frame.ms s) k (len sequence) Hrect Hm Hcol Hk ltac:(lia) Hp
                ltac:(lia) P junk (snd sel) ltac:(lia) H0) as (pos & Hpos & HP).
    + intros i Hi Heq. apply Hties; [exact Hi|].
      rewrite !Hms in Heq by lia. now rewrite Heq.
    + exists pos. rewrite Hpos. auto.
  - exists (snd sel). auto.
Qed.

(** X8.  On well-formed input ([n <= 799], [m <= 59], a row of the matrix
    for every job, and a matrix of at least [n + 1] rows and one column,
    which [tie_breaking] indexes by position), [taillard_acceleration]
    returns for every value of [use_tie_breaking] and whatever the stack
    held: the position is in [1, n+1], the makespan is the same in every
    case, and without tie-breaking so is the position. *)
Theorem tie_breaking_keeps_makespan sequence processing_times cols m k :
  valid_input processing_times cols m (k :: sequence) ->
  len sequence <= 799 -> m <= 59 -> 1 <= cols ->
  len sequence + 1 <= len processing_times ->
  exists makespan first,
    forall junk t, exists position,
      taillard_acceleration junk sequence processing_times k m t
      = Ok (position, makespan) /\
      1 <= position <= len sequence + 1 /\
      (t <= 0 -> position = first).
Proof.
  intros Hv Hn Hm59 Hcol Hp.
  assert (Hlen : 0 <= len sequence) by (unfold len; lia).
  set (MS := makespan_by add32 processing_times m sequence k).
  set (sel := select MS (Z.to_nat (len sequence + 1))).
  destruct (select_attained MS (Z.to_nat (len sequence + 1)) ltac:(lia))
    as [Hrange _].
  fold sel in Hrange.
  replace (Z.of_nat (Z.to_nat (len sequence + 1))) with (len sequence + 1)
    in Hrange by lia.
  exists (fst sel), (snd sel). intros junk t.
  destruct (Z_le_dec t 0) as [Ht|Ht].
  - exists (snd sel). destruct Hv as (Hrect & Hm & Hall).
    inversion Hall as [|? ? Hk Hjobs]; subst.
    rewrite (taillard_acceleration_select processing_times m cols sequence k
               Hrect Hm Hjobs Hk Hn ltac:(lia) junk t Ht).
    auto.
  - destruct (taillard_acceleration_among processing_times m cols sequence k
                Hv Hn Hm59 Hcol Hp (fun x => 1 <= x <= len sequence + 1) junk t)
      as (pos & Hrun & Hpos).
    + exact Hrange.
    + intros i Hi _. exact Hi.
    + exists pos. split; [exact Hrun|]. split; [exact Hpos | lia].
Qed.

Lemma tie_breaking_keeps_makespan_witness :
  exists makespan first,
    forall junk t, exists position,
      taillard_acceleration junk [1; 2] p_three 3 2 t = Ok (position, makespan) /\
      1 <= position <= len [1; 2] + 1 /\
      (t <= 0 -> position = first).
Proof.
  apply (tie_breaking_keeps_makespan [1; 2] p_three 2 2 3);
    [solve_valid | unfold len; simpl; lia | lia | lia | unfold len; simpl; lia].
Defined.

(** X9.  Tie-breaking keeps the optimum.  Without overflow, whatever
    [use_tie_breaking] and the stack are, the returned makespan is the
    least makespan over the n+1 insertion positions, as
    [calculate_completion_times] computes them, and the returned position
    attains it. *)
Theorem tie_breaking_keeps_optimum junk sequence processing_times cols m k t :
  valid_input processing_times cols m (k :: sequence) ->
  non_negative processing_times ->
  total_time processing_times m (k :: sequence) <= INT_MAX ->
  len sequence <= 799 -> m <= 59 -> 1 <= cols ->
  len sequence + 1 <= len processing_times ->
  exists position makespan,
    taillard_acceleration junk sequence processing_times k m t
    = Ok (position, makespan) /\
    1 <= position <= len sequence + 1 /\
    calculate_completion_times (insert_at sequence position k) processing_times m 0
    = Ok (Scalar makespan) /\
    (forall i, 1 <= i <= len sequence + 1 ->
       exists c, calculate_completion_times (insert_at sequence i k)
                   processing_times m 0 = Ok (Scalar c) /\
                 makespan <= c).
Proof.
  intros Hv Hnn Hfit Hn Hm59 Hcol Hp.
  pose proof Hv as (Hrect & Hm & Hall).
  inversion Hall as [|? ? Hk Hjobs]; subst.
  set (MS := makespan_by add32 processing_times m sequence k).
  set (sel := select MS (Z.to_nat (len sequence + 1))).
  destruct (taillard_acceleration_optimal processing_times m cols sequence k
              Hrect Hm Hjobs Hk Hnn Hfit Hn ltac:(lia) junk)
    as (pos0 & mk0 & Hrun0 & Hpos0 & Hat0 & Hmin0).
  rewrite (taillard_acceleration_select processing_times m cols sequence k
             Hrect Hm Hjobs Hk Hn ltac:(lia) junk 0 ltac:(lia)) in Hrun0.
  fold MS in Hrun0. fold sel in Hrun0.
  injection Hrun0 as Hp0 Hm0.
  destruct (taillard_acceleration_among processing_times m cols sequence k
              Hv Hn Hm59 Hcol Hp
              (fun x => 1 <= x <= len sequence + 1 /\ MS x = fst sel) junk t)
    as (pos & Hrun & Hpos & Hms).
  - cbv beta. fold MS. fold sel.
    assert (Hlen : 0 <= len sequence) by (unfold len; lia).
    destruct (select_attained MS (Z.to_nat (len sequence + 1)) ltac:(lia))
      as [Hrange Hatt].
    fold sel in Hrange, Hatt. split; [lia | exact Hatt].
  - intros i Hi Heq. split; [exact Hi | exact Heq].
  - fold MS in Hrun. fold sel in Hrun.
    exists pos, mk0. rewrite <- Hm0. split; [exact Hrun|]. split; [exact Hpos|].
    split.
    + rewrite (brute_force_scalar processing_times m cols sequence k
                 Hrect Hm Hjobs Hk Hnn pos Hfit Hpos).
      rewrite <- (makespan_wrap processing_times m sequence k Hnn Hfit pos Hpos).
      fold MS. now rewrite Hms.
    + intros i Hi. destruct (Hmin0 i Hi) as (c & Hc & Hle & _).
      exists c. rewrite Hm0. auto.
Qed.

Lemma tie_breaking_keeps_optimum_witness :
  exists position makespan,
    taillard_acceleration (junk_fl 10) [1; 2] p_three 3 2 1
    = Ok (position, makespan) /\
    1 <= position <= len [1; 2] + 1 /\
    calculate_completion_times (insert_at [1; 2] position 3) p_three 2 0
    = Ok (Scalar makespan) /\
    (forall i, 1 <= i <= len [1; 2] + 1 ->
       exists c, calculate_completion_times (insert_at [1; 2] i 3) p_three 2 0
                 = Ok (Scalar c) /\
                 makespan <= c).
Proof.
  apply (tie_breaking_keeps_optimum (junk_fl 10) [1; 2] p_three 2 2 3 1);
    [solve_valid | solve_valid | vm_compute; discriminate
    | unfold len; simpl; lia | lia | lia | unfold len; simpl; lia].
Defined.



(** ** Inserting a job: how far the makespan can move *)

Lemma advance_mono : forall above above' ps prev prev',
  Forall2 Z.le above above' -> prev <= prev' ->
  Forall2 Z.le (advance prev above ps) (advance prev' above' ps).
Proof.
  intros above above' ps prev prev' H. revert ps prev prev'.
  induction H as [|a a' above above' Ha H IH]; intros [|p ps] prev prev' Hp;
    cbn [advance_by]; cbv zeta; try constructor.
  - lia.
  - apply IH. lia.
Qed.

Lemma finish_mono : forall jobs above above',
  Forall2 Z.le above above' ->
  Forall2 Z.le (finish above jobs) (finish above' jobs).
Proof.
  unfold finish_by.
  induction jobs as [|ps jobs IH]; intros above above' H; simpl; [exact H|].
  apply IH. apply advance_mono; [exact H | lia].
Qed.

Lemma advance_above : forall above ps prev,
  length above = length ps -> Forall (fun x => 0 <= x) ps ->
  Forall2 Z.le above (advance prev above ps).
Proof.
  induction above as [|a above IH]; intros [|p ps] prev Hl Hnn;
    simpl in Hl; try lia; cbn [advance_by]; cbv zeta; constructor.
  - inversion Hnn; subst. lia.
  - apply IH; [lia | now inversion Hnn].
Qed.

Lemma Forall2_le_trans l1 : forall l2 l3,
  Forall2 Z.le l1 l2 -> Forall2 Z.le l2 l3 -> Forall2 Z.le l1 l3.
Proof.
  induction l1 as [|x l1 IH]; intros l2 l3 H12 H23;
    inversion H12; subst; inversion H23; subst; constructor.
  - lia.
  - eapply IH; eassumption.
Qed.

Lemma finish_above : forall jobs above,
  Forall (fun ps => length ps = length above) jobs ->
  Forall (Forall (fun x => 0 <= x)) jobs ->
  Forall2 Z.le above (finish above jobs).
Proof.
  unfold finish_by.
  induction jobs as [|ps jobs IH]; intros above Hl Hnn; simpl.
  - clear. induction above; constructor; [lia | assumption].
  - inversion Hl as [|? ? Hps Hrest]; subst. inversion Hnn; subst.
    apply (Forall2_le_trans above (advance 0 above ps)).
    + apply advance_above; [lia | assumption].
    + apply IH; [|assumption].
      rewrite advance_length by lia.
      eapply Forall_impl; [|exact Hrest]. cbv beta. intros; congruence.
Qed.

Lemma Forall2_le_last l : forall l' d d',
  Forall2 Z.le l l' -> d <= d' -> last l d <= last l' d'.
Proof.
  induction l as [|x l IH]; intros l' d d' H Hd; inversion H; subst.
  - simpl. exact Hd.
  - rewrite !last_cons. now apply IH.
Qed.

Lemma last_Forall (P : Z -> Prop) l : forall d, P d -> Forall P l -> P (last l d).
Proof.
  induction l as [|x l IH]; intros d Hd H; [exact Hd|].
  inversion H; subst. rewrite last_cons. now apply IH.
Qed.

Lemma rising_le_last l : forall prev,
  rising prev l -> Forall (fun x => x <= last l prev) l.
Proof.
  induction l as [|x l IH]; intros prev H; [constructor|].
  destruct H as [Hx Hl]. rewrite last_cons. constructor.
  - now apply rising_last.
  - now apply IH.
Qed.

Lemma rising_zeros c : rising 0 (repeat 0 c).
Proof.
  induction c as [|c IH]; simpl; [trivial | split; [lia | exact IH]].
Qed.

Lemma finish_rising : forall jobs above,
  Forall (Forall (fun x => 0 <= x)) jobs -> rising 0 above ->
  rising 0 (finish above jobs).
Proof.
  unfold finish_by.
  induction jobs as [|ps jobs IH]; intros above Hnn H; simpl; [exact H|].
  inversion Hnn; subst. apply IH; [assumption|].
  now apply advance_rising.
Qed.

Lemma finish_length : forall jobs above,
  Forall (fun ps => length ps = length above) jobs ->
  length (finish above jobs) = length above.
Proof.
  unfold finish_by.
  induction jobs as [|ps jobs IH]; intros above Hl; simpl; [reflexivity|].
  inversion Hl as [|? ? Hps Hrest]; subst. rewrite IH.
  - rewrite advance_length; lia.
  - rewrite advance_length by lia.
    eapply Forall_impl; [|exact Hrest]. cbv beta. intros; congruence.
Qed.

Section Insertion.
Variable processing_times : list (list Z).
Variables m cols : Z.
Variable sequence : list Z.
Variable k : Z.
Hypothesis Hrect : rectangular processing_times cols.
Hypothesis Hm : 0 <= m <= cols.
Hypothesis Hjobs : Forall (valid_job processing_times) sequence.
Hypothesis Hk : valid_job processing_times k.
Hypothesis Hnn : non_negative processing_times.

Let zeros := repeat 0 (Z.to_nat m).
Let rows := job_rows processing_times m.
Let pk := job_times processing_times m k.

Lemma rows_width ids :
  Forall (valid_job processing_times) ids ->
  Forall (fun ps => length ps = length zeros) (rows ids).
Proof.
  intros H. unfold zeros. rewrite repeat_length.
  exact (job_rows_length processing_times m cols sequence Hrect Hm ids H).
Qed.

Lemma pk_width : length pk = length zeros.
Proof.
  unfold zeros, pk. rewrite repeat_length.
  pose proof (job_times_length processing_times m cols Hrect Hm k Hk) as Hl.
  unfold len in Hl. lia.
Qed.

Lemma rows_insert_at i :
  rows (insert_at sequence i k)
  = rows (firstn (Z.to_nat (i - 1)) sequence) ++ pk
    :: rows (skipn (Z.to_nat (i - 1)) sequence).
Proof. unfold rows, job_rows, insert_at. now rewrite map_app. Qed.

Lemma rows_split i :
  rows sequence
  = rows (firstn (Z.to_nat (i - 1)) sequence)
    ++ rows (skipn (Z.to_nat (i - 1)) sequence).
Proof.
  unfold rows, job_rows. rewrite <- map_app. now rewrite firstn_skipn.
Qed.

(** The makespan with the job inserted at [i] is at least the makespan
    without it, and at least the work of the job. *)
Lemma insertion_raises i :
  last (finish zeros (rows sequence)) 0
  <= last (finish zeros (rows (insert_at sequence i k))) 0
  /\ sumZ pk <= last (finish zeros (rows (insert_at sequence i k))) 0.
Proof.
  rewrite (rows_split i), rows_insert_at.
  set (s1 := firstn (Z.to_nat (i - 1)) sequence).
  set (s2 := skipn (Z.to_nat (i - 1)) sequence).
  assert (H1 : Forall (valid_job processing_times) s1) by now apply Forall_take.
  assert (H2 : Forall (valid_job processing_times) s2) by now apply Forall_drop.
  unfold finish_by. rewrite !fold_left_app. cbn [fold_left].
  fold (finish zeros (rows s1)).
  set (A := finish zeros (rows s1)).
  assert (HA : length A = length zeros)
    by (apply finish_length; now apply rows_width).
  assert (Hpk : Forall (fun x => 0 <= x) pk) by now apply job_times_nonneg.
  fold (finish A (rows s2)). fold (finish (advance 0 A pk) (rows s2)).
  split.
  - apply Forall2_le_last; [|lia].
    apply finish_mono. apply advance_above; [|assumption].
    rewrite pk_width. exact HA.
  - pose proof (advance_last_ge A pk 0 ltac:(rewrite pk_width; exact HA)) as Hge.
    assert (Hup : last (advance 0 A pk) 0
                  <= last (finish (advance 0 A pk) (rows s2)) 0).
    { apply Forall2_le_last; [|lia]. apply finish_above.
      - rewrite advance_length by (rewrite pk_width; exact HA).
        rewrite pk_width. now apply rows_width.
      - now apply job_rows_nonneg. }
    lia.
Qed.

(** Put last, the job adds at most its own work. *)
Lemma insertion_at_end :
  last (finish zeros (rows (insert_at sequence (len sequence + 1) k))) 0
  <= last (finish zeros (rows sequence)) 0 + sumZ pk.
Proof.
  rewrite rows_insert_at.
  replace (Z.to_nat (len sequence + 1 - 1)) with (length sequence)
    by (unfold len; lia).
  rewrite firstn_all, skipn_all. change (rows []) with (@nil (list Z)).
  unfold finish_by. rewrite fold_left_app. cbn [fold_left].
  fold (finish zeros (rows sequence)).
  set (A := finish zeros (rows sequence)).
  assert (Hrise : rising 0 A).
  { apply finish_rising; [now apply job_rows_nonneg | apply rising_zeros]. }
  assert (Hpk : Forall (fun x => 0 <= x) pk) by now apply job_times_nonneg.
  pose proof (rising_last A 0 Hrise) as H0.
  pose proof (sumZ_nonneg pk Hpk) as Hs.
  apply (last_Forall (fun x => x <= last A 0 + sumZ pk)); [lia|].
  eapply Forall_impl;
    [|apply (advance_bounds A pk 0 (last A 0) Hpk ltac:(lia)
               (rising_le_last A 0 Hrise))].
  simpl. intros; lia.
Qed.

Lemma makespan_as_rows ids :
  Forall (valid_job processing_times) ids ->
  total_time processing_times m ids <= INT_MAX ->
  calculate_completion_times ids processing_times m 0
  = Ok (Scalar (last (finish zeros (rows ids)) 0)).
Proof.
  intros Hids Hfit.
  destruct (completion_table_rows ids processing_times cols m
              (conj Hrect (conj Hm Hids)) Hnn Hfit) as [e (_ & _ & Hrows & Hrun)].
  rewrite (Hrun 0). cbn [Z.gtb Z.compare]. do 2 f_equal.
  rewrite Hrows by (unfold len; lia).
  pose proof (head_row_length Z.add processing_times m cols ids Hrect Hm Hids
                (len ids) ltac:(unfold len; lia)) as Hl.
  rewrite <- Hl at 2. rewrite col_last.
  unfold head_row_by. replace (Z.to_nat (len ids)) with (length ids)
    by (unfold len; lia).
  now rewrite firstn_all.
Qed.
End Insertion.

(** X11.  Without overflow, the makespan that [taillard_acceleration]
    returns for the sequence with job [k] inserted is at least the makespan
    of the sequence alone and at least the work of job [k], and at most
    the makespan of the sequence plus the work of job [k]. *)
Theorem insertion_makespan_range junk sequence processing_times cols m k :
  valid_input processing_times cols m (k :: sequence) ->
  non_negative processing_times ->
  total_time processing_times m (k :: sequence) <= INT_MAX ->
  len sequence <= 799 -> m <= 59 ->
  exists before position makespan,
    calculate_completion_times sequence processing_times m 0 = Ok (Scalar before) /\
    taillard_acceleration junk sequence processing_times k m 0
    = Ok (position, makespan) /\
    before <= makespan <= before + sumZ (job_times processing_times m k) /\
    sumZ (job_times processing_times m k) <= makespan.
Proof.
  intros (Hrect & Hm & Hall) Hnn Hfit Hn Hm59.
  inversion Hall as [|? ? Hk Hjobs]; subst.
  assert (Hlen : 0 <= len sequence) by (unfold len; lia).
  destruct (taillard_acceleration_optimal processing_times m cols sequence k
              Hrect Hm Hjobs Hk Hnn Hfit Hn ltac:(lia) junk)
    as (pos & mk & Hrun & Hpos & Hat & Hmin).
  assert (Hfit0 : total_time processing_times m sequence <= INT_MAX).
  { change (k :: sequence) with ([k] ++ sequence) in Hfit.
    rewrite total_time_app in Hfit.
    pose proof (total_time_nonneg processing_times m [k] Hnn). lia. }
  assert (Hins : forall i,
            calculate_completion_times (insert_at sequence i k) processing_times m 0
            = Ok (Scalar (last (finish (repeat 0 (Z.to_nat m))
                                  (job_rows processing_times m
                                     (insert_at sequence i k))) 0))).
  { intros i.
    apply (makespan_as_rows processing_times m cols Hrect Hm Hnn).
    - now apply insert_at_valid.
    - now rewrite insert_at_total. }
  pose proof (makespan_as_rows processing_times m cols Hrect Hm Hnn
                sequence Hjobs Hfit0) as Hbefore.
  cbv beta zeta in Hbefore.
  pose proof (insertion_raises processing_times m cols sequence k
                Hrect Hm Hjobs Hk Hnn pos) as [Hlow Hwork].
  pose proof (insertion_at_end processing_times m sequence k Hnn) as Hend.
  cbv beta zeta in Hlow, Hwork, Hend.
  rewrite Hins in Hat. injection Hat as Hmk.
  destruct (Hmin (len sequence + 1) ltac:(lia)) as (c & Hc & Hle & _).
  rewrite Hins in Hc. injection Hc as Hc.
  eexists _, pos, mk. split; [exact Hbefore|]. split; [exact Hrun|]. lia.
Qed.

Lemma insertion_makespan_range_witness :
  exists before position makespan,
    calculate_completion_times [1; 2] p_three 2 0 = Ok (Scalar before) /\
    taillard_acceleration junk_zero [1; 2] p_three 3 2 0 = Ok (position, makespan) /\
    before <= makespan <= before + sumZ (job_times p_three 2 3) /\
    sumZ (job_times p_three 2 3) <= makespan.
Proof.
  apply (insertion_makespan_range junk_zero [1; 2] p_three 2 2 3);
    [solve_valid | solve_valid | vm_compute; discriminate
    | unfold len; simpl; lia | lia].
Defined.

(** ** taillard_acceleration: an inserted job without a row in the matrix *)

Lemma insert_cell_invalid processing_times k s i j :
  1 <= i <= 800 -> 1 <= j <= 60 -> ~ valid_job processing_times k ->
  insert_cell processing_times k i j s
  = OutOfBounds Bprocessing_times (k - 1) (j - 1).
Proof.
  intros Hi Hj Hk. unfold insert_cell.
  rewrite bind_rd_f, bind_rd_e by lia.
  unfold bind, lift, pt_at.
  rewrite within_false by (unfold valid_job in Hk; lia).
  reflexivity.
Qed.

Section InsertedJob.
Variable processing_times : list (list Z).
Variables m cols : Z.
Variable sequence : list Z.
Variable k : Z.
Hypothesis Hrect : rectangular processing_times cols.
Hypothesis Hm : 1 <= m <= cols.
Hypothesis Hjobs : Forall (valid_job processing_times) sequence.
Hypothesis Hk : ~ valid_job processing_times k.
Hypothesis Hrows : len sequence <= 799.
Hypothesis Hcols : m <= 59.

Let n : Z := len sequence.

Lemma main_cell_first_fails s :
  (1 <= n -> Frame.iq s = n /\ Frame.jq s = m + 1) ->
  main_cell sequence processing_times k m 1 1 s
  = OutOfBounds Bprocessing_times (k - 1) 0.
Proof.
  intros Hs. assert (Hn : 0 <= n) by (unfold n, len; lia).
  unfold main_cell. cbn [Z.eqb Pos.eqb when].
  erewrite bind_ok.
  2:{ erewrite bind_ok by (apply run_wr_e; lia).
      apply run_wr_q; unfold n in *; lia. }
  destruct (Z.ltb_spec 1 (len sequence + 1)) as [Hlt|Hge]; unfold when.
  - erewrite bind_ok.
    2:{ apply (head_tail_cell_run processing_times m cols sequence Hrect
                 ltac:(lia) Hjobs Hrows ltac:(lia));
          destruct s as [e q f ms iq jq bm bp]; simpl in *;
          unfold n in *; lia. }
    apply (insert_cell_invalid processing_times k _ 1 1); trivial; lia.
  - erewrite bind_ok by reflexivity.
    apply (insert_cell_invalid processing_times k _ 1 1); trivial; lia.
Qed.

Lemma main_row_first_fails s :
  Frame.iq s = n + 1 ->
  main_row sequence processing_times k m 1 s
  = OutOfBounds Bprocessing_times (k - 1) 0.
Proof.
  intros Hiq. assert (Hn : 0 <= n) by (unfold n, len; lia).
  destruct s as [e q f ms iq jq bm bp]. simpl in Hiq. subst iq.
  unfold main_row, when.
  assert (Hloop : forall s1,
            (1 <= n -> Frame.iq s1 = n /\ Frame.jq s1 = m + 1) ->
            for_range 1 (m + 1) (main_cell sequence processing_times k m 1) s1
            = OutOfBounds Bprocessing_times (k - 1) 0).
  { intros s1 Hs1. unfold for_range.
    replace (Z.to_nat (m + 1 - 1)) with (S (Z.to_nat (m - 1))) by lia.
    cbn [for_loop]. unfold bind. now rewrite main_cell_first_fails. }
  destruct (Z.ltb_spec 1 (len sequence + 1)) as [Hlt|Hge].
  - erewrite bind_ok.
    2:{ erewrite bind_ok by (apply run_wr_e; lia).
        rewrite bind_modify, bind_gets. apply run_wr_q; simpl; unfold n in *; lia. }
    erewrite bind_ok by (apply run_wr_f; lia).
    rewrite bind_modify. apply Hloop. simpl. intros _. unfold n. lia.
  - erewrite bind_ok by reflexivity.
    erewrite bind_ok by (apply run_wr_f; lia).
    rewrite bind_modify. apply Hloop. simpl. unfold n in *. lia.
Qed.

Lemma taillard_tables_first_fails junk :
  taillard_tables sequence processing_times k m (Frame.enter junk)
  = OutOfBounds Bprocessing_times (k - 1) 0.
Proof.
  assert (Hn : 0 <= n) by (unfold n, len; lia).
  unfold taillard_tables. rewrite bind_modify. unfold bind at 1.
  unfold for_range.
  replace (Z.to_nat (len sequence + 2 - 1)) with (S (Z.to_nat (len sequence)))
    by (unfold n in Hn; lia).
  cbn [for_loop]. unfold bind at 1.
  now rewrite main_row_first_fails.
Qed.
End InsertedJob.

(** X12.  [taillard_acceleration] does not check the inserted job, and
    reads the matrix without bounds checks.  With at least one machine and
    an inserted job that has no row in the matrix, the first access of the
    call outside a buffer is its first read of that job's times,
    [processing_times[k - 1, 0]] (lines 76-79, for [i = 1] and [j = 1]):
    every access before it is inside its buffer.  What the call goes on to
    compute from what it read there is not described. *)
Theorem inserting_job_unchecked junk sequence processing_times cols m k t :
  rectangular processing_times cols -> 1 <= m <= cols -> m <= 59 ->
  len sequence <= 799 ->
  Forall (valid_job processing_times) sequence ->
  ~ valid_job processing_times k ->
  first_stray_access
    (taillard_acceleration junk sequence processing_times k m t)
    Bprocessing_times (k - 1) 0.
Proof.
  unfold first_stray_access.
  intros Hrect Hm Hm59 Hn Hjobs Hk. unfold taillard_acceleration.
  now rewrite (taillard_tables_first_fails processing_times m cols sequence k
                 Hrect Hm Hjobs Hk Hn Hm59 junk).
Qed.

Lemma inserting_job_unchecked_witness :
  first_stray_access (taillard_acceleration junk_zero [1; 2] p_two 3 2 0)
    Bprocessing_times (3 - 1) 0.
Proof.
  apply (inserting_job_unchecked junk_zero [1; 2] p_two 2 2 3 0);
    [solve_valid | lia | lia | unfold len; simpl; lia | solve_valid
    | unfold valid_job, len; simpl; lia].
Defined.

(** ** taillard_acceleration: a makespan of zero *)

(** X13.  Line 92 takes [best_makespan == 0] for "nothing chosen yet".
    When the jobs involved take no time at all (all their times on
    machines 1..m are zero; in particular when [m = 0]), every position has
    makespan 0 and each one replaces the one before: without tie-breaking
    the call returns the last position, [n + 1], and makespan 0. *)
Theorem zero_makespan_last_position junk sequence processing_times cols m k t :
  valid_input processing_times cols m (k :: sequence) ->
  non_negative processing_times ->
  total_time processing_times m (k :: sequence) = 0 ->
  len sequence <= 799 -> m <= 59 -> t <= 0 ->
  taillard_acceleration junk sequence processing_times k m t
  = Ok (len sequence + 1, 0).
Proof.
  intros (Hrect & Hm & Hall) Hnn Hzero Hn Hm59 Ht.
  inversion Hall as [|? ? Hk Hjobs]; subst.
  assert (Hlen : 0 <= len sequence) by (unfold len; lia).
  assert (Hfit : total_time processing_times m (k :: sequence) <= INT_MAX)
    by (rewrite Hzero; unfold INT_MAX; lia).
  rewrite (taillard_acceleration_select processing_times m cols sequence k
             Hrect Hm Hjobs Hk Hn ltac:(lia) junk t Ht).
  rewrite (select_ext _ (fun i => meet (insert_row processing_times m sequence k i)
                                       (back_row processing_times m sequence i))).
  2:{ intros i Hi. apply makespan_wrap; trivial. lia. }
  rewrite select_zero.
  - cbn [fst snd]. repeat f_equal. lia.
  - intros i _. pose proof (ideal_makespan_range processing_times m sequence k Hnn i).
    lia.
Qed.

Lemma zero_makespan_last_position_witness :
  taillard_acceleration junk_zero [1] p_zero 2 1 0 = Ok (len [1] + 1, 0).
Proof.
  apply (zero_makespan_last_position junk_zero [1] p_zero 1 1 2 0);
    [solve_valid | solve_valid | reflexivity | unfold len; simpl; lia | lia | lia].
Defined.

(** ** tie_breaking on its own *)

(** X14.  Whatever the tables [e], [f] and [ms] and the stack hold,
    [tie_breaking] returns (for [n <= 799], [m <= 60], a valid inserted
    job and a matrix of at least [n + 1] rows and one column), and the
    position it returns is the one it was given or a position of [1, n+1],
    with the same entry in [ms] as the one it was given. *)
Theorem tie_breaking_picks_a_tie processing_times cols m e f ms k n junk position :
  rectangular processing_times cols -> 0 <= m <= cols -> m <= 60 -> 1 <= cols ->
  valid_job processing_times k ->
  0 <= n <= 799 -> n + 1 <= len processing_times ->
  0 <= position <= 800 ->
  exists pos,
    tie_breaking processing_times e f ms k n m junk position = Ok pos /\
    ms pos = ms position /\
    (pos = position \/ 1 <= pos <= n + 1).
Proof.
  intros Hrect Hm Hm60 Hcol Hk Hn Hp Hpos.
  apply (tie_breaking_among processing_times m cols e f ms k n Hrect Hm Hcol Hk Hn Hp
           Hm60 (fun x => ms x = ms position /\ (x = position \/ 1 <= x <= n + 1))
           junk position Hpos).
  - split; [reflexivity | now left].
  - intros i Hi Heq. split; [exact Heq | now right].
Qed.

Lemma tie_breaking_picks_a_tie_witness :
  exists pos,
    tie_breaking p_three (fun _ _ => 0) (fun _ _ => 0) (fun _ => 7) 3 2 2
      (junk_fl 10) 1 = Ok pos /\
    (fun _ : Z => 7) pos = (fun _ : Z => 7) 1 /\
    (pos = 1 \/ 1 <= pos <= 2 + 1).
Proof.
  apply (tie_breaking_picks_a_tie p_three 2 2 (fun _ _ => 0) (fun _ _ => 0)
           (fun _ => 7) 3 2 (junk_fl 10) 1);
    [solve_valid | lia | lia | lia | solve_valid | lia
    | unfold len; simpl; lia | lia].
Defined.
